(** * The natural-language query interpreter of the team productivity backend

    A shallow embedding of [TextQueryService] (backend service
    [textQuery.service.ts]) together with the part of the relational store
    it reads, and the properties of the interpreter stated over it;
    followed by what surrounds the interpreter: the route that serves it
    ([routes/metrics.ts]), the client that calls the route
    ([apiClient.ts]), the period selector of the dashboard, and the
    metrics service ([metrics.service.ts]) that answers the same
    questions over the same store.

    Conventions of the embedding:
    - text is [string]; the embedding covers ASCII text, so [toLowerCase]
      folds [A-Z] only and white space is the ASCII white space;
    - timestamps are milliseconds since the epoch, in [Z];
    - JavaScript numbers come in two readings, [Binary64] (the doubles
      the runtime computes with) and [Exact] (rationals, free of rounding
      error); the services are written once over both, and what is
      proved of the doubles rests on the IEEE 754 specification of the
      prover's floats;
    - an [async] function returns a [Promise], either fulfilled with a
      value or rejected. *)

From Corelib Require PrimFloat SpecFloat FloatOps FloatAxioms.
From Stdlib Require Import Ascii String QArith Qround Qabs Qpower Lqa.
From Stdlib Require Uint63.
From stdpp Require Import gmap strings list fin_maps sorting pretty.

Local Open Scope Z_scope.
Local Open Scope string_scope.

(** ** Text primitives of the runtime *)

Module Js.

Definition isUpper (c : ascii) : bool :=
  let n := nat_of_ascii c in (65 <=? n)%nat && (n <=? 90)%nat.

Definition isLower (c : ascii) : bool :=
  let n := nat_of_ascii c in (97 <=? n)%nat && (n <=? 122)%nat.

Definition isDigit (c : ascii) : bool :=
  let n := nat_of_ascii c in (48 <=? n)%nat && (n <=? 57)%nat.

(** White space and line terminators: TAB, LF, VT, FF, CR, SP. *)
Definition isSpace (c : ascii) : bool :=
  let n := nat_of_ascii c in ((9 <=? n)%nat && (n <=? 13)%nat) || (n =? 32)%nat.

Definition isLineTerminator (c : ascii) : bool :=
  let n := nat_of_ascii c in (n =? 10)%nat || (n =? 13)%nat.

Definition lowerChar (c : ascii) : ascii :=
  if isUpper c then ascii_of_nat (nat_of_ascii c + 32) else c.

Definition upperChar (c : ascii) : ascii :=
  if isLower c then ascii_of_nat (nat_of_ascii c - 32) else c.

(** [String.prototype.toLowerCase] *)
Fixpoint toLowerCase (s : string) : string :=
  match s with
  | EmptyString => EmptyString
  | String c s' => String (lowerChar c) (toLowerCase s')
  end.

Fixpoint trimStart (s : string) : string :=
  match s with
  | String c s' => if isSpace c then trimStart s' else s
  | EmptyString => EmptyString
  end.

(** Dropping trailing white space: a character is kept when it is not
    white space or when something is kept after it. *)
Fixpoint trimEnd (s : string) : string :=
  match s with
  | EmptyString => EmptyString
  | String c s' =>
      match trimEnd s' with
      | EmptyString => if isSpace c then EmptyString else String c EmptyString
      | rest => String c rest
      end
  end.

(** [String.prototype.trim] *)
Definition trim (s : string) : string := trimEnd (trimStart s).

Fixpoint startsWith (s kw : string) : bool :=
  match kw, s with
  | EmptyString, _ => true
  | String k kw', String c s' => if Ascii.eqb k c then startsWith s' kw' else false
  | String _ _, EmptyString => false
  end.

(** [String.prototype.includes]: [kw] occurs in [s] as a substring. *)
Fixpoint includes (s kw : string) : bool :=
  startsWith s kw ||
  match s with
  | EmptyString => false
  | String _ s' => includes s' kw
  end.

(** JavaScript numbers with the operations the service applies to them:
    integer-valued numbers (counts, sums of story points, the literals 0
    and 100) enter through [ofZ]; [Math.round] yields an integer, which is
    kept as such. *)
Class Number : Type :=
  { num : Type;
    ofZ : Z -> num;
    div : num -> num -> num;
    mul : num -> num -> num;
    Math_round : num -> Z }.

(** An integer as a double, correctly rounded. *)
Definition doubleOfZ (z : Z) : PrimFloat.float :=
  FloatOps.SF2Prim (SpecFloat.binary_normalize FloatOps.prec FloatOps.emax z 0 false).

(** [Math.round] on a double: the nearest integer to its exact value,
    halves towards plus infinity. Every division of the service is
    guarded by a positive count, so infinities and not-a-number do not
    arise; they are sent to 0 here. *)
Definition roundDouble (x : PrimFloat.float) : Z :=
  match FloatOps.Prim2SF x with
  | SpecFloat.S754_finite negative m e =>
      let n := if negative then Z.neg m else Z.pos m in
      if (0 <=? e)%Z then n * 2 ^ e
      else (2 * n + 2 ^ (- e)) / 2 ^ (1 - e)
  | _ => 0
  end.

(** Numbers as the runtime has them: IEEE 754 binary64. *)
Definition Binary64 : Number :=
  {| num := PrimFloat.float;
     ofZ := doubleOfZ;
     div := PrimFloat.div;
     mul := PrimFloat.mul;
     Math_round := roundDouble |}.

(** Numbers without rounding error; [Math.round] is [floor (x + 1/2)]. *)
Definition Exact : Number :=
  {| num := Q;
     ofZ := inject_Z;
     div := Qdiv;
     mul := Qmult;
     Math_round := fun x => Qfloor (x + (1 # 2))%Q |}.

(** The members every plain object inherits from [Object.prototype];
    reading any of them off an object yields a function or an object,
    never [undefined]. *)
Definition objectPrototypeMembers : list string :=
  ["constructor"; "__defineGetter__"; "__defineSetter__"; "hasOwnProperty";
   "__lookupGetter__"; "__lookupSetter__"; "isPrototypeOf";
   "propertyIsEnumerable"; "toString"; "valueOf"; "__proto__"; "toLocaleString"].

Definition isInherited (key : string) : bool :=
  existsb (String.eqb key) objectPrototypeMembers.

(** A promise that has settled. *)
Inductive Promise (A : Type) : Type :=
| Fulfilled (a : A)
| Rejected.
Arguments Fulfilled {A} a.
Arguments Rejected {A}.

(** [await p] followed by the rest of an [async] body: a rejection of [p]
    is thrown at the [await] and, uncaught, rejects the whole body. *)
Definition await {A B} (p : Promise A) (k : A -> Promise B) : Promise B :=
  match p with
  | Fulfilled a => k a
  | Rejected => Rejected
  end.

(** [try { body } catch (error) { handler }] around an [async] body whose
    awaits are all inside the [try]. *)
Definition try_catch {A} (body : Promise A) (handler : Promise A) : Promise A :=
  match body with
  | Fulfilled a => Fulfilled a
  | Rejected => handler
  end.

(** What the caller that awaits a promise receives, if anything. *)
Definition outcome {A} (p : Promise A) : option A :=
  match p with
  | Fulfilled a => Some a
  | Rejected => None
  end.

End Js.

(** ** The values of doubles *)

Module Ieee.
Import SpecFloat FloatOps.

(** The rational [m * 2^e]. *)
Definition value (m e : Z) : Q := (inject_Z m * 2 ^ e)%Q.

(** The distance from 1 to the next double, [2^-52]; bringing a mantissa
    to 53 places changes its value by less than this, relative to the
    value. *)
Definition eps : Q := 1 # 4503599627370496.

(** The places a mantissa loses when it is brought to its canonical
    exponent. *)
Definition excess (m e : Z) : Z := Z.max 0 (fexp prec emax (Zdigits2 m + e) - e).

(** What the location of a truncated mantissa can add to it. *)
Definition slack (l : location) : Z :=
  match l with loc_Exact => 0 | loc_Inexact _ => 1 end.

End Ieee.

(** Sequencing with [await] is written [x ← p; k]. *)
#[global] Instance Promise_bind : MBind Js.Promise := fun _ _ k p => Js.await p k.

(** ** The regular expressions of the rule list

    A backtracking matcher for the fragment of the pattern language the
    six rules are written in, with the priorities of the runtime: an
    alternative tries its left branch first, a quantifier is greedy, and
    [exec] reports the leftmost start position that admits a match. All
    rules carry the [i] flag. *)

Module RegExp.

Inductive CharSet : Type :=
| AnyChar      (* .              : anything but a line terminator *)
| WhiteSpace   (* \s *)
| AlnumSpace.  (* [a-zA-Z0-9\s] *)

Definition inSet (cs : CharSet) (c : ascii) : bool :=
  match cs with
  | AnyChar => negb (Js.isLineTerminator c)
  | WhiteSpace => Js.isSpace c
  | AlnumSpace => Js.isLower c || Js.isUpper c || Js.isDigit c || Js.isSpace c
  end.

Inductive Re : Type :=
| Lit (s : string)          (* literal text *)
| Alt (r1 r2 : Re)          (* r1|r2 *)
| Seq (r1 r2 : Re)          (* r1r2 *)
| Star (cs : CharSet)       (* cs*  *)
| Plus (cs : CharSet)       (* cs+  *)
| Opt (r : Re)              (* r?   *)
| Group (n : nat) (r : Re). (* (r), the n-th capturing group *)

(** The capture array: group number to captured text; an absent key is
    [undefined]. *)
Abbreviation Captures := (gmap nat string).

Definition Cont : Type := string -> Captures -> option Captures.

Fixpoint lit (p s : string) : option string :=
  match p, s with
  | EmptyString, _ => Some s
  | String a p', String c s' =>
      if Ascii.eqb (Js.upperChar a) (Js.upperChar c) then lit p' s' else None
  | String _ _, EmptyString => None
  end.

(** Greedy [cs*]: take one more character when possible, and only when
    the rest cannot match that way stop here. *)
Fixpoint star (cs : CharSet) (s : string) (caps : Captures) (k : Cont)
  : option Captures :=
  match s with
  | String c s' =>
      if inSet cs c then
        match star cs s' caps k with
        | Some r => Some r
        | None => k s caps
        end
      else k s caps
  | EmptyString => k s caps
  end.

Definition consumed (s rest : string) : string :=
  String.substring 0 (String.length s - String.length rest) s.

Fixpoint run (r : Re) (s : string) (caps : Captures) (k : Cont)
  : option Captures :=
  match r with
  | Lit p =>
      match lit p s with
      | Some rest => k rest caps
      | None => None
      end
  | Alt r1 r2 =>
      match run r1 s caps k with
      | Some res => Some res
      | None => run r2 s caps k
      end
  | Seq r1 r2 => run r1 s caps (fun rest caps' => run r2 rest caps' k)
  | Star cs => star cs s caps k
  | Plus cs =>
      match s with
      | String c s' => if inSet cs c then star cs s' caps k else None
      | EmptyString => None
      end
  | Opt r' =>
      match run r' s caps k with
      | Some res => Some res
      | None => k s caps
      end
  | Group n r' =>
      run r' s caps (fun rest caps' => k rest (<[n := consumed s rest]> caps'))
  end.

Definition matchAt (r : Re) (s : string) : option Captures :=
  run r s ∅ (fun _ caps => Some caps).

(** [RegExp.prototype.exec] without the [g] flag. *)
Fixpoint exec (r : Re) (s : string) : option Captures :=
  match matchAt r s with
  | Some caps => Some caps
  | None =>
      match s with
      | String _ s' => exec r s'
      | EmptyString => None
      end
  end.

Fixpoint alts (ws : list string) : Re :=
  match ws with
  | [] => Lit ""
  | [w] => Lit w
  | w :: ws' => Alt (Lit w) (alts ws')
  end.

Fixpoint seq (rs : list Re) : Re :=
  match rs with
  | [] => Lit ""
  | [r] => r
  | r :: rs' => Seq r (seq rs')
  end.

End RegExp.

(** ** The relational store (schema.prisma) *)

Inductive TicketType : Type := FEATURE | BUG | TASK | EPIC.
Inductive TicketStatus : Type := TODO | IN_PROGRESS | IN_REVIEW | TESTING | DONE.

#[global] Instance TicketType_eq_dec : EqDecision TicketType.
Proof. solve_decision. Defined.
#[global] Instance TicketStatus_eq_dec : EqDecision TicketStatus.
Proof. solve_decision. Defined.

Module Team.
Record t : Type := { id : string; name : string }.
End Team.

Module Member.
Record t : Type := { id : string; teamId : string }.
End Member.

Module Sprint.
Record t : Type := { id : string; endDate : Z; teamId : string }.
End Sprint.

Module Ticket.
Record t : Type :=
  { id : string;
    type : TicketType;
    status : TicketStatus;
    storyPoints : option Z;
    createdAt : Z;
    resolvedAt : option Z;
    teamId : string;
    sprintId : option string }.
End Ticket.

Record Store : Type :=
  { teams : list Team.t;
    members : list Member.t;
    sprints : list Sprint.t;
    tickets : list Ticket.t }.

(** ** The Prisma client, as the service uses it *)

Inductive PrismaOp : Type :=
| team_findFirst | team_findMany | sprint_findMany | ticket_count | ticket_findMany.

(** What a request runs against: the rows, which client calls currently
    fail (store unreachable and the like), and the clock. *)
Record World : Type :=
  { db : Store;
    failing : PrismaOp -> bool;
    now : Z }.

Module Prisma.
Import Js.

Definition call {A} (w : World) (op : PrismaOp) (rows : A) : Promise A :=
  if failing w op then Rejected else Fulfilled rows.

(** [orderBy: { endDate: 'desc' }] *)
Definition endsNoEarlier (a b : Sprint.t) : Prop := Sprint.endDate b <= Sprint.endDate a.

#[global] Instance endsNoEarlier_dec : RelDecision endsNoEarlier.
Proof. intros a b. unfold endsNoEarlier. apply _. Defined.

#[global] Instance endsNoEarlier_total : Total endsNoEarlier.
Proof. intros a b. unfold endsNoEarlier. lia. Defined.

#[global] Instance endsNoEarlier_trans : Transitive endsNoEarlier.
Proof. intros a b c. unfold endsNoEarlier. lia. Defined.

(** A sprint with [include: { tickets: { where: { status: 'DONE' } } }]. *)
Record SprintWithTickets : Type :=
  { sprint : Sprint.t; sprintTickets : list Ticket.t }.

Definition inSprint (s : Sprint.t) (t : Ticket.t) : bool :=
  match Ticket.sprintId t with
  | Some sid => String.eqb sid (Sprint.id s)
  | None => false
  end.

Definition isDone (t : Ticket.t) : bool := bool_decide (Ticket.status t = DONE).
Definition isBug (t : Ticket.t) : bool := bool_decide (Ticket.type t = BUG).

Definition withDoneTickets (w : World) (s : Sprint.t) : SprintWithTickets :=
  {| sprint := s;
     sprintTickets := List.filter (fun t => inSprint s t && isDone t) (tickets (db w)) |}.

(** [orderBy: { endDate: 'desc' }, take: 5] over the given sprints.
    The store is free to return sprints that end at the same instant in
    any order, and in another order for another query; here they come in
    the order a sort of the rows leaves them in, which is one of the
    orders the store may choose. With such sprints the five rows are one
    admissible answer among several ([Terms.latest] describes all of
    them); without, they are the only one. *)
Definition recentSprints (w : World) (ss : list Sprint.t) : list SprintWithTickets :=
  withDoneTickets w <$> take 5 (merge_sort endsNoEarlier ss).

(** [where: { name: { equals: teamName, mode: 'insensitive' } }]:
    equality up to letter case. *)
Definition sameName (teamName : string) (t : Team.t) : bool :=
  String.eqb (toLowerCase (Team.name t)) (toLowerCase teamName).

Definition ofTeam (t : Team.t) (s : Sprint.t) : bool :=
  String.eqb (Sprint.teamId s) (Team.id t).

Record TeamWithSprints : Type :=
  { team : Team.t; teamSprints : list SprintWithTickets }.

(** [prisma.team.findFirst] with the five latest sprints included. *)
Definition findTeamWithSprints (w : World) (teamName : string)
  : Promise (option TeamWithSprints) :=
  call w team_findFirst
    ((fun t => {| team := t;
                  teamSprints := recentSprints w (List.filter (ofTeam t) (sprints (db w))) |})
       <$> List.find (sameName teamName) (teams (db w))).

(** [prisma.team.findFirst] with nothing included. *)
Definition findTeam (w : World) (teamName : string) : Promise (option Team.t) :=
  call w team_findFirst (List.find (sameName teamName) (teams (db w))).

(** [prisma.sprint.findMany], the five latest sprints of all teams. *)
Definition findRecentSprints (w : World) : Promise (list SprintWithTickets) :=
  call w sprint_findMany (recentSprints w (sprints (db w))).

(** The [where] clause of the two counts of the bug handler. *)
Definition countWhere (teamId : option string) (type : option TicketType)
    (createdAtGte : Z) (t : Ticket.t) : bool :=
  match teamId with Some i => String.eqb (Ticket.teamId t) i | None => true end
  && match type with Some ty => bool_decide (Ticket.type t = ty) | None => true end
  && (createdAtGte <=? Ticket.createdAt t)%Z.

(** [prisma.ticket.count] *)
Definition countTickets (w : World) (teamId : option string)
    (type : option TicketType) (createdAtGte : Z) : Promise Z :=
  call w ticket_count
    (Z.of_nat (length (List.filter (countWhere teamId type createdAtGte) (tickets (db w))))).

(** A row of [select: { createdAt, resolvedAt, type }] whose [resolvedAt]
    is not [null]. *)
Record ResolvedTicket : Type :=
  { createdAt : Z; resolvedAt : Z; type : TicketType }.

Definition resolvedRow (t : Ticket.t) : option ResolvedTicket :=
  if isDone t then
    (fun r => {| createdAt := Ticket.createdAt t; resolvedAt := r; type := Ticket.type t |})
      <$> Ticket.resolvedAt t
  else None.

(** [prisma.ticket.findMany] with
    [where: { status: 'DONE', resolvedAt: { not: null } }]. *)
Definition findResolvedTickets (w : World) : Promise (list ResolvedTicket) :=
  call w ticket_findMany (omap resolvedRow (tickets (db w))).

(** A ticket with [include: { team: true }]: the owning team, or [null]
    when the row has none. *)
Record TicketWithTeam : Type :=
  { ticket : Ticket.t; ticketTeam : option Team.t }.

Definition withTeam (w : World) (t : Ticket.t) : TicketWithTeam :=
  {| ticket := t;
     ticketTeam := List.find (fun tm => String.eqb (Team.id tm) (Ticket.teamId t))
                     (teams (db w)) |}.

(** [prisma.ticket.findMany] with [where: { status: 'DONE' }] and the
    team included. *)
Definition findDoneTickets (w : World) : Promise (list TicketWithTeam) :=
  call w ticket_findMany (withTeam w <$> List.filter isDone (tickets (db w))).

Record TeamWithTickets : Type :=
  { theTeam : Team.t; teamTickets : list Ticket.t; teamMembers : list Member.t }.

(** [prisma.team.findMany] with tickets and members included. *)
Definition findTeams (w : World) : Promise (list TeamWithTickets) :=
  call w team_findMany
    ((fun t =>
        {| theTeam := t;
           teamTickets :=
             List.filter (fun k => String.eqb (Ticket.teamId k) (Team.id t)) (tickets (db w));
           teamMembers :=
             List.filter (fun m => String.eqb (Member.teamId m) (Team.id t)) (members (db w)) |})
       <$> teams (db w)).

(** [subDays(date, n)] of date-fns, on a clock without daylight saving. *)
Definition subDays (date : Z) (n : Z) : Z := date - n * 86400000.

End Prisma.

(** ** Result payloads and the envelope *)

Module Velocity.
Record t {N : Js.Number} : Type :=
  { team : option string;
    averageVelocity : Js.num;
    sprintsAnalyzed : Z;
    timePeriod : string }.
End Velocity.

Module BugCount.
Record t {N : Js.Number} : Type :=
  { team : option string;
    totalTickets : Z;
    bugTickets : Z;
    bugRate : Js.num;
    timePeriod : string }.
End BugCount.

Module ResolutionTime.
Record t {N : Js.Number} : Type :=
  { averageResolutionTime : Js.num;
    ticketsAnalyzed : Z;
    unit : string }.
End ResolutionTime.

Module TeamStats.
Record t : Type := { completed : Z; storyPoints : Z }.
End TeamStats.

Module Completed.
(** [byTeam] holds the own properties of the accumulator object. *)
Record t : Type :=
  { totalCompleted : Z;
    byTeam : gmap string TeamStats.t }.
End Completed.

Module Performance.
Record t : Type :=
  { teamName : string;
    memberCount : Z;
    totalTickets : Z;
    completedTickets : Z;
    completionRate : Z;
    bugCount : Z;
    bugRate : Z }.
End Performance.

Inductive Payload {N : Js.Number} : Type :=
| VelocityResult (r : Velocity.t)
| BugCountResult (r : BugCount.t)
| ResolutionTimeResult (r : ResolutionTime.t)
| CompletedResult (r : Completed.t)
| PerformanceResult (r : list Performance.t).

(** The envelope [TextQueryResult]; a [null] result is [None]. *)
Module TextQueryResult.
Record t {N : Js.Number} : Type :=
  { query : string;
    result : option Payload;
    interpretation : string }.
End TextQueryResult.

(** ** The service *)

Module TextQueryService.
Import Js Prisma.

Section Service.
Context {N : Number}.

Definition Handler : Type := World -> string -> string -> Promise TextQueryResult.t.

(** [x / y] on numbers that are integers. *)
Definition ratio (x y : Z) : num := div (ofZ x) (ofZ y).

(** [Math.round(x * 100) / 100] *)
Definition round2 (x : num) : num := div (ofZ (Math_round (mul x (ofZ 100)))) (ofZ 100).

(** [ticket.storyPoints || 0] *)
Definition storyPointsOr0 (ticket : Ticket.t) : Z := default 0 (Ticket.storyPoints ticket).

(** The one-character text holding a double quote. *)
Definition dquote : string := String (ascii_of_nat 34) EmptyString.

Definition teamNotFound (query teamName : string) : TextQueryResult.t :=
  {| TextQueryResult.query := query;
     TextQueryResult.result := None;
     TextQueryResult.interpretation := "Team " ++ dquote ++ teamName ++ dquote ++ " not found. Try one of our team names." |}.

(** The name printed for [team?.name]. *)
Definition nameOrUndefined (team : option Team.t) : string :=
  match team with Some t => Team.name t | None => "undefined" end.

Definition scope (teamName : string) (team : option Team.t) : string :=
  if String.eqb teamName "all" then "across all teams" else "for " ++ nameOrUndefined team.

Definition teamLabel (teamName : string) (team : option Team.t) : option string :=
  if String.eqb teamName "all" then Some "All Teams" else Team.name <$> team.

Definition sprintVelocity (sprint : SprintWithTickets) : Z :=
  fold_left (fun sprintSum ticket => sprintSum + storyPointsOr0 ticket) (sprintTickets sprint) 0.

Definition totalVelocity (sprints : list SprintWithTickets) : Z :=
  fold_left (fun sum sprint => sum + sprintVelocity sprint) sprints 0.

Definition avgVelocity (sprints : list SprintWithTickets) : num :=
  if (0 <? length sprints)%nat
  then ratio (totalVelocity sprints) (Z.of_nat (length sprints))
  else ofZ 0.

Definition velocityEnvelope (query teamName : string) (team : option Team.t)
    (sprints : list SprintWithTickets) : TextQueryResult.t :=
  {| TextQueryResult.query := query;
     TextQueryResult.result := Some (VelocityResult
       {| Velocity.team := teamLabel teamName team;
          Velocity.averageVelocity := round2 (avgVelocity sprints);
          Velocity.sprintsAnalyzed := Z.of_nat (length sprints);
          Velocity.timePeriod := "last 5 sprints" |});
     TextQueryResult.interpretation :=
       "Average velocity " ++ scope teamName team ++ " is " ++
       pretty (Math_round (avgVelocity sprints)) ++ " story points per sprint (last 5 sprints)." |}.

Definition handleVelocityQuery : Handler := fun w query teamName =>
  try_catch
    (team ← (if String.eqb teamName "all" then Fulfilled None
             else findTeamWithSprints w teamName);
     match team with
     | None =>
         if negb (String.eqb teamName "all") then Fulfilled (teamNotFound query teamName)
         else
           sprints ← findRecentSprints w;
           Fulfilled (velocityEnvelope query teamName None sprints)
     | Some tm =>
         Fulfilled (velocityEnvelope query teamName (Some (Prisma.team tm)) (teamSprints tm))
     end)
    (Fulfilled
       {| TextQueryResult.query := query;
          TextQueryResult.result := None;
          TextQueryResult.interpretation := "Failed to retrieve velocity data. Please try again later." |}).

Definition handleQuarterlyTrendsQuery (w : World) (query : string) : Promise TextQueryResult.t :=
  try_catch
    (res ← handleVelocityQuery w query "all";
     Fulfilled
       {| TextQueryResult.query := TextQueryResult.query res;
          TextQueryResult.result := TextQueryResult.result res;
          TextQueryResult.interpretation :=
            "Showing Q1 velocity trends across all teams. " ++
            "Try being more specific like 'Q2 bugs for Frontend team'" |})
    (Fulfilled
       {| TextQueryResult.query := query;
          TextQueryResult.result := None;
          TextQueryResult.interpretation := "Couldn't retrieve quarterly trends. Please try again." |}).

(** [Promise.all] of two promises. *)
Definition Promise_all2 {A B} (p : Promise A) (q : Promise B) : Promise (A * B) :=
  match p, q with
  | Fulfilled a, Fulfilled b => Fulfilled (a, b)
  | _, _ => Rejected
  end.

Definition bugRateOf (totalTickets bugTickets : Z) : num :=
  if (0 <? totalTickets)%Z then mul (ratio bugTickets totalTickets) (ofZ 100) else ofZ 0.

Definition bugCountEnvelope (query teamName : string) (team : option Team.t)
    (totalTickets bugTickets : Z) : TextQueryResult.t :=
  {| TextQueryResult.query := query;
     TextQueryResult.result := Some (BugCountResult
       {| BugCount.team := teamLabel teamName team;
          BugCount.totalTickets := totalTickets;
          BugCount.bugTickets := bugTickets;
          BugCount.bugRate := round2 (bugRateOf totalTickets bugTickets);
          BugCount.timePeriod := "last quarter" |});
     TextQueryResult.interpretation :=
       "Found " ++ pretty bugTickets ++ " bugs out of " ++ pretty totalTickets ++
       " total tickets " ++ scope teamName team ++ " in the last quarter " ++
       "(" ++ pretty (Math_round (bugRateOf totalTickets bugTickets)) ++ "% bug rate)." |}.

Definition handleBugCountQuery : Handler := fun w query teamName =>
  try_catch
    (team ← (if String.eqb teamName "all" then Fulfilled None else findTeam w teamName);
     match team with
     | None =>
         if negb (String.eqb teamName "all") then Fulfilled (teamNotFound query teamName)
         else
           counts ← Promise_all2
             (countTickets w None None (subDays (now w) 90))
             (countTickets w None (Some BUG) (subDays (now w) 90));
           Fulfilled (bugCountEnvelope query teamName None counts.1 counts.2)
     | Some tm =>
         counts ← Promise_all2
           (countTickets w (Some (Team.id tm)) None (subDays (now w) 90))
           (countTickets w (Some (Team.id tm)) (Some BUG) (subDays (now w) 90));
         Fulfilled (bugCountEnvelope query teamName (Some tm) counts.1 counts.2)
     end)
    (Fulfilled
       {| TextQueryResult.query := query;
          TextQueryResult.result := None;
          TextQueryResult.interpretation := "Failed to retrieve bug statistics. Please try again later." |}).

Definition msPerDay : Z := 1000 * 60 * 60 * 24.

(** Resolution time of one ticket, in whole days. *)
Definition resolutionDays (ticket : ResolvedTicket) : Z :=
  Math_round (ratio (resolvedAt ticket - createdAt ticket) msPerDay).

Definition avgOf (times : list Z) : num :=
  ratio (fold_left (fun sum time => sum + time) times 0) (Z.of_nat (length times)).

(** The team argument is accepted and never read. *)
Definition handleResolutionTimeQuery : Handler := fun w query _match =>
  resolvedTickets ← findResolvedTickets w;
  if (length resolvedTickets =? 0)%nat then
    Fulfilled
      {| TextQueryResult.query := query;
         TextQueryResult.result := None;
         TextQueryResult.interpretation :=
           "No resolved tickets found to calculate resolution time." |}
  else
    let resolutionTimes := resolutionDays <$> resolvedTickets in
    let avgResolutionTime := avgOf resolutionTimes in
    Fulfilled
      {| TextQueryResult.query := query;
         TextQueryResult.result := Some (ResolutionTimeResult
           {| ResolutionTime.averageResolutionTime := round2 avgResolutionTime;
              ResolutionTime.ticketsAnalyzed := Z.of_nat (length resolvedTickets);
              ResolutionTime.unit := "days" |});
         TextQueryResult.interpretation :=
           "Average resolution time is " ++ pretty (Math_round avgResolutionTime) ++
           " days based on " ++ pretty (Z.of_nat (length resolvedTickets)) ++
           " resolved tickets." |}.

(** [acc[teamName].completed++; acc[teamName].storyPoints += ...] *)
Definition bump (stats : TeamStats.t) (ticket : Ticket.t) : TeamStats.t :=
  {| TeamStats.completed := TeamStats.completed stats + 1;
     TeamStats.storyPoints := TeamStats.storyPoints stats + storyPointsOr0 ticket |}.

(** One step of the reduction over the completed tickets. [acc] starts
    as the plain object [{}]: when [teamName] names a member inherited
    from [Object.prototype], [acc[teamName]] is that member, which is
    truthy, so no entry is created and the two updates land on the
    inherited member instead of on [acc]. *)
Definition countCompleted (acc : gmap string TeamStats.t) (teamName : string)
    (ticket : Ticket.t) : gmap string TeamStats.t :=
  match acc !! teamName with
  | Some stats => <[teamName := bump stats ticket]> acc
  | None =>
      if isInherited teamName then acc
      else <[teamName := bump {| TeamStats.completed := 0; TeamStats.storyPoints := 0 |} ticket]> acc
  end.

(** The reducer; [ticket.team.name] throws when the team is [null]. *)
Definition reduceCompleted (acc : Promise (gmap string TeamStats.t))
    (row : TicketWithTeam) : Promise (gmap string TeamStats.t) :=
  acc ← acc;
  match ticketTeam row with
  | Some tm => Fulfilled (countCompleted acc (Team.name tm) (ticket row))
  | None => Rejected
  end.

(** The team argument is accepted and never read. *)
Definition handleCompletedTicketsQuery : Handler := fun w query _match =>
  completedTickets ← findDoneTickets w;
  teamStats ← fold_left reduceCompleted completedTickets (Fulfilled ∅);
  Fulfilled
    {| TextQueryResult.query := query;
       TextQueryResult.result := Some (CompletedResult
         {| Completed.totalCompleted := Z.of_nat (length completedTickets);
            Completed.byTeam := teamStats |});
       TextQueryResult.interpretation :=
         "Found " ++ pretty (Z.of_nat (length completedTickets)) ++
         " completed tickets across " ++ pretty (Z.of_nat (size teamStats)) ++ " team(s)." |}.

(** [n > 0 ? Math.round((k / n) * 100) : 0] *)
Definition percentOf (k n : nat) : Z :=
  if (0 <? n)%nat then Math_round (mul (ratio (Z.of_nat k) (Z.of_nat n)) (ofZ 100)) else 0.

Definition performanceOf (tm : TeamWithTickets) : Performance.t :=
  let tickets := teamTickets tm in
  let completedTickets := List.filter isDone tickets in
  let bugTickets := List.filter isBug tickets in
  {| Performance.teamName := Team.name (theTeam tm);
     Performance.memberCount := Z.of_nat (length (teamMembers tm));
     Performance.totalTickets := Z.of_nat (length tickets);
     Performance.completedTickets := Z.of_nat (length completedTickets);
     Performance.completionRate := percentOf (length completedTickets) (length tickets);
     Performance.bugCount := Z.of_nat (length bugTickets);
     Performance.bugRate := percentOf (length bugTickets) (length tickets) |}.

(** The team argument is accepted and never read. *)
Definition handleTeamPerformanceQuery : Handler := fun w query _match =>
  teams ← findTeams w;
  let performance := performanceOf <$> teams in
  Fulfilled
    {| TextQueryResult.query := query;
       TextQueryResult.result := Some (PerformanceResult performance);
       TextQueryResult.interpretation :=
         "Performance overview for " ++ pretty (Z.of_nat (length teams)) ++
         " team(s) showing completion rates, bug rates, and team sizes." |}.

(** *** The rule list *)

Import RegExp.

Record Rule : Type := { pattern : Re; handler : Handler }.

(** The tail shared by the first four patterns: any run of characters,
    an optional group [for] or [of], optional white space, an optional
    uncaptured [team] with white space, and an optional group of letters,
    digits and white space. The two groups are numbered [g] and [g + 1]. *)
Definition teamClause (g : nat) : list Re :=
  [Star AnyChar;
   Opt (Group g (alts ["for"; "of"]));
   Star WhiteSpace;
   Opt (Seq (Lit "team") (Star WhiteSpace));
   Opt (Group (S g) (Plus AlnumSpace))].

Definition velocityPattern : Re :=
  seq ([Group 1 (alts ["show"; "display"; "get"; "what is"; "what are"; "view"]);
        Star AnyChar;
        Group 2 (alts ["velocity"; "story points"; "sprint"])] ++ teamClause 3)%list.

Definition bugCountPattern : Re :=
  seq ([Group 1 (alts ["how many"; "count"; "number of"; "total"]);
        Star AnyChar;
        Group 2 (alts ["bugs"; "defects"; "issues"])] ++ teamClause 3)%list.

(** The third pattern has one group more, so its team name is group 5
    and its group 4 is [(for|of)]. *)
Definition resolutionTimePattern : Re :=
  seq ([Group 1 (alts ["average"; "mean"; "median"]);
        Star AnyChar;
        Group 2 (alts ["resolution"; "fix"; "close"]);
        Star AnyChar;
        Group 3 (alts ["time"; "duration"])] ++ teamClause 4)%list.

Definition completedTicketsPattern : Re :=
  seq ([Group 1 (alts ["completed"; "done"; "finished"]);
        Star AnyChar;
        Group 2 (alts ["tickets"; "tasks"; "items"])] ++ teamClause 3)%list.

Definition teamPerformancePattern : Re :=
  seq [Group 1 (alts ["team"; "squad"; "group"]);
       Star AnyChar;
       Group 2 (alts ["performance"; "metrics"; "stats"; "statistics"])].

Definition quarterlyTrendsPattern : Re :=
  Group 1 (alts ["q1"; "q2"; "q3"; "q4"; "quarter"; "trend"; "period"]).

Definition queryPatterns : list Rule :=
  [ {| pattern := velocityPattern; handler := handleVelocityQuery |};
    {| pattern := bugCountPattern; handler := handleBugCountQuery |};
    {| pattern := resolutionTimePattern; handler := handleResolutionTimeQuery |};
    {| pattern := completedTicketsPattern; handler := handleCompletedTicketsQuery |};
    {| pattern := teamPerformancePattern; handler := handleTeamPerformanceQuery |};
    {| pattern := quarterlyTrendsPattern;
       handler := fun w query _ => handleQuarterlyTrendsQuery w query |} ].

(** [match[4]?.trim() || 'all'] *)
Definition teamNameOf (m : Captures) : string :=
  match trim <$> m !! 4%nat with
  | Some EmptyString | None => "all"
  | Some name => name
  end.

(** *** Keyword fallback *)

Inductive Category : Type := velocity | bugs | resolution | trends | performance.

#[global] Instance Category_eq_dec : EqDecision Category.
Proof. solve_decision. Defined.

Definition keywordCategories : list (Category * list string) :=
  [ (velocity, ["velocity"; "story point"; "sprint"; "throughput"; "capacity"]);
    (bugs, ["bug"; "defect"; "error"; "issue"; "failure"]);
    (resolution, ["resolution"; "fix"; "close"; "time"; "duration"]);
    (trends, ["trend"; "q1"; "q2"; "q3"; "q4"; "quarter"; "period"]);
    (performance, ["performance"; "metric"; "statistic"; "kpi"]) ].

Record KeywordMatch : Type := { category : Category; count : nat }.

(** [keywords.filter(kw => queryLower.includes(kw)).length] *)
Definition score (queryLower : string) (keywords : list string) : nat :=
  length (List.filter (includes queryLower) keywords).

Definition keywordMatches (queryLower : string) : list KeywordMatch :=
  List.filter (fun m => (0 <? count m)%nat)
    ((fun entry => {| category := entry.1; count := score queryLower entry.2 |})
       <$> keywordCategories).

(** [(prev, current) => (prev.count > current.count) ? prev : current] *)
Definition pick (prev current : KeywordMatch) : KeywordMatch :=
  if (count current <? count prev)%nat then prev else current.

(** [Array.prototype.reduce] without an initial value, on a non-empty
    array. *)
Definition reduce {A} (f : A -> A -> A) (l : list A) : option A :=
  match l with
  | [] => None
  | x :: rest => Some (fold_left f rest x)
  end.

Definition bestMatch (queryLower : string) : option KeywordMatch :=
  reduce pick (keywordMatches queryLower).

Definition notUnderstood (query : string) : TextQueryResult.t :=
  {| TextQueryResult.query := query;
     TextQueryResult.result := None;
     TextQueryResult.interpretation :=
       "I didn't understand your query. Try questions like: " ++
       "'Show velocity for Frontend team', " ++
       "'How many bugs in Q2?', or " ++
       "'Average resolution time last month'" |}.

(** The handler selected by the [switch]. The team-performance handler
    is called without a second argument, which it never reads. *)
Definition categoryHandler (c : Category) (w : World) (query : string)
  : Promise TextQueryResult.t :=
  match c with
  | velocity => handleVelocityQuery w query "all"
  | bugs => handleBugCountQuery w query "all"
  | resolution => handleResolutionTimeQuery w query "all"
  | trends => handleQuarterlyTrendsQuery w query
  | performance => handleTeamPerformanceQuery w query "undefined"
  end.

(** The method is not [async]: what it returns in the dispatching
    branches is the handler's promise itself. *)
Definition analyzeQueryByKeywords (w : World) (query : string) : Promise TextQueryResult.t :=
  let queryLower := toLowerCase query in
  match bestMatch queryLower with
  | Some best => categoryHandler (category best) w query
  | None => Fulfilled (notUnderstood query)
  end.

(** *** The interpreter *)

Definition processingError (query : string) : TextQueryResult.t :=
  {| TextQueryResult.query := query;
     TextQueryResult.result := None;
     TextQueryResult.interpretation :=
       "I encountered an error processing your request. " ++
       "Please try again or rephrase your question." |}.

(** The [for ... of] loop over the rules: the handler call of the first
    rule whose pattern matches, if any. *)
Fixpoint firstMatch (rules : list Rule) (w : World) (query normalizedQuery : string)
  : option (Promise TextQueryResult.t) :=
  match rules with
  | [] => None
  | rule :: rest =>
      match exec (pattern rule) normalizedQuery with
      | Some m => Some (handler rule w query (teamNameOf m))
      | None => firstMatch rest w query normalizedQuery
      end
  end.

(** [processTextQuery] over a given rule list and fallback. The handler
    of a matching rule is awaited inside the [try], so its rejection
    reaches the [catch]; the fallback's promise is returned from inside
    the [try] without [await], so it settles the result as it is. *)
Definition processTextQueryWith (rules : list Rule)
    (fallback : World -> string -> Promise TextQueryResult.t)
    (w : World) (query : string) : Promise TextQueryResult.t :=
  let normalizedQuery := trim (toLowerCase query) in
  match firstMatch rules w query normalizedQuery with
  | Some called => try_catch called (Fulfilled (processingError query))
  | None => fallback w query
  end.

Definition processTextQuery : World -> string -> Promise TextQueryResult.t :=
  processTextQueryWith queryPatterns analyzeQueryByKeywords.

End Service.

End TextQueryService.

(** ** The HTTP route of the interpreter (routes/metrics.ts) *)

Module Route.
Import Js TextQueryService.

(** The [query] member of the request body as [textQuerySchema] meets
    it: missing, something that is not a string, or a text. *)
Inductive Field : Type :=
| Absent
| NotText
| Text (s : string).

(** [textQuerySchema.parse]: [query] is a string of at least one
    character; anything else throws a validation error. *)
Definition textQuerySchema (body : Field) : option string :=
  match body with
  | Text s => if (1 <=? String.length s)%nat then Some s else None
  | _ => None
  end.

(** The response: status 200 with the envelope, status 400 for a
    validation error (its details are left out), status 500 with the fixed
    error text. *)
Inductive Response {N : Number} : Type :=
| Ok (data : TextQueryResult.t)
| ValidationError
| ServerError (error : string).

(** [router.post('/text-query', ...)] *)
Definition postTextQuery {N : Number} (w : World) (body : Field) : Response :=
  match textQuerySchema body with
  | None => ValidationError
  | Some query =>
      match processTextQuery w query with
      | Fulfilled result => Ok result
      | Rejected => ServerError "Failed to process text query"
      end
  end.

End Route.

(** ** The client of the interpreter (apiClient.ts) *)

Module ApiClient.
Import Js TextQueryService.

(** The three generators of mock series; the values they draw are random
    and are not modelled. *)
Inductive Generator : Type :=
| generateMockVelocityData | generateMockBugRateData | generateMockResolutionData.

(** The [result] of a client response: the payload received from the
    backend, a series made up by a generator for a date range, or the
    empty array. *)
Inductive Result {N : Number} : Type :=
| Received (payload : Payload)
| Mock (generator : Generator) (dateRange : string)
| NoRows.

Module TextQueryResponse.
Record t {N : Js.Number} : Type :=
  { query : string;
    result : Result;
    interpretation : string }.
End TextQueryResponse.

Section Client.
Context {N : Number}.

(** The keyword table of [processQueryLocally]. *)
Definition keywordMatches : list (Category * list string) :=
  [ (velocity, ["velocity"; "story point"; "sprint"; "throughput"; "capacity"; "delivery"]);
    (bugs, ["bug"; "defect"; "error"; "issue"; "quality"; "failure"]);
    (resolution, ["resolution"; "fix"; "close"; "time"; "duration"; "cycle time"]);
    (trends, ["trend"; "q1"; "q2"; "q3"; "q4"; "quarter"; "month"; "week"]);
    (performance, ["performance"; "efficiency"; "productivity"; "metrics"]) ].

(** One round of the [forEach]: the pair is [(bestMatch, maxMatches)],
    replaced only by a strictly larger number of matches. *)
Definition tally (queryLower : string) (best : option Category * nat)
    (entry : Category * list string) : option Category * nat :=
  let matches := score queryLower entry.2 in
  if (best.2 <? matches)%nat then (Some entry.1, matches) else best.

Definition bestMatch (queryLower : string) : option Category :=
  (fold_left (tally queryLower) keywordMatches (None, 0%nat)).1.

(** The keywords the table lists for a category, and how many of them
    occur in the lower-cased query. *)
Definition keywordsOf (c : Category) : list string :=
  default [] (snd <$> List.find (fun entry => bool_decide (entry.1 = c)) keywordMatches).

Definition scoreOf (c : Category) (query : string) : nat :=
  score (toLowerCase query) (keywordsOf c).

Definition guidance : string :=
  "Try asking about " ++ dquote ++ "team velocity trends" ++ dquote ++ ", " ++
  dquote ++ "bug rates this quarter" ++ dquote ++ ", " ++
  dquote ++ "resolution times" ++ dquote ++ ", or " ++
  dquote ++ "sprint performance" ++ dquote.

Definition processQueryLocally (query : string) : TextQueryResponse.t :=
  let queryLower := toLowerCase query in
  match bestMatch queryLower with
  | Some velocity =>
      {| TextQueryResponse.query := query;
         TextQueryResponse.result := Mock generateMockVelocityData "3months";
         TextQueryResponse.interpretation := "Showing team velocity trends based on your query" |}
  | Some bugs =>
      {| TextQueryResponse.query := query;
         TextQueryResponse.result := Mock generateMockBugRateData "3months";
         TextQueryResponse.interpretation := "Showing bug rate analysis based on your query" |}
  | Some resolution =>
      {| TextQueryResponse.query := query;
         TextQueryResponse.result := Mock generateMockResolutionData "3months";
         TextQueryResponse.interpretation := "Showing resolution time metrics based on your query" |}
  | Some trends =>
      {| TextQueryResponse.query := query;
         TextQueryResponse.result := Mock generateMockVelocityData "3months";
         TextQueryResponse.interpretation := "Showing productivity trends based on your query" |}
  | Some performance =>
      {| TextQueryResponse.query := query;
         TextQueryResponse.result := Mock generateMockVelocityData "3months";
         TextQueryResponse.interpretation := "Showing team performance metrics based on your query" |}
  | None =>
      {| TextQueryResponse.query := query;
         TextQueryResponse.result := NoRows;
         TextQueryResponse.interpretation := guidance |}
  end.

(** [this.post('/metrics/text-query', { query })]: the request reaches
    the route or fails on the way; a response that is not [ok] (status 400
    or 500) is thrown as an error; otherwise the [data] member of the body
    is what the route sent. *)
Definition post (online : bool) (w : World) (query : string) : Promise TextQueryResult.t :=
  if online then
    match Route.postTextQuery w (Route.Text query) with
    | Route.Ok data => Fulfilled data
    | _ => Rejected
    end
  else Rejected.

(** [result && result.length > 0] on what the backend sent: of the
    payloads only the team-performance table is an array and has a
    [length]; on the others, which are plain objects, [length] is
    [undefined] and the comparison is false. *)
Definition hasRows (result : option Payload) : bool :=
  match result with
  | Some (PerformanceResult rows) => (0 <? length rows)%nat
  | _ => false
  end.

(** The envelope of the backend, returned as it is. *)
Definition passedOn (data : TextQueryResult.t) (payload : Payload) : TextQueryResponse.t :=
  {| TextQueryResponse.query := TextQueryResult.query data;
     TextQueryResponse.result := Received payload;
     TextQueryResponse.interpretation := TextQueryResult.interpretation data |}.

(** [apiClient.processTextQuery] *)
Definition processTextQuery (online : bool) (w : World) (query : string)
  : TextQueryResponse.t :=
  match post online w query with
  | Fulfilled data =>
      match TextQueryResult.result data with
      | Some payload =>
          if hasRows (Some payload) then passedOn data payload
          else processQueryLocally query
      | None => processQueryLocally query
      end
  | Rejected => processQueryLocally query
  end.

End Client.

End ApiClient.

(** ** The dashboard's period selector (dashboard.tsx) *)

Module Dashboard.

Definition dateRangeToDays (range : string) : Z :=
  if String.eqb range "3months" then 90
  else if String.eqb range "6months" then 180
  else if String.eqb range "12months" then 365
  else 30.

Definition daysToDateRange (days : Z) : string :=
  if (days =? 90)%Z then "3months"
  else if (days =? 180)%Z then "6months"
  else if (days =? 365)%Z then "12months"
  else "3months".

End Dashboard.

(** ** The metrics service (metrics.service.ts) *)

Module VelocityMetrics.
Record t {N : Js.Number} : Type :=
  { team : string;
    sprintId : option string;
    totalStoryPoints : Z;
    completedStoryPoints : Z;
    velocity : Z;
    averageVelocity : Js.num }.
End VelocityMetrics.

Module BugRateMetrics.
Record t {N : Js.Number} : Type :=
  { team : string;
    period : string;
    totalTickets : Z;
    bugTickets : Z;
    bugRate : Js.num }.
End BugRateMetrics.

Module ResolutionTimeMetrics.
Record t {N : Js.Number} : Type :=
  { team : string;
    period : string;
    averageResolutionTime : Js.num;
    medianResolutionTime : Js.num;
    minResolutionTime : Z;
    maxResolutionTime : Z }.
End ResolutionTimeMetrics.

(** A row of [select: { createdAt: true, resolvedAt: true }] whose
    [resolvedAt] is not [null]. *)
Module Resolved.
Record t : Type := { createdAt : Z; resolvedAt : Z }.
End Resolved.

Module MetricsService.
Import Js Prisma TextQueryService.

(** What the service runs against: the world of the other service, and
    whether its own client call, [prisma.team.findUnique], currently
    fails. *)
Record Client : Type :=
  { world : World;
    team_findUnique_failing : bool }.

(** [prisma.team.findUnique({ where: { name }, select: { id } })]
    followed by [team?.id]: the name is compared as it is. *)
Definition findTeamId (c : Client) (teamName : string) : Promise (option string) :=
  if team_findUnique_failing c then Rejected
  else Fulfilled (Team.id <$> List.find (fun t => String.eqb (Team.name t) teamName)
                                 (teams (db (world c)))).

Definition getTeamId (c : Client) (teamName : string) : Promise (option string) :=
  if String.eqb teamName "all" then Fulfilled None
  else findTeamId c teamName.

(** [...(value && { key: value })]: the condition is there when the
    value is a non-empty string. *)
Definition whenSet (value : option string) : option string :=
  match value with
  | Some EmptyString => None
  | _ => value
  end.

Definition ofTeamId (teamId : option string) (owner : string) : bool :=
  match whenSet teamId with
  | Some i => String.eqb owner i
  | None => true
  end.

(** [storyPoints: { not: null }] *)
Definition hasStoryPoints (t : Ticket.t) : bool :=
  match Ticket.storyPoints t with
  | Some _ => true
  | None => false
  end.

(** The [whereClause] of the velocity metrics. *)
Definition velocityWhere (teamId sprintId : option string) (t : Ticket.t) : bool :=
  ofTeamId teamId (Ticket.teamId t)
  && match whenSet sprintId with
     | Some s => bool_decide (Ticket.sprintId t = Some s)
     | None => true
     end
  && isDone t && hasStoryPoints t.

Definition withScoredTickets (w : World) (s : Sprint.t) : SprintWithTickets :=
  {| sprint := s;
     sprintTickets :=
       List.filter (fun t => inSprint s t && isDone t && hasStoryPoints t) (tickets (db w)) |}.

(** [prisma.sprint.findMany], ordered by [endDate] descending, [take: 5].
    As for [Prisma.recentSprints], sprints that end at the same instant
    come in the order a sort leaves them in; the store may return them
    in another order, and need not choose the same one as for the query
    of the interpreter. *)
Definition findRecentSprints (w : World) (teamId : option string)
  : Promise (list SprintWithTickets) :=
  call w sprint_findMany
    (withScoredTickets w <$>
       take 5 (merge_sort endsNoEarlier
                 (List.filter (fun s => ofTeamId teamId (Sprint.teamId s)) (sprints (db w))))).

(** [tickets.reduce((sum, t) => sum + (t.storyPoints || 0), 0)] *)
Definition sumStoryPoints (tickets : list Ticket.t) : Z :=
  fold_left (fun sum t => sum + storyPointsOr0 t) tickets 0.

(** [differenceInDays] of date-fns on a clock without daylight saving:
    the number of full days from [dateRight] to [dateLeft], truncated
    towards zero. *)
Definition differenceInDays (dateLeft dateRight : Z) : Z :=
  Z.quot (dateLeft - dateRight) 86400000.

(** The [where] and [select] of the resolution metrics. *)
Definition resolvedSince (teamId : option string) (startDate : Z) (t : Ticket.t)
  : option Resolved.t :=
  if ofTeamId teamId (Ticket.teamId t) && isDone t && (startDate <=? Ticket.createdAt t)%Z
  then (fun r => {| Resolved.createdAt := Ticket.createdAt t; Resolved.resolvedAt := r |})
         <$> Ticket.resolvedAt t
  else None.

(** [times[i]]; below, [i] is always within the array. *)
Definition item (times : list Z) (i : nat) : Z := default 0 (times !! i).

Section Service.
Context {N : Number}.

(** A [catch] that logs and throws the error again. *)
Definition rethrowing {A} (body : Promise A) : Promise A := try_catch body Rejected.

Definition getVelocityMetrics (c : Client) (teamName : string) (sprintId : option string)
  : Promise VelocityMetrics.t :=
  rethrowing
    (teamId ← getTeamId c teamName;
     tickets ← call (world c) ticket_findMany
                 (List.filter (velocityWhere teamId sprintId) (tickets (db (world c))));
     let totalStoryPoints := sumStoryPoints tickets in
     recentSprints ← findRecentSprints (world c) teamId;
     let sprintVelocities :=
       (fun sprint => sumStoryPoints (sprintTickets sprint)) <$> recentSprints in
     let avgVel :=
       if (0 <? length sprintVelocities)%nat
       then ratio (fold_left (fun sum v => sum + v) sprintVelocities 0)
                  (Z.of_nat (length sprintVelocities))
       else ofZ 0 in
     Fulfilled
       {| VelocityMetrics.team := teamName;
          VelocityMetrics.sprintId := sprintId;
          VelocityMetrics.totalStoryPoints := totalStoryPoints;
          VelocityMetrics.completedStoryPoints := totalStoryPoints;
          VelocityMetrics.velocity := totalStoryPoints;
          VelocityMetrics.averageVelocity := round2 avgVel |}).

(** [totalTickets ? Math.round((bugTickets / totalTickets) * 10000) / 100 : 0] *)
Definition bugRateOf (totalTickets bugTickets : Z) : num :=
  if (totalTickets =? 0)%Z then ofZ 0
  else div (ofZ (Math_round (mul (ratio bugTickets totalTickets) (ofZ 10000)))) (ofZ 100).

(** [days] is a whole number of days. *)
Definition getBugRateMetrics (c : Client) (teamName : string) (days : Z)
  : Promise BugRateMetrics.t :=
  rethrowing
    (teamId ← getTeamId c teamName;
     let startDate := subDays (now (world c)) days in
     counts ← Promise_all2
       (countTickets (world c) (whenSet teamId) None startDate)
       (countTickets (world c) (whenSet teamId) (Some BUG) startDate);
     Fulfilled
       {| BugRateMetrics.team := teamName;
          BugRateMetrics.period := pretty days ++ " days";
          BugRateMetrics.totalTickets := counts.1;
          BugRateMetrics.bugTickets := counts.2;
          BugRateMetrics.bugRate := bugRateOf counts.1 counts.2 |}).

(** The median of a sorted array: the middle element, or half the sum of
    the two middle elements. *)
Definition medianOf (resolutionTimes : list Z) : num :=
  let mid := (length resolutionTimes / 2)%nat in
  if negb (length resolutionTimes mod 2 =? 0)%nat
  then ofZ (item resolutionTimes mid)
  else div (ofZ (item resolutionTimes (mid - 1) + item resolutionTimes mid)) (ofZ 2).

Definition getResolutionTimeMetrics (c : Client) (teamName : string) (days : Z)
  : Promise ResolutionTimeMetrics.t :=
  rethrowing
    (teamId ← getTeamId c teamName;
     let startDate := subDays (now (world c)) days in
     resolvedTickets ← call (world c) ticket_findMany
                         (omap (resolvedSince teamId startDate) (tickets (db (world c))));
     if (length resolvedTickets =? 0)%nat then
       Fulfilled
         {| ResolutionTimeMetrics.team := teamName;
            ResolutionTimeMetrics.period := pretty days ++ " days";
            ResolutionTimeMetrics.averageResolutionTime := ofZ 0;
            ResolutionTimeMetrics.medianResolutionTime := ofZ 0;
            ResolutionTimeMetrics.minResolutionTime := 0;
            ResolutionTimeMetrics.maxResolutionTime := 0 |}
     else
       let resolutionTimes :=
         merge_sort Z.le
           ((fun t => differenceInDays (Resolved.resolvedAt t) (Resolved.createdAt t))
              <$> resolvedTickets) in
       let avg := avgOf resolutionTimes in
       Fulfilled
         {| ResolutionTimeMetrics.team := teamName;
            ResolutionTimeMetrics.period := pretty days ++ " days";
            ResolutionTimeMetrics.averageResolutionTime := round2 avg;
            ResolutionTimeMetrics.medianResolutionTime := medianOf resolutionTimes;
            ResolutionTimeMetrics.minResolutionTime := item resolutionTimes 0;
            ResolutionTimeMetrics.maxResolutionTime :=
              item resolutionTimes (length resolutionTimes - 1) |}).

End Service.

End MetricsService.

(** ** Vocabulary of the specification *)

Module Spec.
Import Js Prisma TextQueryService.

Definition sumZ (l : list Z) : Z := foldr Z.add 0 l.

(** The mean of a list of integers, 0 for the empty list. *)
Definition mean {N : Number} (l : list Z) : num :=
  match l with
  | [] => ofZ 0
  | _ => div (ofZ (sumZ l)) (ofZ (Z.of_nat (length l)))
  end.

(** The team a token names: the first team whose name equals it up to
    letter case. *)
Definition resolveTeam (w : World) (teamName : string) : option Team.t :=
  List.find (fun tm => String.eqb (toLowerCase (Team.name tm)) (toLowerCase teamName))
    (teams (db w)).

Definition sprintsOf (w : World) (tm : Team.t) : list Sprint.t :=
  filter (fun s => Sprint.teamId s = Team.id tm) (sprints (db w)).

Definition ticketsOf (w : World) (tm : Team.t) : list Ticket.t :=
  filter (fun t => Ticket.teamId t = Team.id tm) (tickets (db w)).

(** The sprints a velocity request ranges over: all of them for the
    token [all], those of the resolved team otherwise. *)
Definition requestedSprints (w : World) (teamName : string) : option (list Sprint.t) :=
  if decide (teamName = "all") then Some (sprints (db w))
  else sprintsOf w <$> resolveTeam w teamName.

(** The tickets a bug-count request ranges over. *)
Definition requestedTickets (w : World) (teamName : string) : option (list Ticket.t) :=
  if decide (teamName = "all") then Some (tickets (db w))
  else ticketsOf w <$> resolveTeam w teamName.

(** [chosen] are [n] most recently ended sprints of [pool] (all of them
    when the pool has fewer): whatever is left out ends no later than
    anything chosen. *)
Definition mostRecent (n : nat) (pool chosen : list Sprint.t) : Prop :=
  length chosen = Nat.min n (length pool) ∧
  ∃ rest, pool ≡ₚ chosen ++ rest ∧
    ∀ s s', s ∈ chosen → s' ∈ rest → Sprint.endDate s' <= Sprint.endDate s.

(** Story points of the DONE tickets of a sprint, a missing value
    counting as 0. *)
Definition doneStoryPoints (w : World) (s : Sprint.t) : Z :=
  sumZ ((fun t => default 0 (Ticket.storyPoints t)) <$>
        filter (fun t => Ticket.sprintId t = Some (Sprint.id s) ∧ Ticket.status t = DONE)
          (tickets (db w))).

(** Tickets created within the last [days] days. *)
Definition createdWithin (w : World) (days : Z) (pool : list Ticket.t) : list Ticket.t :=
  filter (fun t => now w - days * 86400000 <= Ticket.createdAt t) pool.

Definition bugsAmong (pool : list Ticket.t) : list Ticket.t :=
  filter (fun t => Ticket.type t = BUG) pool.

Definition doneAmong (pool : list Ticket.t) : list Ticket.t :=
  filter (fun t => Ticket.status t = DONE) pool.

(** The same world with only the sprints, respectively the tickets, of
    one team. *)
Definition onlySprintsOf (tm : Team.t) (w : World) : World :=
  {| db := {| teams := teams (db w); members := members (db w);
              sprints := sprintsOf w tm; tickets := tickets (db w) |};
     failing := failing w; now := now w |}.

Definition onlyTicketsOf (tm : Team.t) (w : World) : World :=
  {| db := {| teams := teams (db w); members := members (db w);
              sprints := sprints (db w); tickets := ticketsOf w tm |};
     failing := failing w; now := now w |}.

(** Position of a category in the declaration order. *)
Definition rank (c : Category) : nat :=
  match c with
  | velocity => 0 | bugs => 1 | resolution => 2 | trends => 3 | performance => 4
  end.

Definition keywordsOf (c : Category) : list string :=
  match c with
  | velocity => ["velocity"; "story point"; "sprint"; "throughput"; "capacity"]
  | bugs => ["bug"; "defect"; "error"; "issue"; "failure"]
  | resolution => ["resolution"; "fix"; "close"; "time"; "duration"]
  | trends => ["trend"; "q1"; "q2"; "q3"; "q4"; "quarter"; "period"]
  | performance => ["performance"; "metric"; "statistic"; "kpi"]
  end.

(** Number of keywords of [c] that occur in the lower-cased query. *)
Definition scoreOf (c : Category) (query : string) : nat :=
  length (filter (fun kw => includes (toLowerCase query) kw = true) (keywordsOf c)).

(** The entries of the categories that score above zero, in declaration
    order, for given scores. *)
Definition scored (sc : Category → nat) : list KeywordMatch :=
  List.filter (fun m => (0 <? count m)%nat)
    ((fun c => {| category := c; count := sc c |})
       <$> [velocity; bugs; resolution; trends; performance]).

(** The category the keyword fallback settles on. *)
Definition classify (query : string) : option Category :=
  category <$> bestMatch (toLowerCase query).

(** [needle] occurs in [text]. *)
Definition occursIn (needle text : string) : Prop :=
  ∃ before after, text = before ++ needle ++ after.

(** Sum of a field over the entries of the per-team table. *)
Definition totalOver (f : TeamStats.t -> Z) (byTeam : gmap string TeamStats.t) : Z :=
  map_fold (fun _ stats acc => f stats + acc) 0 byTeam.

(** The name of the team owning a ticket. *)
Definition ownerName (w : World) (t : Ticket.t) : option string :=
  Team.name <$> ticketTeam (withTeam w t).

(** The DONE tickets owned by the team called [name]. *)
Definition doneTicketsNamed (w : World) (name : string) : list Ticket.t :=
  filter (fun t => Ticket.status t = DONE ∧ ownerName w t = Some name) (tickets (db w)).

(** The rows owned by the team called [name]. *)
Definition rowsNamed (name : string) (rows : list TicketWithTeam) : list TicketWithTeam :=
  filter (fun row => Team.name <$> ticketTeam row = Some name) rows.

(** The table entry that the rows owned by the team called [name] add up
    to; none when it owns no row. *)
Definition entryOf (name : string) (rows : list TicketWithTeam) : option TeamStats.t :=
  match rowsNamed name rows with
  | [] => None
  | owned =>
      Some {| TeamStats.completed := Z.of_nat (length owned);
              TeamStats.storyPoints :=
                sumZ ((fun row => default 0 (Ticket.storyPoints (ticket row))) <$> owned) |}
  end.

End Spec.

(** ** Further vocabulary *)

Module Terms.
Import Js Prisma TextQueryService.

(** A text without line terminators. *)
Fixpoint singleLine (s : string) : bool :=
  match s with
  | EmptyString => true
  | String c s' => negb (isLineTerminator c) && singleLine s'
  end.

(** What an envelope says, apart from the query it echoes. *)
Definition answer {N : Number} (env : TextQueryResult.t)
  : option Payload * string :=
  (TextQueryResult.result env, TextQueryResult.interpretation env).

(** Some rule of the list matches the normalised query. *)
Definition someRuleMatches {N : Number} (normalizedQuery : string) : bool :=
  existsb (fun rule => bool_decide (is_Some (RegExp.exec (pattern rule) normalizedQuery)))
    queryPatterns.

(** The same settled promise with its envelope echoing another query. *)
Definition echoing {N : Number} (query : string) (p : Promise TextQueryResult.t)
  : Promise TextQueryResult.t :=
  match p with
  | Fulfilled env =>
      Fulfilled {| TextQueryResult.query := query;
                   TextQueryResult.result := TextQueryResult.result env;
                   TextQueryResult.interpretation := TextQueryResult.interpretation env |}
  | Rejected => Rejected
  end.

(** The pattern has no capturing group numbered [g]. *)
Fixpoint withoutGroup (g : nat) (r : RegExp.Re) : bool :=
  match r with
  | RegExp.Group n r' => negb (n =? g)%nat && withoutGroup g r'
  | RegExp.Alt r1 r2 | RegExp.Seq r1 r2 => withoutGroup g r1 && withoutGroup g r2
  | RegExp.Opt r' => withoutGroup g r'
  | RegExp.Lit _ | RegExp.Star _ | RegExp.Plus _ => true
  end.

(** A continuation of the matcher that, started on a text in [P] without
    group 4, never ends with group 4. *)
Definition keeps (P : string → Prop) (k : RegExp.Cont) : Prop :=
  ∀ s caps r, P s → caps !! 4%nat = None → k s caps = Some r → r !! 4%nat = None.

(** A continuation that, started without group 4, always succeeds and
    ends without group 4. *)
Definition settles (k : RegExp.Cont) : Prop :=
  ∀ s caps, caps !! 4%nat = None → ∃ r, k s caps = Some r ∧ r !! 4%nat = None.

(** Where a greedy run of characters other than line terminators stops:
    at the end of the text or in front of a line terminator. *)
Definition atLineEnd (s : string) : Prop :=
  match s with
  | EmptyString => True
  | String c _ => isLineTerminator c = true
  end.

(** The DONE tickets that carry a resolution timestamp. *)
Definition resolvedDone (w : World) : list Ticket.t :=
  filter (fun t => Ticket.status t = DONE ∧ Ticket.resolvedAt t ≠ None) (tickets (db w)).

(** The time from creation to resolution in days, rounded to a whole
    number. *)
Definition wholeDays {N : Number} (t : Ticket.t) : Z :=
  Math_round (ratio (default 0 (Ticket.resolvedAt t) - Ticket.createdAt t) msPerDay).

(** The team whose name is exactly the given one. *)
Definition namedExactly (w : World) (teamName : string) : option Team.t :=
  List.find (fun t => String.eqb (Team.name t) teamName) (teams (db w)).

(** The team identifier the metrics service filters by: none for [all],
    none when no team has exactly the given name, none when that team's
    identifier is empty. *)
Definition metricsScope (w : World) (teamName : string) : option string :=
  if String.eqb teamName "all" then None
  else MetricsService.whenSet (Team.id <$> namedExactly w teamName).

Definition inScope (scope : option string) (t : Ticket.t) : Prop :=
  match scope with
  | Some i => Ticket.teamId t = i
  | None => True
  end.

#[global] Instance inScope_dec (scope : option string) (t : Ticket.t) :
  Decision (inScope scope t).
Proof. destruct scope; simpl; apply _. Defined.

(** The tickets the resolution metrics of a team name range over: in
    scope, DONE, with a resolution timestamp, created within the given number
    of days. *)
Definition analysed (w : World) (teamName : string) (days : Z) : list Ticket.t :=
  filter (fun t => inScope (metricsScope w teamName) t ∧ Ticket.status t = DONE ∧
                   Ticket.resolvedAt t ≠ None ∧
                   now w - days * 86400000 <= Ticket.createdAt t)
    (tickets (db w)).

(** The time from creation to resolution in full days. *)
Definition fullDays (t : Ticket.t) : Z :=
  MetricsService.differenceInDays (default 0 (Ticket.resolvedAt t)) (Ticket.createdAt t).

(** The tickets the bug rate of a team name ranges over: in scope and
    created within the given number of days. *)
Definition counted (w : World) (teamName : string) (days : Z) : list Ticket.t :=
  filter (fun t => inScope (metricsScope w teamName) t ∧
                   now w - days * 86400000 <= Ticket.createdAt t)
    (tickets (db w)).

(** What [orderBy: { endDate: 'desc' }, take: n] may return over the
    rows [pool]: the first [n] rows of some arrangement of the pool in
    which no row ends later than a row before it. Rows that end at the
    same instant may come in any order. *)
Definition latest (n : nat) (pool answer : list Sprint.t) : Prop :=
  ∃ arranged, arranged ≡ₚ pool ∧ StronglySorted endsNoEarlier arranged ∧
              answer = take n arranged.

(** No two of the sprints end at the same instant. *)
Definition endApart (pool : list Sprint.t) : Prop := NoDup (Sprint.endDate <$> pool).

(** The same metrics under another team label. *)
Definition velocityNamed {N : Number} (teamName : string) (m : VelocityMetrics.t)
  : VelocityMetrics.t :=
  {| VelocityMetrics.team := teamName;
     VelocityMetrics.sprintId := VelocityMetrics.sprintId m;
     VelocityMetrics.totalStoryPoints := VelocityMetrics.totalStoryPoints m;
     VelocityMetrics.completedStoryPoints := VelocityMetrics.completedStoryPoints m;
     VelocityMetrics.velocity := VelocityMetrics.velocity m;
     VelocityMetrics.averageVelocity := VelocityMetrics.averageVelocity m |}.

Definition bugRateNamed {N : Number} (teamName : string) (m : BugRateMetrics.t)
  : BugRateMetrics.t :=
  {| BugRateMetrics.team := teamName;
     BugRateMetrics.period := BugRateMetrics.period m;
     BugRateMetrics.totalTickets := BugRateMetrics.totalTickets m;
     BugRateMetrics.bugTickets := BugRateMetrics.bugTickets m;
     BugRateMetrics.bugRate := BugRateMetrics.bugRate m |}.

Definition resolutionNamed {N : Number} (teamName : string) (m : ResolutionTimeMetrics.t)
  : ResolutionTimeMetrics.t :=
  {| ResolutionTimeMetrics.team := teamName;
     ResolutionTimeMetrics.period := ResolutionTimeMetrics.period m;
     ResolutionTimeMetrics.averageResolutionTime :=
       ResolutionTimeMetrics.averageResolutionTime m;
     ResolutionTimeMetrics.medianResolutionTime :=
       ResolutionTimeMetrics.medianResolutionTime m;
     ResolutionTimeMetrics.minResolutionTime := ResolutionTimeMetrics.minResolutionTime m;
     ResolutionTimeMetrics.maxResolutionTime := ResolutionTimeMetrics.maxResolutionTime m |}.

End Terms.

(** ** Worlds used in the examples *)

Module Scenario.
Import Js Prisma TextQueryService.

Definition newline : string := String (ascii_of_nat 10) EmptyString.

Definition alpha : Team.t := {| Team.id := "t1"; Team.name := "Alpha" |}.
Definition beta : Team.t := {| Team.id := "t2"; Team.name := "Beta" |}.
Definition oddlyNamed : Team.t := {| Team.id := "t3"; Team.name := "constructor" |}.

Definition mkTicket (id : string) (type : TicketType) (status : TicketStatus)
    (storyPoints : option Z) (createdAt : Z) (resolvedAt : option Z)
    (teamId : string) (sprintId : option string) : Ticket.t :=
  {| Ticket.id := id; Ticket.type := type; Ticket.status := status;
     Ticket.storyPoints := storyPoints; Ticket.createdAt := createdAt;
     Ticket.resolvedAt := resolvedAt; Ticket.teamId := teamId;
     Ticket.sprintId := sprintId |}.

Definition day : Z := 86400000.

(** Two teams, two sprints, four tickets. *)
Definition store : Store :=
  {| teams := [alpha; beta];
     members := [ {| Member.id := "m1"; Member.teamId := "t1" |} ];
     sprints := [ {| Sprint.id := "s1"; Sprint.endDate := 10 * day; Sprint.teamId := "t1" |};
                  {| Sprint.id := "s2"; Sprint.endDate := 20 * day; Sprint.teamId := "t2" |} ];
     tickets := [ mkTicket "k1" BUG DONE (Some 3) (95 * day) (Some (97 * day)) "t1" (Some "s1");
                  mkTicket "k2" FEATURE DONE None (96 * day) (Some (97 * day)) "t2" (Some "s2");
                  mkTicket "k3" TASK TODO (Some 5) (1 * day) None "t1" (Some "s1");
                  mkTicket "k4" FEATURE DONE (Some 8) (98 * day) (Some (99 * day)) "t2" (Some "s2") ] |}.

Definition healthy : World :=
  {| db := store; failing := fun _ => false; now := 100 * day |}.

(** The same rows behind a store that cannot be reached. *)
Definition unreachable : World :=
  {| db := store; failing := fun _ => true; now := 100 * day |}.

(** A team whose name is that of an inherited object member. *)
Definition oddStore : Store :=
  {| teams := [oddlyNamed];
     members := [];
     sprints := [];
     tickets := [ mkTicket "k9" FEATURE DONE (Some 2) (95 * day) (Some (96 * day)) "t3" None ] |}.

Definition odd : World :=
  {| db := oddStore; failing := fun _ => false; now := 100 * day |}.

(** One team with 160 recent tickets, 23 of them bugs. *)
Definition busyStore : Store :=
  {| teams := [alpha];
     members := [];
     sprints := [];
     tickets :=
       ((fun i => mkTicket ("b" ++ pretty i) BUG TODO None (95 * day) None "t1" None)
          <$> seq 0 23) ++
       ((fun i => mkTicket ("f" ++ pretty i) FEATURE TODO None (95 * day) None "t1" None)
          <$> seq 0 137) |}.

Definition busy : World :=
  {| db := busyStore; failing := fun _ => false; now := 100 * day |}.

(** One team with 40 DONE tickets: one took 41 days to resolve, the
    others were resolved on the day they were created. *)
Definition slowStore : Store :=
  {| teams := [alpha];
     members := [];
     sprints := [];
     tickets :=
       mkTicket "s" TASK DONE None (10 * day) (Some (51 * day)) "t1" None ::
       ((fun i => mkTicket ("q" ++ pretty i) TASK DONE None (60 * day) (Some (60 * day)) "t1" None)
          <$> seq 0 39) |}.

Definition slow : World :=
  {| db := slowStore; failing := fun _ => false; now := 100 * day |}.

(** No rows at all. *)
Definition blank : World :=
  {| db := {| teams := []; members := []; sprints := []; tickets := [] |};
     failing := fun _ => false; now := 100 * day |}.

End Scenario.

Import Js Prisma TextQueryService.

(** * Properties *)

(** ** Which handlers can reject *)

Section Totality.
Context {N : Number}.
Variables (w : World) (query teamName : string).

Lemma try_catch_fulfilled {A} (body : Promise A) (a : A) :
  ∃ r, try_catch body (Fulfilled a) = Fulfilled r.
Proof. destruct body; simpl; eauto. Qed.

Lemma handleVelocityQuery_fulfilled :
  ∃ env, handleVelocityQuery w query teamName = Fulfilled env.
Proof. apply try_catch_fulfilled. Qed.

Lemma handleBugCountQuery_fulfilled :
  ∃ env, handleBugCountQuery w query teamName = Fulfilled env.
Proof. apply try_catch_fulfilled. Qed.

Lemma handleQuarterlyTrendsQuery_fulfilled :
  ∃ env, handleQuarterlyTrendsQuery w query = Fulfilled env.
Proof. apply try_catch_fulfilled. Qed.

(** Once a rule matches, the interpreter settles with an envelope. *)
Lemma processTextQuery_fulfilled_on_match called :
  firstMatch queryPatterns w query (trim (toLowerCase query)) = Some called →
  ∃ env, processTextQuery w query = Fulfilled env.
Proof.
  intros Hm. unfold processTextQuery, processTextQueryWith. rewrite Hm.
  apply try_catch_fulfilled.
Qed.
End Totality.

(** A failure inside the handler of a matching rule is absorbed: the
    interpreter settles with its own error envelope. *)
Lemma processTextQuery_absorbs_rule_failure `{N : Number} (w : World) (query : string) :
  firstMatch queryPatterns w query (trim (toLowerCase query)) = Some Rejected →
  processTextQuery w query = Fulfilled (processingError query).
Proof.
  intros Hm. unfold processTextQuery, processTextQueryWith. by rewrite Hm.
Qed.

(** A failure inside the handler chosen by the keyword fallback is not:
    whenever no rule matches, the fallback settles on [resolution] or
    [performance] and the handler's lookup fails, the interpreter rejects. *)
Lemma processTextQuery_passes_on_fallback_failure `{N : Number} (w : World) (query : string) :
  firstMatch queryPatterns w query (trim (toLowerCase query)) = None →
  (Spec.classify query = Some resolution ∧ failing w ticket_findMany = true) ∨
  (Spec.classify query = Some performance ∧ failing w team_findMany = true) →
  processTextQuery w query = Rejected.
Proof.
  intros Hnone Hcase.
  unfold processTextQuery, processTextQueryWith. rewrite Hnone.
  unfold analyzeQueryByKeywords. unfold Spec.classify in Hcase.
  destruct (bestMatch (toLowerCase query)) as [best|]; simpl in Hcase;
    [|by destruct Hcase as [[? _]|[? _]]].
  destruct Hcase as [[[= ->] Hfail]|[[= ->] Hfail]]; simpl.
  - unfold handleResolutionTimeQuery, findResolvedTickets, call. by rewrite Hfail.
  - unfold handleTeamPerformanceQuery, findTeams, call. by rewrite Hfail.
Qed.

(** C1 (fails on the code). The query ["resolution time"] matches no rule
    and is classified as [resolution] by the keyword fallback; when the
    ticket lookup fails, the unguarded resolution-time handler rejects, and
    since the fallback's promise is returned without being awaited the
    rejection is the outcome of [processTextQuery]: the caller gets no
    envelope. *)
Theorem processTextQuery_rejects_on_fallback_failure :
  firstMatch (N := Binary64) queryPatterns Scenario.unreachable "resolution time"
    (trim (toLowerCase "resolution time")) = None ∧
  Spec.classify "resolution time" = Some resolution ∧
  processTextQuery (N := Binary64) Scenario.unreachable "resolution time" = Rejected.
Proof. repeat split; reflexivity. Qed.

(** ** The keyword fallback *)

Lemma List_filter_filter {A} (f : A → bool) (l : list A) :
  List.filter f l = filter (fun x => f x = true) l.
Proof.
  induction l as [|x l IH]; [done|]. simpl. rewrite filter_cons.
  destruct (f x) eqn:E; rewrite IH.
  - by rewrite decide_True.
  - by rewrite decide_False.
Qed.

Lemma score_scoreOf (c : Category) (q : string) :
  score (toLowerCase q) (Spec.keywordsOf c) = Spec.scoreOf c q.
Proof. unfold score, Spec.scoreOf. by rewrite List_filter_filter. Qed.

Lemma keywordMatches_scored (q : string) :
  keywordMatches (toLowerCase q) = Spec.scored (fun c => Spec.scoreOf c q).
Proof.
  unfold keywordMatches, Spec.scored, keywordCategories. simpl.
  by rewrite <- !score_scoreOf.
Qed.

Lemma reduce_pick_scored (sc : Category → nat) :
  match reduce pick (Spec.scored sc) with
  | None => ∀ c, sc c = 0%nat
  | Some m =>
      count m = sc (category m) ∧ (0 < count m)%nat ∧
      (∀ c, (sc c ≤ count m)%nat) ∧
      (∀ c, (Spec.rank (category m) < Spec.rank c)%nat → (sc c < count m)%nat)
  end.
Proof.
  unfold Spec.scored. simpl.
  destruct (Nat.ltb_spec 0 (sc velocity)), (Nat.ltb_spec 0 (sc bugs)),
    (Nat.ltb_spec 0 (sc resolution)), (Nat.ltb_spec 0 (sc trends)),
    (Nat.ltb_spec 0 (sc performance)); simpl; unfold pick; simpl;
    repeat match goal with
           | |- context [(sc ?x <? sc ?y)%nat] =>
               destruct (Nat.ltb_spec (sc x) (sc y)); simpl
           end;
    try (intros []; lia);
    (split; [done|]; split; [lia|]; split; intros []; simpl; lia).
Qed.

(** C2 (as the code has it). The keyword fallback scores every category
    by the number of its keywords occurring in the lower-cased query. When
    no category scores, the static guidance envelope is returned.
    Otherwise the handler of a category with the highest score is called,
    and every category declared after the chosen one scores strictly less:
    among categories tied on the highest score the one declared last is
    chosen. *)
Theorem keyword_fallback_prefers_last_declared `{N : Number} (w : World) (q : string) :
  match Spec.classify q with
  | None =>
      (∀ c, Spec.scoreOf c q = 0%nat) ∧
      analyzeQueryByKeywords w q = Fulfilled (notUnderstood q)
  | Some best =>
      (0 < Spec.scoreOf best q)%nat ∧
      (∀ c, (Spec.scoreOf c q ≤ Spec.scoreOf best q)%nat) ∧
      (∀ c, (Spec.rank best < Spec.rank c)%nat →
            (Spec.scoreOf c q < Spec.scoreOf best q)%nat) ∧
      analyzeQueryByKeywords w q = categoryHandler best w q
  end.
Proof.
  unfold Spec.classify, analyzeQueryByKeywords, bestMatch.
  rewrite keywordMatches_scored.
  pose proof (reduce_pick_scored (fun c => Spec.scoreOf c q)) as H.
  destruct (reduce pick _) as [m|]; simpl.
  - destruct H as (Hc & Hpos & Hmax & Hlast). rewrite <- Hc. auto.
  - auto.
Qed.

(** C2 (fails as stated). ["sprint bug"] holds exactly one keyword of
    [velocity] and exactly one of [bugs] and none of the others, and the
    fallback classifies it as [bugs], not as [velocity]. *)
Lemma keyword_tie_velocity_bugs_goes_to_bugs :
  Spec.scoreOf velocity "sprint bug" = 1%nat ∧
  Spec.scoreOf bugs "sprint bug" = 1%nat ∧
  Spec.scoreOf resolution "sprint bug" = 0%nat ∧
  Spec.scoreOf trends "sprint bug" = 0%nat ∧
  Spec.scoreOf performance "sprint bug" = 0%nat ∧
  Spec.classify "sprint bug" = Some bugs ∧
  Spec.classify "sprint bug" ≠ Some velocity ∧
  ∀ w, processTextQuery (N := Binary64) w "sprint bug"
       = handleBugCountQuery w "sprint bug" "all".
Proof. split_and!; try reflexivity. discriminate. Qed.

(** ** Dispatch through the rule list *)

Lemma firstMatch_app_match `{N : Number} (before later : list Rule) (rule : Rule) (w : World)
    (q nq : string) (m : RegExp.Captures) :
  Forall (fun r => RegExp.exec (pattern r) nq = None) before →
  RegExp.exec (pattern rule) nq = Some m →
  firstMatch (before ++ rule :: later) w q nq = Some (handler rule w q (teamNameOf m)).
Proof.
  intros Hb Hm. induction Hb as [|r before Hr _ IH]; simpl.
  - by rewrite Hm.
  - by rewrite Hr.
Qed.

(** C3. When rule [k] of the rule list is the first whose pattern matches
    the normalised query, the interpreter's outcome is the awaited call of
    rule [k]'s handler on the original query and the captured team token
    (guarded by the interpreter's [catch]); the outcome is the same
    whatever rules follow rule [k] and whatever the fallback is, so
    neither a later handler nor the keyword classifier takes part. *)
Theorem first_matching_rule_dispatches `{N : Number} (w : World) (q : string) (k : nat)
    (rule : Rule) (m : RegExp.Captures) :
  queryPatterns !! k = Some rule →
  Forall (fun r => RegExp.exec (pattern r) (trim (toLowerCase q)) = None)
    (take k queryPatterns) →
  RegExp.exec (pattern rule) (trim (toLowerCase q)) = Some m →
  processTextQuery w q
    = try_catch (handler rule w q (teamNameOf m)) (Fulfilled (processingError q)) ∧
  ∀ later fallback,
    processTextQueryWith (take k queryPatterns ++ rule :: later) fallback w q
    = processTextQuery w q.
Proof.
  intros Hk Hbefore Hm.
  assert (Hgen : ∀ later fallback,
    processTextQueryWith (take k queryPatterns ++ rule :: later) fallback w q
    = try_catch (handler rule w q (teamNameOf m)) (Fulfilled (processingError q))).
  { intros later fallback. unfold processTextQueryWith.
    by rewrite (firstMatch_app_match _ _ _ _ _ _ m Hbefore Hm). }
  assert (Hreal : processTextQuery w q
    = try_catch (handler rule w q (teamNameOf m)) (Fulfilled (processingError q))).
  { unfold processTextQuery. rewrite <- (take_drop_middle _ _ _ Hk). apply Hgen. }
  split; [exact Hreal|]. intros later fallback. by rewrite Hgen, Hreal.
Qed.

Lemma first_matching_rule_dispatches_witness :
  processTextQuery (N := Binary64) Scenario.healthy "Team performance stats"
  = try_catch (handleTeamPerformanceQuery Scenario.healthy "Team performance stats" "all")
      (Fulfilled (processingError "Team performance stats")).
Proof.
  refine (proj1 (first_matching_rule_dispatches (N := Binary64)
            Scenario.healthy "Team performance stats" 4
            {| pattern := teamPerformancePattern; handler := handleTeamPerformanceQuery |}
            (default ∅ (RegExp.exec teamPerformancePattern "team performance stats"))
            _ _ _)).
  - reflexivity.
  - repeat (apply List.Forall_cons; [reflexivity|]). apply List.Forall_nil.
  - reflexivity.
Defined.

(** ** Team resolution *)

Lemma append_assoc (a b c : string) : (a ++ b) ++ c = a ++ b ++ c.
Proof.
  induction a as [|x a IH]; [reflexivity|].
  change (String x ((a ++ b) ++ c) = String x (a ++ b ++ c)). by rewrite IH.
Qed.

Lemma teamNotFound_names_team `{N : Number} (q teamName : string) :
  TextQueryResult.result (teamNotFound q teamName) = None ∧
  Spec.occursIn (("Team " ++ dquote) ++ teamName ++ (dquote ++ " not found"))
    (TextQueryResult.interpretation (teamNotFound q teamName)) ∧
  Spec.occursIn teamName (TextQueryResult.interpretation (teamNotFound q teamName)).
Proof.
  split; [done|]. split.
  - exists "", ". Try one of our team names.".
    rewrite !append_assoc. reflexivity.
  - exists ("Team " ++ dquote), (dquote ++ " not found. Try one of our team names.").
    reflexivity.
Qed.

Section UnknownTeam.
Context {N : Number}.
Variables (w : World) (q teamName : string).
Hypothesis not_all : teamName ≠ "all".
Hypothesis lookup_works : failing w team_findFirst = false.
Hypothesis unknown : Spec.resolveTeam w teamName = None.

Lemma teamName_not_all : String.eqb teamName "all" = false.
Proof. by apply String.eqb_neq. Qed.

(** The velocity handler reports an unknown team and reads no sprint. *)
Lemma handleVelocityQuery_unknown_team :
  handleVelocityQuery w q teamName = Fulfilled (teamNotFound q teamName).
Proof.
  unfold handleVelocityQuery, findTeamWithSprints, call.
  rewrite teamName_not_all, lookup_works.
  unfold Spec.resolveTeam in unknown. unfold sameName. rewrite unknown. reflexivity.
Qed.

(** The bug-count handler reports an unknown team and counts nothing. *)
Lemma handleBugCountQuery_unknown_team :
  handleBugCountQuery w q teamName = Fulfilled (teamNotFound q teamName).
Proof.
  unfold handleBugCountQuery, findTeam, call.
  rewrite teamName_not_all, lookup_works.
  unfold Spec.resolveTeam in unknown. unfold sameName. rewrite unknown. reflexivity.
Qed.
End UnknownTeam.

Lemma resolveTeam_none (w : World) (teamName : string) :
  (∀ tm, tm ∈ teams (db w) → toLowerCase (Team.name tm) ≠ toLowerCase teamName) →
  Spec.resolveTeam w teamName = None.
Proof.
  intros Hnone. unfold Spec.resolveTeam.
  destruct (List.find _ _) as [tm|] eqn:Hfind; [|done].
  apply find_some in Hfind as [Hin Heq].
  apply list_elem_of_In, Hnone in Hin. by apply String.eqb_eq in Heq.
Qed.

(** C4 (as the code has it). For the velocity handler and the bug-count
    handler: when the team token is not [all], the team lookup succeeds
    and no team has the token as its name up to letter case, the handler
    settles with an envelope whose result is null and whose interpretation
    contains [Team "<token>" not found], hence the token itself; no sprint
    or ticket is read, as the outcome is the same in every world with the
    same teams. *)
Theorem unknown_team_is_reported_by_velocity_and_bug_count `{N : Number}
    (w : World) (q teamName : string) (h : Handler) :
  h = handleVelocityQuery ∨ h = handleBugCountQuery →
  teamName ≠ "all" →
  failing w team_findFirst = false →
  (∀ tm, tm ∈ teams (db w) → toLowerCase (Team.name tm) ≠ toLowerCase teamName) →
  ∃ env,
    h w q teamName = Fulfilled env ∧
    TextQueryResult.result env = None ∧
    Spec.occursIn (("Team " ++ dquote) ++ teamName ++ (dquote ++ " not found"))
      (TextQueryResult.interpretation env) ∧
    Spec.occursIn teamName (TextQueryResult.interpretation env) ∧
    ∀ w', teams (db w') = teams (db w) → failing w' team_findFirst = false →
          h w' q teamName = Fulfilled env.
Proof.
  intros Hh Hall Hfind Hnone.
  pose proof (resolveTeam_none w teamName Hnone) as Hres.
  destruct (teamNotFound_names_team q teamName) as (Hnull & Hquoted & Htoken).
  exists (teamNotFound q teamName).
  assert (Hother : ∀ w', teams (db w') = teams (db w) → Spec.resolveTeam w' teamName = None).
  { intros w' Hteams. unfold Spec.resolveTeam. rewrite Hteams. exact Hres. }
  destruct Hh as [-> | ->]; (split_and!; try done).
  - by apply handleVelocityQuery_unknown_team.
  - intros w' Hteams Hfind'. apply handleVelocityQuery_unknown_team; auto.
  - by apply handleBugCountQuery_unknown_team.
  - intros w' Hteams Hfind'. apply handleBugCountQuery_unknown_team; auto.
Qed.

Lemma unknown_team_is_reported_by_velocity_and_bug_count_witness :
  ∃ env,
    handleBugCountQuery (N := Binary64) Scenario.healthy "how many bugs for zzz" "zzz"
    = Fulfilled env ∧
    TextQueryResult.result env = None ∧
    Spec.occursIn "zzz" (TextQueryResult.interpretation env).
Proof.
  destruct (unknown_team_is_reported_by_velocity_and_bug_count (N := Binary64)
              Scenario.healthy "how many bugs for zzz" "zzz" handleBugCountQuery)
    as (env & Henv & Hnull & _ & Htoken & _).
  - right. reflexivity.
  - discriminate.
  - reflexivity.
  - intros tm Htm. vm_compute in Htm.
    apply elem_of_cons in Htm as [-> | Htm]; [vm_compute; discriminate|].
    apply list_elem_of_singleton in Htm as ->. vm_compute. discriminate.
  - exists env. auto.
Defined.

(** C4 (fails as stated). The query [completed tickets], a line break,
    [zzz] is dispatched by the fourth rule with the team token [zzz]. No
    team is called [zzz], yet the completed-tickets handler answers with
    the figures of all teams instead of a null result naming [zzz]; the
    resolution-time handler given the same token does likewise. *)
Lemma unknown_team_is_ignored_by_completed_and_resolution :
  let q := "completed tickets" ++ Scenario.newline ++ "zzz" in
  teamNameOf <$> RegExp.exec completedTicketsPattern (trim (toLowerCase q)) = Some "zzz" ∧
  Spec.resolveTeam Scenario.healthy "zzz" = None ∧
  processTextQuery (N := Binary64) Scenario.healthy q
    = handleCompletedTicketsQuery Scenario.healthy q "zzz" ∧
  TextQueryResult.result <$> outcome (processTextQuery (N := Binary64) Scenario.healthy q)
    = Some (Some (CompletedResult
        {| Completed.totalCompleted := 3;
           Completed.byTeam :=
             {[ "Alpha" := {| TeamStats.completed := 1; TeamStats.storyPoints := 3 |};
                "Beta" := {| TeamStats.completed := 2; TeamStats.storyPoints := 8 |} ]} |})) ∧
  TextQueryResult.result <$>
    outcome (handleResolutionTimeQuery (N := Binary64) Scenario.healthy q "zzz")
    = Some (Some (ResolutionTimeResult
        {| ResolutionTime.averageResolutionTime := round2 (ratio 4 3);
           ResolutionTime.ticketsAnalyzed := 3;
           ResolutionTime.unit := "days" |})).
Proof. repeat split; reflexivity. Qed.

(** ** Quarterly trends *)

(** C9. The quarterly-trends handler settles with the envelope of the
    velocity handler in all-teams mode for the same query, its [query] and
    [result] fields unchanged and its interpretation replaced by the fixed
    guidance text. *)
Theorem quarterly_trends_is_velocity_with_new_interpretation `{N : Number}
    (w : World) (q : string) :
  ∃ v,
    handleVelocityQuery w q "all" = Fulfilled v ∧
    handleQuarterlyTrendsQuery w q
    = Fulfilled
        {| TextQueryResult.query := TextQueryResult.query v;
           TextQueryResult.result := TextQueryResult.result v;
           TextQueryResult.interpretation :=
             "Showing Q1 velocity trends across all teams. " ++
             "Try being more specific like 'Q2 bugs for Frontend team'" |}.
Proof.
  destruct (handleVelocityQuery_fulfilled w q "all") as [v Hv].
  exists v. split; [exact Hv|].
  unfold handleQuarterlyTrendsQuery. rewrite Hv. reflexivity.
Qed.

(** ** The team filter *)

Lemma List_filter_within {A} (f : A → bool) (P : A → Prop) `{!∀ x, Decision (P x)}
    (l : list A) :
  (∀ x, f x = true → P x) → List.filter f (filter P l) = List.filter f l.
Proof.
  intros Himp. induction l as [|x l IH]; [done|].
  rewrite filter_cons. simpl. destruct (decide (P x)) as [HP|HP]; simpl.
  - by rewrite IH.
  - rewrite IH. destruct (f x) eqn:E; [|done]. by apply Himp in E.
Qed.

Lemma length_resolved_rows (l : list Ticket.t) :
  length (omap resolvedRow l)
  = length (filter (fun t => Ticket.status t = DONE ∧ Ticket.resolvedAt t ≠ None) l).
Proof.
  induction l as [|t l IH]; [done|].
  rewrite filter_cons.
  change (omap resolvedRow (t :: l))
    with (match resolvedRow t with
          | Some y => y :: omap resolvedRow l
          | None => omap resolvedRow l
          end).
  unfold resolvedRow at 1, isDone.
  destruct (decide (Ticket.status t = DONE)) as [Hd|Hd].
  - rewrite (bool_decide_eq_true_2 _ Hd).
    destruct (Ticket.resolvedAt t) as [r|] eqn:Hr; simpl.
    + rewrite decide_True by (split; [done|congruence]). simpl. by rewrite IH.
    + rewrite decide_False by (intros [_ ?]; congruence). done.
  - rewrite (bool_decide_eq_false_2 _ Hd). simpl.
    rewrite decide_False by (intros [? _]; congruence). done.
Qed.

Lemma length_done_rows (l : list Ticket.t) :
  length (List.filter isDone l) = length (Spec.doneAmong l).
Proof.
  unfold Spec.doneAmong. rewrite List_filter_filter. f_equal.
  apply list_filter_iff. intros t. unfold isDone. by rewrite bool_decide_eq_true.
Qed.

Lemma handleVelocityQuery_only_team_sprints `{N : Number}
    (w : World) (q name : string) (tm : Team.t) :
  name ≠ "all" → Spec.resolveTeam w name = Some tm →
  handleVelocityQuery w q name = handleVelocityQuery (Spec.onlySprintsOf tm w) q name.
Proof.
  intros Hall Htm. unfold handleVelocityQuery, findTeamWithSprints, call.
  rewrite (teamName_not_all _ Hall). simpl.
  change (List.find (sameName name) (teams (db w))) with (Spec.resolveTeam w name).
  rewrite Htm. simpl.
  change (recentSprints (Spec.onlySprintsOf tm w)) with (recentSprints w).
  unfold Spec.sprintsOf. rewrite (List_filter_within (ofTeam tm)); [done|].
  intros s. unfold ofTeam. by rewrite String.eqb_eq.
Qed.

Lemma handleBugCountQuery_only_team_tickets `{N : Number}
    (w : World) (q name : string) (tm : Team.t) :
  name ≠ "all" → Spec.resolveTeam w name = Some tm →
  handleBugCountQuery w q name = handleBugCountQuery (Spec.onlyTicketsOf tm w) q name.
Proof.
  intros Hall Htm. unfold handleBugCountQuery, findTeam, call.
  rewrite (teamName_not_all _ Hall). simpl.
  change (List.find (sameName name) (teams (db w))) with (Spec.resolveTeam w name).
  rewrite Htm. simpl. unfold countTickets, call. simpl.
  destruct (failing w team_findFirst); simpl; [done|].
  unfold Spec.ticketsOf.
  rewrite (List_filter_within (countWhere (Some (Team.id tm)) None _)),
    (List_filter_within (countWhere (Some (Team.id tm)) (Some BUG) _)); [done| |];
    intros t; unfold countWhere; rewrite !andb_true_iff, String.eqb_eq; tauto.
Qed.

(** ** Rounding in exact arithmetic *)

Lemma Math_round_near (x : Q) :
  (x - (1 # 2) < inject_Z (Math_round (Number := Exact) x) ∧
   inject_Z (Math_round (Number := Exact) x) <= x + (1 # 2))%Q.
Proof.
  cbn [Math_round Exact]. split.
  - pose proof (Qlt_floor (x + (1 # 2))) as H.
    rewrite inject_Z_plus in H. change (inject_Z 1) with 1%Q in H. lra.
  - apply Qfloor_le.
Qed.

Lemma Math_round_mono (x y : Q) :
  (x <= y)%Q → Math_round (Number := Exact) x <= Math_round (Number := Exact) y.
Proof. intros H. cbn [Math_round Exact]. apply Qfloor_resp_le. lra. Qed.

Lemma Math_round_proper (x y : Q) :
  (x == y)%Q → Math_round (Number := Exact) x = Math_round (Number := Exact) y.
Proof. intros H. cbn [Math_round Exact]. by rewrite H. Qed.

(** [round2 x] is a whole number of hundredths within half a hundredth
    of [x]. *)
Lemma round2_near (x : Q) : (Qabs (round2 (N := Exact) x - x) <= 1 # 200)%Q.
Proof.
  unfold round2. destruct (Math_round_near (x * 100)) as [Hl Hu].
  cbn [div mul ofZ Exact]. change (inject_Z 100) with 100%Q.
  apply Qabs_Qle_condition.
  set (r := inject_Z (Math_round (Number := Exact) (x * 100)%Q)) in *.
  unfold Qdiv. change (/ 100)%Q with (1 # 100)%Q. split; lra.
Qed.

Lemma round2_zero :
  round2 (N := Binary64) (ofZ 0) = ofZ 0 ∧ (round2 (N := Exact) (ofZ 0) == 0)%Q.
Proof. split; reflexivity. Qed.

Lemma ratio_range (k n : nat) :
  (k ≤ n)%nat → (0 < n)%nat →
  (0 <= mul (Number := Exact) (ratio (Z.of_nat k) (Z.of_nat n)) (ofZ 100) <= 100)%Q.
Proof.
  intros Hk Hn. unfold ratio. cbn [div mul ofZ Exact]. change (inject_Z 100) with 100%Q.
  assert (H0 : (0 < inject_Z (Z.of_nat n))%Q).
  { change 0%Q with (inject_Z 0). rewrite <- Zlt_Qlt. lia. }
  assert (H1 : (0 <= inject_Z (Z.of_nat k) / inject_Z (Z.of_nat n))%Q).
  { apply Qle_shift_div_l; [done|]. rewrite Qmult_0_l.
    change 0%Q with (inject_Z 0). rewrite <- Zle_Qle. lia. }
  assert (H2 : (inject_Z (Z.of_nat k) / inject_Z (Z.of_nat n) <= 1)%Q).
  { apply Qle_shift_div_r; [done|]. rewrite Qmult_1_l. rewrite <- Zle_Qle. lia. }
  split; lra.
Qed.

Lemma percentOf_range (k n : nat) :
  (k ≤ n)%nat → 0 <= percentOf (N := Exact) k n <= 100.
Proof.
  intros Hk. unfold percentOf. destruct (Nat.ltb_spec 0 n) as [Hn|Hn]; [|lia].
  destruct (ratio_range k n Hk Hn) as [Hl Hu]. split.
  - change 0 with (Math_round (Number := Exact) 0%Q). by apply Math_round_mono.
  - change 100 with (Math_round (Number := Exact) 100%Q). by apply Math_round_mono.
Qed.

Lemma percentOf_near (k n : nat) :
  (0 < n)%nat →
  (Qabs (inject_Z (percentOf (N := Exact) k n)
         - inject_Z (Z.of_nat k) / inject_Z (Z.of_nat n) * 100) <= 1 # 2)%Q.
Proof.
  intros Hn. unfold percentOf. destruct (Nat.ltb_spec 0 n) as [_|]; [|lia].
  destruct (Math_round_near (mul (Number := Exact) (ratio (Z.of_nat k) (Z.of_nat n)) (ofZ 100)))
    as [Hl Hu].
  unfold ratio in *. cbn [div mul ofZ Exact] in *. change (inject_Z 100) with 100%Q in *.
  apply Qabs_Qle_condition. split; lra.
Qed.

(** ** Rounding on doubles

    The operations of [Binary64] are those of the IEEE 754 specification
    of the prover's floats. A double is [m * 2^e] for a mantissa of at
    most 53 places; an operation yields the exact result brought to 53
    places, which changes it by a relative [eps] at most with each shift. *)

Section Doubles.
Import SpecFloat FloatOps Ieee.

Lemma digits2_pos_spec (p : positive) :
  2 ^ (Z.pos (digits2_pos p) - 1) <= Z.pos p < 2 ^ Z.pos (digits2_pos p).
Proof.
  induction p as [p IH|p IH|]; cbn [digits2_pos].
  - rewrite Pos2Z.inj_succ. replace (Z.succ (Z.pos (digits2_pos p)) - 1)
      with (Z.succ (Z.pos (digits2_pos p) - 1)) by lia.
    rewrite !Z.pow_succ_r by lia. lia.
  - rewrite Pos2Z.inj_succ. replace (Z.succ (Z.pos (digits2_pos p)) - 1)
      with (Z.succ (Z.pos (digits2_pos p) - 1)) by lia.
    rewrite !Z.pow_succ_r by lia. lia.
  - simpl. lia.
Qed.

Lemma digits2_pos_le (p : positive) (d : Z) :
  Z.pos p < 2 ^ d → Z.pos (digits2_pos p) <= d.
Proof.
  intros H. destruct (digits2_pos_spec p) as [Hl _].
  destruct (Z.le_gt_cases (Z.pos (digits2_pos p)) d) as [|Hgt]; [done|].
  assert (2 ^ d <= 2 ^ (Z.pos (digits2_pos p) - 1)).
  { destruct (Z.le_gt_cases 0 d).
    - apply Z.pow_le_mono_r; lia.
    - rewrite (Z.pow_neg_r 2 d) by lia. apply Z.pow_nonneg. lia. }
  lia.
Qed.

Lemma digits2_pos_ge (p : positive) (d : Z) :
  2 ^ (d - 1) <= Z.pos p → d <= Z.pos (digits2_pos p).
Proof.
  intros H. destruct (digits2_pos_spec p) as [_ Hu].
  destruct (Z.le_gt_cases d (Z.pos (digits2_pos p))) as [|Hgt]; [done|].
  assert (2 ^ Z.pos (digits2_pos p) <= 2 ^ (d - 1)) by (apply Z.pow_le_mono_r; lia).
  lia.
Qed.

Lemma shr_1_m (mrs : shr_record) :
  0 <= shr_m mrs → shr_m (shr_1 mrs) = shr_m mrs / 2.
Proof.
  destruct mrs as [m r s]. cbn [shr_m]. intros Hm. unfold shr_1.
  destruct m as [|[p|p|]|p]; cbn [shr_m]; try lia.
  all: try reflexivity.
  - apply (Z.div_unique _ 2 _ 1); lia.
  - apply (Z.div_unique _ 2 _ 0); lia.
Qed.

Lemma iter_shr_1_m (p : positive) (mrs : shr_record) :
  0 <= shr_m mrs → shr_m (iter_pos shr_1 p mrs) = shr_m mrs / 2 ^ Z.pos p.
Proof.
  revert mrs. induction p as [p IH|p IH|]; intros mrs Hm; cbn [iter_pos].
  - assert (H1 : 0 <= shr_m (shr_1 mrs)) by (rewrite shr_1_m by done; apply Z.div_pos; lia).
    assert (H2 : 0 <= shr_m (iter_pos shr_1 p (shr_1 mrs)))
      by (rewrite IH by done; apply Z.div_pos; lia).
    rewrite IH, IH, shr_1_m by done.
    replace (Z.pos p~1) with (1 + Z.pos p + Z.pos p) by lia.
    rewrite !Z.pow_add_r by lia. change (2 ^ 1) with 2.
    assert (0 < 2 ^ Z.pos p) by (apply Z.pow_pos_nonneg; lia).
    rewrite !Z.div_div by lia. f_equal. ring.
  - assert (H2 : 0 <= shr_m (iter_pos shr_1 p mrs))
      by (rewrite IH by done; apply Z.div_pos; lia).
    rewrite IH, IH by done.
    replace (Z.pos p~0) with (Z.pos p + Z.pos p) by lia.
    rewrite !Z.pow_add_r by lia.
    assert (0 < 2 ^ Z.pos p) by (apply Z.pow_pos_nonneg; lia).
    rewrite !Z.div_div by lia. reflexivity.
  - by apply shr_1_m.
Qed.

(** Shifting right by [n] places divides the mantissa by [2^n] and adds
    [n] to the exponent; a shift by no place leaves the record alone. *)
Lemma shr_spec (mrs : shr_record) (e n : Z) :
  0 <= shr_m mrs →
  shr_m (shr mrs e n).1 = shr_m mrs / 2 ^ Z.max 0 n ∧
  (shr mrs e n).2 = e + Z.max 0 n ∧
  (n <= 0 → (shr mrs e n).1 = mrs).
Proof.
  intros Hm. destruct n as [|p|p]; cbn [shr fst snd].
  - rewrite Z.max_l by lia. rewrite Z.div_1_r. split_and!; [done|lia|done].
  - rewrite Z.max_r by lia. split_and!; [by apply iter_shr_1_m|done|lia].
  - rewrite Z.max_l by lia. rewrite Z.div_1_r. split_and!; [done|lia|done].
Qed.

Lemma shr_m_of_loc (m : Z) (l : location) : shr_m (shr_record_of_loc m l) = m.
Proof. by destruct l as [|[]]. Qed.

Lemma loc_of_shr_record_of_loc (m : Z) (l : location) :
  loc_of_shr_record (shr_record_of_loc m l) = l.
Proof. by destruct l as [|[]]. Qed.

Lemma round_nearest_even_range (m : Z) (l : location) :
  m <= round_nearest_even m l <= m + 1.
Proof. destruct l as [|[]]; cbn [round_nearest_even]; try destruct (Z.even m); lia. Qed.

Lemma pow2_pos (e : Z) : (0 < 2 ^ e)%Q.
Proof. apply Qpower_0_lt. reflexivity. Qed.

Lemma value_scale (m e n : Z) : 0 <= n → (value (m * 2 ^ n) e == value m (e + n))%Q.
Proof.
  intros Hn. unfold value. rewrite inject_Z_mult, Zpower_Qpower by done.
  rewrite Qpower_plus by discriminate. change (inject_Z 2) with 2%Q. ring.
Qed.

Lemma value_le (m m' e : Z) : m <= m' → (value m e <= value m' e)%Q.
Proof.
  intros H. unfold value. apply Qmult_le_compat_r.
  - by rewrite <- Zle_Qle.
  - apply Qlt_le_weak, pow2_pos.
Qed.

Lemma value_lt (m m' e : Z) : m < m' → (value m e < value m' e)%Q.
Proof.
  intros H. unfold value. apply Qmult_lt_compat_r.
  - apply pow2_pos.
  - by rewrite <- Zlt_Qlt.
Qed.

Lemma value_plus (a b e : Z) : (value (a + b) e == value a e + value b e)%Q.
Proof. unfold value. rewrite inject_Z_plus. ring. Qed.

Lemma value_mult (a b e f : Z) : (value (a * b) (e + f) == value a e * value b f)%Q.
Proof.
  unfold value. rewrite inject_Z_mult, Qpower_plus by discriminate. ring.
Qed.

Lemma value_nonneg (m e : Z) : 0 <= m → (0 <= value m e)%Q.
Proof.
  intros H. unfold value. apply Qmult_le_0_compat.
  - change 0%Q with (inject_Z 0). by rewrite <- Zle_Qle.
  - apply Qlt_le_weak, pow2_pos.
Qed.

Lemma value_pos (m e : Z) : 0 < m → (0 < value m e)%Q.
Proof.
  intros H. unfold value. apply Qmult_lt_0_compat.
  - change 0%Q with (inject_Z 0). by rewrite <- Zlt_Qlt.
  - apply pow2_pos.
Qed.

Lemma value_integer (z : Z) : (value z 0 == inject_Z z)%Q.
Proof. unfold value. change (2 ^ 0)%Q with 1%Q. ring. Qed.

(** [2^n] units are at most [eps] of [m] when [m] has 52 places more. *)
Lemma value_eps (m n e : Z) :
  0 <= n → 2 ^ n * 2 ^ 52 <= m → (value (2 ^ n) e <= value m e * eps)%Q.
Proof.
  intros Hn H. apply (value_le _ _ e) in H.
  assert (Hs : (value (2 ^ n * 2 ^ 52) e == value (2 ^ n) e * 4503599627370496)%Q).
  { unfold value. rewrite inject_Z_mult. change (inject_Z (2 ^ 52)) with 4503599627370496%Q.
    ring. }
  rewrite Hs in H. unfold eps.
  set (a := value (2 ^ n) e) in *. set (b := value m e) in *. lra.
Qed.

Local Abbreviation fexp := (SpecFloat.fexp prec emax).
Local Abbreviation emin := (-1074).

Lemma excess_digits (m e : Z) :
  0 < m → emin <= e → excess m e = Z.max 0 (Zdigits2 m - 53).
Proof.
  intros Hm He. unfold excess, SpecFloat.fexp, SpecFloat.emin.
  change (3 - emax - prec) with (-1074). change prec with 53. lia.
Qed.

Lemma excess_spec (m e : Z) :
  0 < m → emin <= e →
  let n := excess m e in
  0 <= n ∧ (m / 2 ^ n) * 2 ^ n <= m < (m / 2 ^ n + 1) * 2 ^ n ∧
  1 <= m / 2 ^ n ∧ (0 < n → 2 ^ n * 2 ^ 52 <= m).
Proof.
  intros Hm He n. unfold n. rewrite excess_digits by done.
  destruct m as [|p|p]; try lia. cbn [Zdigits2].
  destruct (digits2_pos_spec p) as [Hl Hu].
  set (d := Z.pos (digits2_pos p)) in *.
  set (k := Z.max 0 (d - 53)).
  assert (Hk : 0 <= k) by lia.
  assert (Hpow : 0 < 2 ^ k) by (apply Z.pow_pos_nonneg; lia).
  assert (Hle : 2 ^ k <= Z.pos p).
  { destruct (Z.le_gt_cases d 53).
    - replace k with 0 by lia. simpl. lia.
    - replace k with (d - 53) by lia.
      assert (2 ^ (d - 53) <= 2 ^ (d - 1)) by (apply Z.pow_le_mono_r; lia). lia. }
  split; [done|]. split; [|split].
  - pose proof (Z.mul_div_le (Z.pos p) (2 ^ k) Hpow).
    pose proof (Z.mul_succ_div_gt (Z.pos p) (2 ^ k) Hpow). lia.
  - apply Z.div_le_lower_bound; lia.
  - intros Hpos. replace k with (d - 53) by lia.
    rewrite <- Z.pow_add_r by lia. by replace (d - 53 + 52) with (d - 1) by lia.
Qed.

Lemma shr_fexp_spec (m e : Z) (l : location) :
  0 < m → emin <= e →
  let n := excess m e in
  shr_m (shr_fexp prec emax m e l).1 = m / 2 ^ n ∧
  (shr_fexp prec emax m e l).2 = e + n ∧
  (n = 0 → loc_of_shr_record (shr_fexp prec emax m e l).1 = l).
Proof.
  intros Hm He n. unfold shr_fexp.
  destruct (shr_spec (shr_record_of_loc m l) e (fexp (Zdigits2 m + e) - e))
    as (H1 & H2 & H3).
  { rewrite shr_m_of_loc. lia. }
  rewrite shr_m_of_loc in H1. fold (excess m e) in H1, H2. fold n in H1, H2.
  split; [done|]. split; [done|].
  intros Hn. rewrite H3.
  - apply loc_of_shr_record_of_loc.
  - unfold n, excess in Hn. lia.
Qed.

(** One right shift to the canonical exponent keeps the value up to a
    relative [eps]. *)
Lemma value_excess (m e : Z) :
  0 < m → emin <= e →
  let n := excess m e in
  (value m e * (1 - eps) <= value (m / 2 ^ n) (e + n) <= value m e)%Q ∧
  (0 < n → (value (m / 2 ^ n + 1) (e + n) <= value m e * (1 + eps))%Q).
Proof.
  intros Hm He n. destruct (excess_spec m e Hm He) as (Hn & [Hlo Hhi] & Hone & Heps).
  fold n in Hn, Hlo, Hhi, Hone, Heps.
  assert (Hup : (value (m / 2 ^ n) (e + n) <= value m e)%Q).
  { rewrite <- value_scale by done. by apply value_le. }
  assert (Hnext : (value m e <= value (m / 2 ^ n + 1) (e + n))%Q).
  { rewrite <- value_scale by done. apply value_le. lia. }
  assert (Hsplit : (value (m / 2 ^ n + 1) (e + n)
                    == value (m / 2 ^ n) (e + n) + value (2 ^ n) e)%Q).
  { rewrite value_plus. rewrite <- (value_scale 1) by done. by rewrite Z.mul_1_l. }
  pose proof (value_pos m e Hm) as Hpos.
  destruct (Z.eq_dec n 0) as [Hz|Hnz].
  - split; [|lia]. split; [|done].
    rewrite Hz, Z.add_0_r. change (2 ^ 0) with 1. rewrite Z.div_1_r.
    unfold eps. set (v := value m e) in *. lra.
  - pose proof (value_eps m n e Hn (Heps ltac:(lia))) as He'.
    set (v := value m e) in *. set (a := value (m / 2 ^ n) (e + n)) in *.
    set (b := value (m / 2 ^ n + 1) (e + n)) in *. set (c := value (2 ^ n) e) in *.
    split; [split|]; [lra|done|intros _; lra].
Qed.

Lemma round_nearest_even_slack (m : Z) (l : location) :
  m <= round_nearest_even m l <= m + slack l.
Proof. destruct l as [|[]]; cbn [round_nearest_even slack]; try destruct (Z.even m); lia. Qed.

Lemma Zdigits2_le (m : Z) (d : Z) : 0 < m → m < 2 ^ d → Zdigits2 m <= d.
Proof. destruct m; try lia. intros _. apply digits2_pos_le. Qed.

Lemma Zdigits2_spec (m : Z) : 0 < m → 2 ^ (Zdigits2 m - 1) <= m < 2 ^ Zdigits2 m.
Proof. destruct m; try lia. intros _. apply digits2_pos_spec. Qed.

Lemma Zdigits2_pos (m : Z) : 0 < m → 0 < Zdigits2 m.
Proof. destruct m; simpl; lia. Qed.

(** Rounding a positive mantissa with a location to a double: the result
    is finite when the exponent leaves room, its exponent is no smaller,
    and its value is that of the mantissa up to a relative [eps] for each
    of the two shifts, and up to one unit upwards for the location. *)
Lemma binary_round_aux_bounds (sx : bool) (mx ex : Z) (lx : location) :
  0 < mx → emin <= ex → ex + 2 * Zdigits2 mx <= 971 →
  ∃ m e, binary_round_aux prec emax sx mx ex lx = S754_finite sx m e ∧
    ex <= e ∧
    (value mx ex * (1 - eps) * (1 - eps) <= value (Z.pos m) e)%Q ∧
    (value (Z.pos m) e <= value (mx + slack lx) ex * (1 + eps))%Q.
Proof.
  intros Hmx Hex Hroom. unfold binary_round_aux.
  destruct (shr_fexp_spec mx ex lx Hmx Hex) as (Hm1 & He1 & Hl1).
  destruct (excess_spec mx ex Hmx Hex) as (Hn1 & _ & Hone1 & _).
  destruct (value_excess mx ex Hmx Hex) as ([Hv1l Hv1u] & Hv1n).
  pose proof (excess_digits mx ex Hmx Hex) as Hd1.
  destruct (shr_fexp prec emax mx ex lx) as [mrs1 e1]. cbn [fst snd] in Hm1, He1, Hl1.
  set (n1 := excess mx ex) in *.
  set (m1 := round_nearest_even (shr_m mrs1) (loc_of_shr_record mrs1)).
  pose proof (round_nearest_even_range (shr_m mrs1) (loc_of_shr_record mrs1)) as Hr.
  fold m1 in Hr. rewrite Hm1 in Hr.
  assert (Hm1pos : 0 < m1) by lia.
  assert (He1min : emin <= e1) by lia.
  destruct (shr_fexp_spec m1 e1 loc_Exact Hm1pos He1min) as (Hm2 & He2 & _).
  destruct (excess_spec m1 e1 Hm1pos He1min) as (Hn2 & _ & Hone2 & _).
  destruct (value_excess m1 e1 Hm1pos He1min) as ([Hv2l Hv2u] & _).
  pose proof (excess_digits m1 e1 Hm1pos He1min) as Hd2.
  destruct (shr_fexp prec emax m1 e1 loc_Exact) as [mrs2 e2]. cbn [fst snd] in Hm2, He2.
  set (n2 := excess m1 e1) in *.
  destruct (Zdigits2_spec mx Hmx) as [_ Hdu].
  pose proof (Zdigits2_pos mx Hmx) as Hdpos.
  assert (Hdig : Zdigits2 m1 <= Zdigits2 mx + 1).
  { apply Zdigits2_le; [done|]. rewrite Z.pow_add_r by lia. change (2 ^ 1) with 2.
    assert (mx / 2 ^ n1 <= mx).
    { apply Z.div_le_upper_bound; [apply Z.pow_pos_nonneg; lia|].
      assert (1 <= 2 ^ n1) by (apply (Z.pow_le_mono_r 2 0 n1); lia). nia. }
    lia. }
  rewrite Hm2. destruct (m1 / 2 ^ n2) as [|m|m] eqn:Hq; try lia.
  assert (Hfit : (e2 <=? emax - prec)%Z = true).
  { apply Z.leb_le. change (emax - prec) with 971. lia. }
  rewrite Hfit. exists m, e2. split; [done|]. split; [lia|].
  rewrite He2.
  assert (Hmid : (value mx ex * (1 - eps) <= value m1 e1
                  ∧ value m1 e1 <= value (mx + slack lx) ex * (1 + eps))%Q).
  { rewrite He1. split.
    - apply Qle_trans with (1 := Hv1l). apply value_le. lia.
    - pose proof (value_pos mx ex Hmx) as Hpos.
      assert (HU : (value mx ex <= value (mx + slack lx) ex)%Q).
      { apply value_le. destruct lx; simpl; lia. }
      destruct (Z.eq_dec n1 0) as [Hz|Hnz].
      + pose proof (round_nearest_even_slack (shr_m mrs1) (loc_of_shr_record mrs1)) as Hs.
        fold m1 in Hs. rewrite Hl1, Hm1 in Hs by done.
        rewrite Hz in *. change (2 ^ 0) with 1 in Hs. rewrite Z.div_1_r in Hs.
        rewrite Z.add_0_r.
        assert (Hle : (value m1 ex <= value (mx + slack lx) ex)%Q) by (apply value_le; lia).
        unfold eps. set (u := value (mx + slack lx) ex) in *. set (v := value mx ex) in *.
        set (a := value m1 ex) in *. lra.
      + assert (Hle : (value m1 (ex + n1) <= value (mx / 2 ^ n1 + 1) (ex + n1))%Q)
          by (apply value_le; lia).
        specialize (Hv1n ltac:(lia)).
        unfold eps in *. set (u := value (mx + slack lx) ex) in *. set (v := value mx ex) in *.
        set (a := value m1 (ex + n1)) in *. set (b := value (mx / 2 ^ n1 + 1) (ex + n1)) in *.
        lra. }
  destruct Hmid as [Hml Hmu].
  pose proof (value_pos m1 e1 Hm1pos) as Hpos1.
  unfold eps in *.
  set (u := value (mx + slack lx) ex) in *. set (v := value mx ex) in *.
  set (a := value m1 e1) in *. set (r := value (Z.pos m) (e1 + n2)) in *.
  split; lra.
Qed.

Lemma Prim2SF_doubleOfZ (z : Z) :
  0 <= z < 2 ^ 63 → Prim2SF (doubleOfZ z) = binary_normalize prec emax z 0 false.
Proof.
  intros Hz. unfold doubleOfZ.
  pose proof (FloatAxioms.of_uint63_spec (Uint63Axioms.of_Z z)) as H.
  rewrite Uint63.of_Z_spec in H.
  rewrite Z.mod_small in H by (change Uint63Axioms.wB with (2 ^ 63); lia).
  rewrite <- H. by rewrite FloatAxioms.SF2Prim_Prim2SF.
Qed.

Lemma iter_xO_value (p k : positive) :
  Z.pos (Pos.iter xO p k) = Z.pos p * 2 ^ Z.pos k.
Proof.
  induction k as [|k IH] using Pos.peano_ind.
  - simpl. lia.
  - rewrite Pos.iter_succ, Pos2Z.inj_xO, IH, Pos2Z.inj_succ, Z.pow_succ_r by lia. ring.
Qed.

Lemma iter_xO_digits (p k : positive) :
  Z.pos (digits2_pos (Pos.iter xO p k)) = Z.pos (digits2_pos p) + Z.pos k.
Proof.
  induction k as [|k IH] using Pos.peano_ind.
  - simpl. lia.
  - rewrite Pos.iter_succ. cbn [digits2_pos]. rewrite Pos2Z.inj_succ, IH. lia.
Qed.

(** A mantissa already at its canonical exponent is kept as it is. *)
Lemma binary_round_aux_exact (sx : bool) (m : positive) (e : Z) :
  excess (Z.pos m) e = 0 → e <= 971 →
  binary_round_aux prec emax sx (Z.pos m) e loc_Exact = S754_finite sx m e.
Proof.
  intros Hex He. unfold binary_round_aux, shr_fexp. unfold excess in Hex.
  set (n := SpecFloat.fexp prec emax (Zdigits2 (Z.pos m) + e) - e) in *.
  assert (Hn : n <= 0) by lia.
  assert (Hshr : ∀ mrs, shr mrs e n = (mrs, e)).
  { intros mrs. unfold shr. destruct n; try done; lia. }
  rewrite Hshr. cbn [shr_record_of_loc shr_m loc_of_shr_record round_nearest_even].
  fold n. rewrite Hshr. cbn [shr_m].
  assert (Hfit : (e <=? emax - prec)%Z = true) by (apply Z.leb_le; change (emax - prec) with 971; lia).
  by rewrite Hfit.
Qed.

(** A positive integer below [2^53] is a double: its mantissa has 53
    places, its exponent lies between -52 and 0, and its value is the
    integer. *)
Lemma doubleOfZ_exact (z : Z) :
  0 < z < 2 ^ 53 →
  ∃ m e, Prim2SF (doubleOfZ z) = S754_finite false m e ∧
    2 ^ 52 <= Z.pos m < 2 ^ 53 ∧ -52 <= e <= 0 ∧ (value (Z.pos m) e == inject_Z z)%Q.
Proof.
  intros Hz. rewrite Prim2SF_doubleOfZ by lia.
  destruct z as [|p|p]; try lia. cbn [binary_normalize]. unfold binary_round, shl_align.
  destruct (digits2_pos_spec p) as [Hl Hu].
  assert (Hd : Z.pos (digits2_pos p) <= 53) by (apply digits2_pos_le; lia).
  set (d := Z.pos (digits2_pos p)) in *.
  replace (SpecFloat.fexp prec emax (d + 0)) with (d - 53)
    by (unfold SpecFloat.fexp, SpecFloat.emin; change prec with 53; change emax with 1024; lia).
  destruct (d - 53 - 0) as [|k|k] eqn:Hk; try lia.
  - assert (Hd53 : d = 53) by lia.
    exists p, 0. split.
    + apply binary_round_aux_exact; [|lia].
      rewrite excess_digits by lia. cbn [Zdigits2]. fold d. lia.
    + rewrite Hd53 in Hl. change (2 ^ (53 - 1)) with (2 ^ 52) in Hl.
      split; [lia|]. split; [lia|]. apply value_integer.
  - exists (Pos.iter xO p k), (d - 53). split.
    + apply binary_round_aux_exact; [|lia].
      rewrite excess_digits by lia. cbn [Zdigits2]. rewrite iter_xO_digits. fold d. lia.
    + rewrite iter_xO_value.
      assert (Hkd : Z.pos k = 53 - d) by lia. rewrite Hkd.
      split; [|split; [lia|]].
      * assert (E52 : 2 ^ 52 = 2 ^ (d - 1) * 2 ^ (53 - d))
          by (rewrite <- Z.pow_add_r by lia; f_equal; lia).
        assert (E53 : 2 ^ 53 = 2 ^ d * 2 ^ (53 - d))
          by (rewrite <- Z.pow_add_r by lia; f_equal; lia).
        assert (0 < 2 ^ (53 - d)) by (apply Z.pow_pos_nonneg; lia).
        rewrite E52, E53.
        split; [apply Z.mul_le_mono_nonneg_r; lia|apply Z.mul_lt_mono_pos_r; lia].
      * rewrite value_scale by lia. replace (d - 53 + (53 - d)) with 0 by lia.
        apply value_integer.
Qed.

Lemma digits_of_normal (m : positive) :
  2 ^ 52 <= Z.pos m < 2 ^ 53 → Z.pos (digits2_pos m) = 53.
Proof.
  intros [Hl Hu]. apply Z.le_antisymm.
  - by apply digits2_pos_le.
  - by apply digits2_pos_ge.
Qed.

(** What a finite double is made of: at most 53 places, exactly 53
    above the smallest exponent. *)
Lemma finite_double_digits (x : PrimFloat.float) (s : bool) (m : positive) (e : Z) :
  Prim2SF x = S754_finite s m e →
  Z.pos (digits2_pos m) <= 53 ∧ -1074 <= e ∧ (-1074 < e → 2 ^ 52 <= Z.pos m < 2 ^ 53).
Proof.
  intros Hx. pose proof (FloatAxioms.Prim2SF_valid x) as Hv. rewrite Hx in Hv.
  cbn [valid_binary] in Hv. unfold bounded, canonical_mantissa in Hv.
  apply andb_true_iff in Hv as [Hc _]. apply Z.eqb_eq in Hc.
  unfold SpecFloat.fexp, SpecFloat.emin in Hc.
  change prec with 53 in Hc. change emax with 1024 in Hc.
  split; [lia|]. split; [lia|]. intros He.
  assert (Hd : Z.pos (digits2_pos m) = 53) by lia.
  destruct (digits2_pos_spec m) as [Hl Hu]. rewrite Hd in Hl, Hu.
  change (2 ^ (53 - 1)) with (2 ^ 52) in Hl. lia.
Qed.

(** The quotient of two positive doubles with full mantissas: finite,
    positive, and the exact quotient up to a relative [eps] for the
    truncation and for each rounding shift. *)
Lemma div_bounds (x y : PrimFloat.float) (m1 m2 : positive) (e1 e2 : Z) :
  Prim2SF x = S754_finite false m1 e1 →
  Prim2SF y = S754_finite false m2 e2 →
  2 ^ 52 <= Z.pos m1 < 2 ^ 53 → 2 ^ 52 <= Z.pos m2 < 2 ^ 53 →
  -900 <= e1 - e2 <= 900 →
  ∃ m e, Prim2SF (PrimFloat.div x y) = S754_finite false m e ∧
    e1 - e2 - 53 <= e ∧
    (value (Z.pos m1) e1 / value (Z.pos m2) e2 * (1 - eps) * (1 - eps) * (1 - eps)
       <= value (Z.pos m) e)%Q ∧
    (value (Z.pos m) e
       <= value (Z.pos m1) e1 / value (Z.pos m2) e2 * (1 + eps) * (1 + eps))%Q.
Proof.
  intros Hx Hy Hm1 Hm2 He.
  rewrite FloatAxioms.div_spec, Hx, Hy. unfold FloatAxioms.SF64div, SFdiv, SFdiv_core_binary.
  cbn [Zdigits2 xorb]. rewrite !digits_of_normal by done.
  replace (SpecFloat.fexp prec emax (53 + e1 - (53 + e2))) with (e1 - e2 - 53)
    by (unfold SpecFloat.fexp, SpecFloat.emin; change prec with 53; change emax with 1024; lia).
  rewrite Z.min_l by lia.
  replace (e1 - e2 - (e1 - e2 - 53)) with 53 by lia.
  rewrite Z.shiftl_mul_pow2 by lia.
  set (e' := e1 - e2 - 53).
  pose proof (Z.div_mod (Z.pos m1 * 2 ^ 53) (Z.pos m2) ltac:(lia)) as Hdm.
  pose proof (Z.mod_pos_bound (Z.pos m1 * 2 ^ 53) (Z.pos m2) ltac:(lia)) as Hmod.
  unfold Z.div, Z.modulo in Hdm, Hmod.
  destruct (Z.div_eucl (Z.pos m1 * 2 ^ 53) (Z.pos m2)) as [q r].
  assert (Hq : 2 ^ 52 <= q < 2 ^ 54).
  { change (2 ^ 54) with (2 * 2 ^ 53). nia. }
  assert (Hqpos : 0 < q) by lia.
  assert (Hdq : Zdigits2 q <= 54) by (apply Zdigits2_le; lia).
  destruct (binary_round_aux_bounds false q e' (new_location (Z.pos m2) r))
    as (m & e & Hres & Hee & Hlo & Hhi); [done|unfold e'; lia|unfold e'; lia|].
  exists m, e. split; [done|]. split; [done|].
  set (t := (value (Z.pos m1) e1 / value (Z.pos m2) e2)%Q).
  pose proof (value_pos (Z.pos m2) e2 ltac:(lia)) as Hv2.
  pose proof (value_pos (Z.pos m1) e1 ltac:(lia)) as Hv1.
  assert (Hnum : (value (Z.pos m1) e1 == value (Z.pos m1 * 2 ^ 53) (e' + e2))%Q).
  { rewrite value_scale by lia. replace (e' + e2 + 53) with e1 by (unfold e'; lia). reflexivity. }
  assert (Ht1 : (value q e' <= t)%Q).
  { unfold t. apply Qle_shift_div_l; [done|]. rewrite <- value_mult, Hnum.
    apply value_le. lia. }
  assert (Ht2 : (t <= value (q + 1) e')%Q).
  { unfold t. apply Qle_shift_div_r; [done|]. rewrite <- value_mult, Hnum.
    apply value_le. lia. }
  assert (Hone : (value 1 e' <= value q e' * eps)%Q).
  { apply (value_eps q 0 e'); lia. }
  assert (Hsl : (value (q + slack (new_location (Z.pos m2) r)) e' <= value q e' + value 1 e')%Q).
  { rewrite <- value_plus. apply value_le. destruct (new_location _ _); simpl; lia. }
  rewrite value_plus in Ht2.
  pose proof (value_pos q e' Hqpos) as Hapos.
  assert (Htpos : (0 < t)%Q).
  { unfold t. apply Qlt_shift_div_l; [done|]. by rewrite Qmult_0_l. }
  unfold eps in *.
  set (a := value q e') in *. set (b := value 1 e') in *.
  set (v := value (Z.pos m) e) in *.
  set (u := value (q + slack (new_location (Z.pos m2) r)) e') in *.
  clearbody a b v u t.
  split.
  - apply Qle_trans with (a * (1 - (1 # 4503599627370496)) * (1 - (1 # 4503599627370496)))%Q;
      [|done].
    assert (t * (1 - (1 # 4503599627370496)) <= a)%Q by lra.
    lra.
  - lra.
Qed.

(** The product of two positive doubles: finite when the exponents leave
    room, and the exact product up to a relative [eps] per shift. *)
Lemma mul_bounds (x y : PrimFloat.float) (m1 m2 : positive) (e1 e2 : Z) :
  Prim2SF x = S754_finite false m1 e1 →
  Prim2SF y = S754_finite false m2 e2 →
  -1074 <= e1 + e2 <= 700 →
  ∃ m e, Prim2SF (PrimFloat.mul x y) = S754_finite false m e ∧
    e1 + e2 <= e ∧
    (value (Z.pos m1) e1 * value (Z.pos m2) e2 * (1 - eps) * (1 - eps)
       <= value (Z.pos m) e)%Q ∧
    (value (Z.pos m) e <= value (Z.pos m1) e1 * value (Z.pos m2) e2 * (1 + eps))%Q.
Proof.
  intros Hx Hy He.
  destruct (finite_double_digits x _ _ _ Hx) as (Hd1 & _ & _).
  destruct (finite_double_digits y _ _ _ Hy) as (Hd2 & _ & _).
  rewrite FloatAxioms.mul_spec, Hx, Hy. unfold FloatAxioms.SF64mul, SFmul. cbn [xorb].
  destruct (digits2_pos_spec m1) as [_ Hu1]. destruct (digits2_pos_spec m2) as [_ Hu2].
  assert (Hprod : Z.pos (m1 * m2) < 2 ^ 106).
  { rewrite Pos2Z.inj_mul. change (2 ^ 106) with (2 ^ 53 * 2 ^ 53).
    assert (2 ^ Z.pos (digits2_pos m1) <= 2 ^ 53) by (apply Z.pow_le_mono_r; lia).
    assert (2 ^ Z.pos (digits2_pos m2) <= 2 ^ 53) by (apply Z.pow_le_mono_r; lia).
    nia. }
  assert (Hdp : Zdigits2 (Z.pos (m1 * m2)) <= 106) by (apply Zdigits2_le; lia).
  destruct (binary_round_aux_bounds false (Z.pos (m1 * m2)) (e1 + e2) loc_Exact)
    as (m & e & Hres & Hee & Hlo & Hhi); [done|lia|lia|].
  exists m, e. split; [done|]. split; [done|].
  cbn [slack] in Hhi. rewrite Z.add_0_r in Hhi.
  rewrite Pos2Z.inj_mul, value_mult in Hlo, Hhi.
  by split.
Qed.

Lemma Qfloor_half (z : Z) : Qfloor (inject_Z z + (1 # 2)) = z.
Proof.
  pose proof (Qfloor_le (inject_Z z + (1 # 2))) as Hl.
  pose proof (Qlt_floor (inject_Z z + (1 # 2))) as Hu.
  set (f := Qfloor (inject_Z z + (1 # 2))) in *.
  assert (H1 : (inject_Z f < inject_Z (z + 1))%Q).
  { rewrite inject_Z_plus. change (inject_Z 1) with 1%Q. lra. }
  assert (H2 : (inject_Z z < inject_Z (f + 1))%Q) by lra.
  rewrite <- Zlt_Qlt in H1, H2. lia.
Qed.

(** [Math.round] of a positive double is the floor of its value plus
    one half. *)
Lemma roundDouble_finite (x : PrimFloat.float) (m : positive) (e : Z) :
  Prim2SF x = S754_finite false m e →
  roundDouble x = Qfloor (value (Z.pos m) e + (1 # 2)).
Proof.
  intros Hx. unfold roundDouble. rewrite Hx.
  destruct (Z.leb_spec 0 e) as [He|He].
  - rewrite <- (Qfloor_half (Z.pos m * 2 ^ e)). apply Qfloor_comp.
    rewrite <- value_integer, value_scale by done. by rewrite Z.add_0_l.
  - rewrite Zdiv_Qdiv. apply Qfloor_comp. unfold value.
    assert (Hp : (2 ^ e == / inject_Z (2 ^ (- e)))%Q).
    { rewrite Zpower_Qpower by lia. rewrite <- Qpower_opp. by rewrite Z.opp_involutive. }
    assert (Hs : (inject_Z (2 ^ (1 - e)) == 2 * inject_Z (2 ^ (- e)))%Q).
    { replace (1 - e) with (Z.succ (- e)) by lia. rewrite Z.pow_succ_r by lia.
      by rewrite inject_Z_mult. }
    assert (Hpos : (0 < inject_Z (2 ^ (- e)))%Q).
    { change 0%Q with (inject_Z 0). rewrite <- Zlt_Qlt. apply Z.pow_pos_nonneg; lia. }
    rewrite Hp, Hs, inject_Z_plus, inject_Z_mult. change (inject_Z 2) with 2%Q.
    set (P := inject_Z (2 ^ (- e))) in *. field. lra.
Qed.

Lemma Prim2SF_hundred : Prim2SF (doubleOfZ 100) = S754_finite false 7036874417766400 (-46).
Proof. reflexivity. Qed.

Lemma value_hundred : (value 7036874417766400 (-46) == 100)%Q.
Proof. reflexivity. Qed.

(** [Math.round((a / b) * 100)] as the runtime computes it, for positive
    integers below [2^53]: the floor of one half more than a double whose
    value is the exact [a / b * 100] up to a relative error of a few
    [eps]. *)
Lemma scaled_ratio_double (a b : Z) :
  0 < a < 2 ^ 53 → 0 < b < 2 ^ 53 →
  ∃ v : Q,
    roundDouble (PrimFloat.mul (PrimFloat.div (doubleOfZ a) (doubleOfZ b)) (doubleOfZ 100))
    = Qfloor (v + (1 # 2)) ∧
    let p := (inject_Z a / inject_Z b * 100)%Q in
    (p * (1 - eps) * (1 - eps) * (1 - eps) * (1 - eps) * (1 - eps) <= v)%Q ∧
    (v <= p * (1 + eps) * (1 + eps) * (1 + eps))%Q.
Proof.
  intros Ha Hb.
  destruct (doubleOfZ_exact a Ha) as (ma & ea & Hda & Hma & Hea & Hva).
  destruct (doubleOfZ_exact b Hb) as (mb & eb & Hdb & Hmb & Heb & Hvb).
  destruct (div_bounds _ _ _ _ _ _ Hda Hdb Hma Hmb) as (mq & eq & Hdq & Heq & Hql & Hqu); [lia|].
  assert (Hbpos : (0 < inject_Z b)%Q) by (change 0%Q with (inject_Z 0); rewrite <- Zlt_Qlt; lia).
  assert (Hapos : (0 < inject_Z a)%Q) by (change 0%Q with (inject_Z 0); rewrite <- Zlt_Qlt; lia).
  assert (Hequ : eq <= 60).
  { destruct (Z.le_gt_cases eq 60) as [|Hgt]; [done|]. exfalso.
    assert (H1 : (value (Z.pos ma) ea / value (Z.pos mb) eb <= 9007199254740992)%Q).
    { rewrite Hva, Hvb. apply Qle_shift_div_r; [done|].
      change 9007199254740992%Q with (inject_Z (2 ^ 53)).
      rewrite <- inject_Z_mult, <- Zle_Qle. nia. }
    assert (H2 : (2305843009213693952 <= value (Z.pos mq) eq)%Q).
    { unfold value. change 2305843009213693952%Q with (1 * 2 ^ 61)%Q.
      apply Qmult_le_compat_nonneg.
      - split; [lra|]. change 1%Q with (inject_Z 1). rewrite <- Zle_Qle. lia.
      - split; [apply Qlt_le_weak, pow2_pos|]. apply Qpower_le_compat_l; [lia|lra]. }
    unfold eps in Hqu. set (t := (value (Z.pos ma) ea / value (Z.pos mb) eb)%Q) in *.
    set (v := value (Z.pos mq) eq) in *. clearbody t v. clear -H1 H2 Hqu. lra. }
  destruct (mul_bounds _ _ _ _ _ _ Hdq Prim2SF_hundred) as (m & e & Hd & _ & Hl & Hu); [lia|].
  exists (value (Z.pos m) e). split; [by apply roundDouble_finite|].
  rewrite value_hundred, Hva, Hvb in *.
  assert (Hpos : (0 <= inject_Z a / inject_Z b)%Q).
  { apply Qle_shift_div_l; [done|]. rewrite Qmult_0_l. lra. }
  unfold eps in *.
  set (t := (inject_Z a / inject_Z b)%Q) in *.
  set (x := value (Z.pos mq) eq) in *. set (y := value (Z.pos m) e) in *.
  clearbody t x y. cbv zeta. clear -Hql Hqu Hl Hu Hpos. split.
  - apply Qle_trans with (2 := Hl).
    assert (H3 : (t * (1 - (1 # 4503599627370496)) * (1 - (1 # 4503599627370496))
                  * (1 - (1 # 4503599627370496)) * 100 <= x * 100)%Q) by lra.
    lra.
  - apply Qle_trans with (1 := Hu). lra.
Qed.

Lemma scaled_ratio_double_of_none (b : Z) :
  0 < b < 2 ^ 53 →
  roundDouble (PrimFloat.mul (PrimFloat.div (doubleOfZ 0) (doubleOfZ b)) (doubleOfZ 100)) = 0.
Proof.
  intros Hb. destruct (doubleOfZ_exact b Hb) as (mb & eb & Hdb & _).
  unfold roundDouble.
  rewrite FloatAxioms.mul_spec, FloatAxioms.div_spec, Hdb, Prim2SF_hundred.
  reflexivity.
Qed.

(** [Math.round((a / b) * 100)] on doubles, for [0 <= a <= b < 2^53], is
    an integer between 0 and 100. *)
Lemma percentage_double_range (a b : Z) :
  0 <= a <= b → 0 < b < 2 ^ 53 →
  0 <= roundDouble (PrimFloat.mul (PrimFloat.div (doubleOfZ a) (doubleOfZ b)) (doubleOfZ 100))
  <= 100.
Proof.
  intros Ha Hb. destruct (Z.eq_dec a 0) as [->|Hne].
  - rewrite scaled_ratio_double_of_none by done. lia.
  - destruct (scaled_ratio_double a b) as (v & -> & Hl & Hu); [lia|done|].
    cbv zeta in Hl, Hu.
    assert (Hbpos : (0 < inject_Z b)%Q)
      by (change 0%Q with (inject_Z 0); rewrite <- Zlt_Qlt; lia).
    assert (Hp0 : (0 <= inject_Z a / inject_Z b)%Q).
    { apply Qle_shift_div_l; [done|]. rewrite Qmult_0_l.
      change 0%Q with (inject_Z 0). rewrite <- Zle_Qle. lia. }
    assert (Hp1 : (inject_Z a / inject_Z b <= 1)%Q).
    { apply Qle_shift_div_r; [done|]. rewrite Qmult_1_l, <- Zle_Qle. lia. }
    unfold eps in *.
    set (t := (inject_Z a / inject_Z b)%Q) in *. clearbody t. split.
    + change 0 with (Qfloor 0%Q). apply Qfloor_resp_le. clear -Hl Hp0. lra.
    + change 100 with (Qfloor (403 # 4)). apply Qfloor_resp_le. clear -Hu Hp1 Hp0. lra.
Qed.

(** ... and within one half, and a rounding error below a millionth of a
    millionth, of the exact percentage. *)
Lemma percentage_double_near (a b : Z) :
  0 <= a <= b → 0 < b < 2 ^ 53 →
  (Qabs (inject_Z (roundDouble (PrimFloat.mul (PrimFloat.div (doubleOfZ a) (doubleOfZ b))
                                              (doubleOfZ 100)))
         - inject_Z a / inject_Z b * 100)
   <= (1 # 2) + (1 # 1000000000000))%Q.
Proof.
  intros Ha Hb. destruct (Z.eq_dec a 0) as [->|Hne].
  - rewrite scaled_ratio_double_of_none by done.
    change (inject_Z 0) with 0%Q. set (d := inject_Z b).
    assert (E : (0 - 0 / d * 100 == 0)%Q) by (unfold Qdiv; ring).
    rewrite E. done.
  - destruct (scaled_ratio_double a b) as (v & -> & Hl & Hu); [lia|done|].
    cbv zeta in Hl, Hu.
    assert (Hbpos : (0 < inject_Z b)%Q)
      by (change 0%Q with (inject_Z 0); rewrite <- Zlt_Qlt; lia).
    assert (Hp0 : (0 <= inject_Z a / inject_Z b)%Q).
    { apply Qle_shift_div_l; [done|]. rewrite Qmult_0_l.
      change 0%Q with (inject_Z 0). rewrite <- Zle_Qle. lia. }
    assert (Hp1 : (inject_Z a / inject_Z b <= 1)%Q).
    { apply Qle_shift_div_r; [done|]. rewrite Qmult_1_l, <- Zle_Qle. lia. }
    pose proof (Qfloor_le (v + (1 # 2))) as Hf1.
    pose proof (Qlt_floor (v + (1 # 2))) as Hf2.
    rewrite inject_Z_plus in Hf2. change (inject_Z 1) with 1%Q in Hf2.
    unfold eps in *.
    set (t := (inject_Z a / inject_Z b)%Q) in *.
    set (f := inject_Z (Qfloor (v + (1 # 2)))) in *.
    clearbody t f. apply Qabs_Qle_condition. clear -Hl Hu Hp0 Hp1 Hf1 Hf2. split; lra.
Qed.




(** On doubles [Math.round((total / n) * 100)] is within one half, and
    a relative rounding error, of the exact [total / n * 100]. *)
Lemma hundredths_of_mean_double_near (total n : Z) :
  0 <= total < 2 ^ 53 → 0 < n < 2 ^ 53 →
  (Qabs (inject_Z (Math_round (Number := Binary64) (mul (div (ofZ total) (ofZ n)) (ofZ 100)))
         - inject_Z total / inject_Z n * 100)
   <= (1 # 2) + inject_Z total / inject_Z n * 100 * (1 # 800000000000000))%Q.
Proof.
  intros Ht Hn. cbn [Math_round mul div ofZ Binary64].
  destruct (Z.eq_dec total 0) as [->|Hne].
  - rewrite scaled_ratio_double_of_none by lia.
    change (inject_Z 0) with 0%Q. set (d := inject_Z n).
    assert (E : (0 / d * 100 == 0)%Q) by (unfold Qdiv; ring).
    rewrite !E. done.
  - destruct (scaled_ratio_double total n) as (v & -> & Hl & Hu); [lia|lia|].
    cbv zeta in Hl, Hu.
    assert (Hp0 : (0 <= inject_Z total / inject_Z n * 100)%Q).
    { assert (Hnpos : (0 < inject_Z n)%Q)
        by (change 0%Q with (inject_Z 0); rewrite <- Zlt_Qlt; lia).
      assert (H0 : (0 <= inject_Z total / inject_Z n)%Q).
      { apply Qle_shift_div_l; [done|]. rewrite Qmult_0_l.
        change 0%Q with (inject_Z 0). rewrite <- Zle_Qle. lia. }
      lra. }
    pose proof (Qfloor_le (v + (1 # 2))) as Hf1.
    pose proof (Qlt_floor (v + (1 # 2))) as Hf2.
    rewrite inject_Z_plus in Hf2. change (inject_Z 1) with 1%Q in Hf2.
    unfold eps in *.
    set (p := (inject_Z total / inject_Z n * 100)%Q) in *.
    set (f := inject_Z (Qfloor (v + (1 # 2)))) in *.
    clearbody p f. apply Qabs_Qle_condition. clear -Hl Hu Hp0 Hf1 Hf2. split; lra.
Qed.

Lemma hundredths_of_mean_near (ds : list Z) :
  0 <= Spec.sumZ ds < 2 ^ 53 → Z.of_nat (length ds) < 2 ^ 53 →
  (Qabs (inject_Z (Math_round (Number := Binary64) (mul (Spec.mean ds) (ofZ 100)))
         - Spec.mean (N := Exact) ds * 100)
   <= (1 # 2) + Spec.mean (N := Exact) ds * 100 * (1 # 800000000000000))%Q.
Proof.
  intros Hsum Hlen. destruct ds as [|d ds]; [done|].
  unfold Spec.mean. apply hundredths_of_mean_double_near; [done|].
  simpl length in *. lia.
Qed.

End Doubles.

(** ** Team performance *)

Lemma List_filter_as_filter {A} (f : A → bool) (P : A → Prop) `{!∀ x, Decision (P x)}
    (l : list A) :
  (∀ x, f x = true ↔ P x) → List.filter f l = filter P l.
Proof.
  intros Hiff. rewrite List_filter_filter. by apply list_filter_iff.
Qed.

Lemma teamTickets_ticketsOf (w : World) (tm : Team.t) :
  List.filter (fun k => String.eqb (Ticket.teamId k) (Team.id tm)) (tickets (db w))
  = Spec.ticketsOf w tm.
Proof. apply List_filter_as_filter. intros k. apply String.eqb_eq. Qed.

Lemma length_ticketsOf_le (w : World) (tm : Team.t) :
  (length (Spec.ticketsOf w tm) ≤ length (tickets (db w)))%nat.
Proof. unfold Spec.ticketsOf. apply length_filter. Qed.

(** C8. When the team listing succeeds, the team-performance handler
    returns, whatever its team argument, an array with exactly one entry
    per team of the store, in order. In each entry the completion rate and
    the bug rate are integers: [Math.round] of the percentage of the
    team's tickets that are DONE, respectively of type BUG, and 0 for a
    team without tickets. On doubles, as the runtime computes, each rate
    lies between 0 and 100 for every store of fewer than [2^53] tickets
    (an array holds fewer than [2^32]), and is within one half, and a
    rounding error below [10^-12], of the exact percentage. In exact
    arithmetic each rate lies between 0 and 100 and within one half of
    the exact percentage. *)
Theorem team_performance_one_entry_per_team :
  (∀ (N : Number) (w : World) (q arg : string),
     failing w team_findMany = false →
     ∃ env perf,
       handleTeamPerformanceQuery w q arg = Fulfilled env ∧
       TextQueryResult.result env = Some (PerformanceResult perf) ∧
       Forall2
         (fun tm e =>
            let all := Spec.ticketsOf w tm in
            Performance.teamName e = Team.name tm ∧
            Performance.totalTickets e = Z.of_nat (length all) ∧
            Performance.completedTickets e = Z.of_nat (length (Spec.doneAmong all)) ∧
            Performance.bugCount e = Z.of_nat (length (Spec.bugsAmong all)) ∧
            Performance.completionRate e
            = percentOf (length (Spec.doneAmong all)) (length all) ∧
            Performance.bugRate e
            = percentOf (length (Spec.bugsAmong all)) (length all) ∧
            (all = [] → Performance.completionRate e = 0 ∧ Performance.bugRate e = 0))
         (teams (db w)) perf) ∧
  (∀ (w : World) (q arg : string),
     failing w team_findMany = false →
     Z.of_nat (length (tickets (db w))) < 2 ^ 53 →
     ∃ env perf,
       handleTeamPerformanceQuery (N := Binary64) w q arg = Fulfilled env ∧
       TextQueryResult.result env = Some (PerformanceResult perf) ∧
       length perf = length (teams (db w)) ∧
       Forall (fun e => 0 <= Performance.completionRate e <= 100 ∧
                        0 <= Performance.bugRate e <= 100) perf) ∧
  (∀ k n : nat,
     (k ≤ n)%nat → Z.of_nat n < 2 ^ 53 →
     0 <= percentOf (N := Binary64) k n <= 100 ∧
     ((0 < n)%nat →
      (Qabs (inject_Z (percentOf (N := Binary64) k n)
             - inject_Z (Z.of_nat k) / inject_Z (Z.of_nat n) * 100)
       <= (1 # 2) + (1 # 1000000000000))%Q)) ∧
  (∀ k n : nat,
     (k ≤ n)%nat →
     0 <= percentOf (N := Exact) k n <= 100 ∧
     ((0 < n)%nat →
      (Qabs (inject_Z (percentOf (N := Exact) k n)
             - inject_Z (Z.of_nat k) / inject_Z (Z.of_nat n) * 100) <= 1 # 2)%Q)).
Proof.
  assert (Hentries : ∀ (N : Number) (w : World) (q arg : string),
     failing w team_findMany = false →
     ∃ env perf,
       handleTeamPerformanceQuery w q arg = Fulfilled env ∧
       TextQueryResult.result env = Some (PerformanceResult perf) ∧
       Forall2
         (fun tm e =>
            let all := Spec.ticketsOf w tm in
            Performance.teamName e = Team.name tm ∧
            Performance.totalTickets e = Z.of_nat (length all) ∧
            Performance.completedTickets e = Z.of_nat (length (Spec.doneAmong all)) ∧
            Performance.bugCount e = Z.of_nat (length (Spec.bugsAmong all)) ∧
            Performance.completionRate e
            = percentOf (length (Spec.doneAmong all)) (length all) ∧
            Performance.bugRate e
            = percentOf (length (Spec.bugsAmong all)) (length all) ∧
            (all = [] → Performance.completionRate e = 0 ∧ Performance.bugRate e = 0))
         (teams (db w)) perf).
  { intros N w q arg Hok.
    unfold handleTeamPerformanceQuery, findTeams, call. rewrite Hok. simpl.
    eexists _, _. split; [reflexivity|]. split; [reflexivity|].
    rewrite <- list_fmap_compose. apply Forall2_fmap_r, Forall_Forall2_diag, Forall_forall.
    intros tm _. unfold compose, performanceOf.
    cbn [Performance.teamName Performance.totalTickets Performance.completedTickets
         Performance.bugCount Performance.completionRate Performance.bugRate
         theTeam teamTickets teamMembers].
    rewrite teamTickets_ticketsOf.
    set (all := Spec.ticketsOf w tm).
    assert (Hdone : length (List.filter isDone all) = length (Spec.doneAmong all))
      by apply length_done_rows.
    assert (Hbug : length (List.filter isBug all) = length (Spec.bugsAmong all)).
    { unfold Spec.bugsAmong. f_equal. apply List_filter_as_filter.
      intros t. unfold isBug. by rewrite bool_decide_eq_true. }
    rewrite Hdone, Hbug. split_and!; try done.
    intros ->. done. }
  assert (Hdouble : ∀ k n : nat,
     (k ≤ n)%nat → Z.of_nat n < 2 ^ 53 → 0 <= percentOf (N := Binary64) k n <= 100).
  { intros k n Hk Hn. unfold percentOf, ratio.
    destruct (Nat.ltb_spec 0 n) as [Hpos|]; [|lia].
    apply percentage_double_range; lia. }
  split; [exact Hentries|]. split; [|split].
  - intros w q arg Hok Hsize.
    destruct (Hentries Binary64 w q arg Hok) as (env & perf & Henv & Hres & Hall).
    exists env, perf. split; [done|]. split; [done|].
    split; [symmetry; by eapply Forall2_length|].
    apply Forall_forall. intros e He.
    apply list_elem_of_lookup in He as [i Hi].
    destruct (Forall2_lookup_r _ _ _ _ _ Hall Hi) as (tm & _ & Hentry).
    cbv zeta in Hentry. destruct Hentry as (_ & _ & _ & _ & -> & -> & _).
    pose proof (length_ticketsOf_le w tm) as Hle.
    split; apply Hdouble; try lia.
    + unfold Spec.doneAmong. apply length_filter.
    + unfold Spec.bugsAmong. apply length_filter.
  - intros k n Hk Hn. split; [by apply Hdouble|].
    intros Hpos. unfold percentOf, ratio.
    destruct (Nat.ltb_spec 0 n) as [_|]; [|lia].
    apply percentage_double_near; lia.
  - intros k n Hk. split; [by apply percentOf_range|]. apply percentOf_near.
Qed.

Lemma team_performance_one_entry_per_team_witness :
  ∃ env perf,
    handleTeamPerformanceQuery (N := Binary64) Scenario.healthy "team performance stats" "all"
    = Fulfilled env ∧
    TextQueryResult.result env = Some (PerformanceResult perf) ∧
    Performance.teamName <$> perf = ["Alpha"; "Beta"] ∧
    Performance.completionRate <$> perf = [50; 100] ∧
    Performance.bugRate <$> perf = [50; 0] ∧
    Forall (fun e => 0 <= Performance.completionRate e <= 100 ∧
                     0 <= Performance.bugRate e <= 100) perf ∧
    0 <= percentOf (N := Binary64) 23 40 <= 100 ∧
    0 <= percentOf (N := Exact) 1 3 <= 100.
Proof.
  destruct team_performance_one_entry_per_team as (_ & Hdoubles & Hrange64 & Hrange).
  destruct (Hdoubles Scenario.healthy "team performance stats" "all" eq_refl eq_refl)
    as (env & perf & Henv & Hres & _ & Hall).
  exists env, perf. split; [exact Henv|]. split; [exact Hres|].
  split; [injection Henv as <-; injection Hres as <-; reflexivity|].
  split; [injection Henv as <-; injection Hres as <-; reflexivity|].
  split; [injection Henv as <-; injection Hres as <-; reflexivity|].
  split; [exact Hall|]. split.
  - exact (proj1 (Hrange64 23%nat 40%nat ltac:(lia) eq_refl)).
  - exact (proj1 (Hrange 1%nat 3%nat ltac:(lia))).
Defined.

(** The exact percentage of 23 in 40 is 57.5, which rounds to 58; the
    runtime, computing on doubles, arrives at 57: [23 / 40] is the double
    just below 0.575 and a hundred times it the double just below 57.5. *)
Example percentOf_23_in_40 :
  percentOf (N := Binary64) 23 40 = 57 ∧ percentOf (N := Exact) 23 40 = 58.
Proof. split; reflexivity. Qed.

(** ** Bug count *)

Lemma countWhere_spec (tid : option string) (ty : option TicketType) (c : Z) (t : Ticket.t) :
  countWhere tid ty c t = true ↔
  match tid with Some i => Ticket.teamId t = i | None => True end ∧
  match ty with Some y => Ticket.type t = y | None => True end ∧
  c <= Ticket.createdAt t.
Proof.
  unfold countWhere. rewrite !andb_true_iff, Z.leb_le.
  destruct tid, ty; rewrite ?String.eqb_eq, ?bool_decide_eq_true; tauto.
Qed.

(** The tickets the two counts range over, for a resolved team or none. *)
Lemma counts_of_pool (w : World) (team : option Team.t) :
  let pool := match team with Some tm => Spec.ticketsOf w tm | None => tickets (db w) end in
  let tid := Team.id <$> team in
  List.filter (countWhere tid None (subDays (now w) 90)) (tickets (db w))
  = Spec.createdWithin w 90 pool ∧
  List.filter (countWhere tid (Some BUG) (subDays (now w) 90)) (tickets (db w))
  = Spec.bugsAmong (Spec.createdWithin w 90 pool).
Proof.
  unfold Spec.bugsAmong, Spec.createdWithin, Spec.ticketsOf, subDays.
  destruct team as [tm|]; simpl; rewrite ?list_filter_filter; split;
    apply List_filter_as_filter; intros t; rewrite countWhere_spec; tauto.
Qed.

(** In exact arithmetic, rounding the percentage to hundredths is
    rounding the ratio times 10000. *)
Lemma round2_bugRateOf_exact (total bugs : Z) :
  0 < total →
  round2 (N := Exact) (bugRateOf total bugs)
  = (inject_Z (Math_round (Number := Exact) (inject_Z bugs / inject_Z total * 10000)%Q)
     / 100)%Q.
Proof.
  intros Hpos. unfold round2, bugRateOf, ratio.
  destruct (Z.ltb_spec 0 total) as [_|]; [|lia].
  cbn [div mul ofZ Exact]. f_equal. f_equal. apply Math_round_proper.
  change (inject_Z 100) with 100%Q. ring.
Qed.

Section BugCount.
Context {N : Number}.
Variables (w : World) (q teamName : string).
Hypothesis count_works : failing w ticket_count = false.

(** What the handler builds once the team question is settled. *)
Lemma bugCount_counts (team : option Team.t) :
  let pool := match team with Some tm => Spec.ticketsOf w tm | None => tickets (db w) end in
  let total := Z.of_nat (length (Spec.createdWithin w 90 pool)) in
  let bugs := Z.of_nat (length (Spec.bugsAmong (Spec.createdWithin w 90 pool))) in
  (counts ← Promise_all2
     (countTickets w (Team.id <$> team) None (subDays (now w) 90))
     (countTickets w (Team.id <$> team) (Some BUG) (subDays (now w) 90));
   Fulfilled (bugCountEnvelope q teamName team counts.1 counts.2))
  = Fulfilled (bugCountEnvelope q teamName team total bugs).
Proof.
  destruct (counts_of_pool w team) as [Htot Hbug].
  unfold countTickets, call. rewrite count_works. simpl in *. by rewrite Htot, Hbug.
Qed.
End BugCount.

(** C6 (as the code has it). When its lookups succeed, the bug-count
    handler reports as [totalTickets] the number of tickets (of the
    resolved team, or of all teams for the token [all]) created within the
    last 90 days and as [bugTickets] the number of those of type BUG. With
    no ticket [bugRate] is 0. Otherwise the percentage
    [(bugTickets / totalTickets) * 100] is formed first and [bugRate] is
    [Math.round] of a hundred times that, divided by 100; in exact
    arithmetic this is [round(bugTickets / totalTickets * 10000) / 100]. *)
Theorem bug_count_handler_counts_last_quarter :
  (∀ (N : Number) (w : World) (q teamName : string) (pool : list Ticket.t),
     failing w team_findFirst = false →
     failing w ticket_count = false →
     Spec.requestedTickets w teamName = Some pool →
     ∃ env r,
       handleBugCountQuery w q teamName = Fulfilled env ∧
       TextQueryResult.result env = Some (BugCountResult r) ∧
       BugCount.totalTickets r = Z.of_nat (length (Spec.createdWithin w 90 pool)) ∧
       BugCount.bugTickets r
       = Z.of_nat (length (Spec.bugsAmong (Spec.createdWithin w 90 pool))) ∧
       (0 < BugCount.totalTickets r →
        BugCount.bugRate r
        = round2 (mul (div (ofZ (BugCount.bugTickets r)) (ofZ (BugCount.totalTickets r)))
                    (ofZ 100))) ∧
       (BugCount.totalTickets r = 0 → BugCount.bugRate r = round2 (ofZ 0))) ∧
  round2 (N := Binary64) (ofZ 0) = ofZ 0 ∧
  (round2 (N := Exact) (ofZ 0) == 0)%Q ∧
  (∀ bugs total : Z,
     0 < total →
     round2 (N := Exact) (mul (div (ofZ bugs) (ofZ total)) (ofZ 100))
     = (inject_Z (Math_round (Number := Exact) (inject_Z bugs / inject_Z total * 10000)%Q)
        / 100)%Q).
Proof.
  split; [|split; [reflexivity|split; [reflexivity|]]].
  - intros N w q teamName pool Hfind Hcount Hpool.
    assert (Hrate : ∀ total bugs : Z,
      (0 < total → round2 (bugRateOf total bugs)
                   = round2 (mul (div (ofZ bugs) (ofZ total)) (ofZ 100))) ∧
      (total = 0 → round2 (bugRateOf total bugs) = round2 (ofZ 0))).
    { intros total bugs. unfold bugRateOf, ratio. split.
      - intros Hpos. by destruct (Z.ltb_spec 0 total) as [_|]; [|lia].
      - intros ->. reflexivity. }
    unfold Spec.requestedTickets in Hpool.
    unfold handleBugCountQuery, findTeam, call.
    destruct (decide (teamName = "all")) as [->|Hne].
    + injection Hpool as <-. simpl.
      rewrite (bugCount_counts w q "all" Hcount None). simpl.
      eexists. eexists. split; [reflexivity|]. split; [reflexivity|].
      simpl. split_and!; try done; apply Hrate.
    + rewrite (teamName_not_all _ Hne), Hfind.
      change (List.find (sameName teamName) (teams (db w)))
        with (Spec.resolveTeam w teamName).
      destruct (Spec.resolveTeam w teamName) as [tm|]; [|done].
      injection Hpool as <-. simpl.
      rewrite (bugCount_counts w q teamName Hcount (Some tm)). simpl.
      eexists. eexists. split; [reflexivity|]. split; [reflexivity|].
      simpl. split_and!; try done; apply Hrate.
  - intros bugs total Hpos.
    pose proof (round2_bugRateOf_exact total bugs Hpos) as H.
    unfold bugRateOf, ratio in H. by destruct (Z.ltb_spec 0 total) as [_|]; [|lia].
Qed.

Lemma bug_count_handler_counts_last_quarter_witness :
  ∃ env r,
    handleBugCountQuery (N := Exact) Scenario.healthy "how many bugs" "all" = Fulfilled env ∧
    TextQueryResult.result env = Some (BugCountResult r) ∧
    BugCount.totalTickets r = 3 ∧ BugCount.bugTickets r = 1 ∧
    BugCount.bugRate r = (inject_Z 3333 / 100)%Q.
Proof.
  destruct bug_count_handler_counts_last_quarter as (Hcounts & _ & _ & Hexact).
  destruct (Hcounts Exact Scenario.healthy "how many bugs" "all"
              (tickets Scenario.store) eq_refl eq_refl eq_refl)
    as (env & r & Henv & Hres & Ht & Hb & Hrate & _).
  exists env, r. split; [exact Henv|]. split; [exact Hres|].
  assert (Ht3 : BugCount.totalTickets r = 3) by (rewrite Ht; reflexivity).
  assert (Hb1 : BugCount.bugTickets r = 1) by (rewrite Hb; reflexivity).
  split; [exact Ht3|]. split; [exact Hb1|].
  rewrite Hrate by (rewrite Ht3; reflexivity). rewrite Ht3, Hb1.
  rewrite (Hexact 1 3) by reflexivity. reflexivity.
Defined.

(** C6 (fails as stated). With 23 bugs among 160 tickets of the last 90
    days the runtime, computing on doubles, reports a bug rate of 14.37:
    [23 / 160 * 100] is the double just below 14.375, a hundred times it
    is the double just below 1437.5, and that rounds to 1437. The formula
    [round(bugTickets / totalTickets * 10000) / 100] gives 14.38, on
    doubles as in exact arithmetic. *)
Lemma bug_rate_of_23_in_160_is_not_14_38 :
  ∃ r : @BugCount.t Binary64,
    TextQueryResult.result <$>
      outcome (handleBugCountQuery (N := Binary64) Scenario.busy "how many bugs" "all")
    = Some (Some (BugCountResult r)) ∧
    BugCount.totalTickets r = 160 ∧
    BugCount.bugTickets r = 23 ∧
    BugCount.bugRate r = PrimFloat.div (doubleOfZ 1437) (doubleOfZ 100) ∧
    div (Number := Binary64)
      (ofZ (Math_round (Number := Binary64) (mul (div (ofZ 23) (ofZ 160)) (ofZ 10000))))
      (ofZ 100)
    = PrimFloat.div (doubleOfZ 1438) (doubleOfZ 100) ∧
    Math_round (Number := Exact) (inject_Z 23 / inject_Z 160 * 10000)%Q = 1438 ∧
    PrimFloat.div (doubleOfZ 1437) (doubleOfZ 100)
    ≠ PrimFloat.div (doubleOfZ 1438) (doubleOfZ 100).
Proof.
  eexists. split; [reflexivity|]. cbn [BugCount.totalTickets BugCount.bugTickets BugCount.bugRate].
  split_and!; try reflexivity.
  vm_compute. intros H. discriminate H.
Qed.

(** ** Velocity *)

Lemma mostRecent_take_sorted (n : nat) (pool : list Sprint.t) :
  Spec.mostRecent n pool (take n (merge_sort endsNoEarlier pool)).
Proof.
  pose proof (merge_sort_Permutation endsNoEarlier pool) as Hperm.
  pose proof (StronglySorted_merge_sort endsNoEarlier pool) as Hsorted.
  set (sorted := merge_sort endsNoEarlier pool) in *.
  split.
  - rewrite length_take. by rewrite (Permutation_length Hperm).
  - exists (drop n sorted). split.
    + by rewrite take_drop.
    + intros s s' Hs Hs'. rewrite <- (take_drop n sorted) in Hsorted.
      exact (StronglySorted_app_1_elem_of _ _ _ _ _ Hsorted Hs Hs').
Qed.

Lemma fold_left_sum {A} (f : A → Z) (l : list A) (a : Z) :
  fold_left (fun acc x => acc + f x) l a = a + Spec.sumZ (f <$> l).
Proof.
  unfold Spec.sumZ. revert a. induction l as [|x l IH]; intros a.
  - simpl. lia.
  - rewrite fmap_cons. cbn [fold_left foldr]. rewrite IH. lia.
Qed.

Lemma sprintVelocity_doneStoryPoints (w : World) (s : Sprint.t) :
  sprintVelocity (withDoneTickets w s) = Spec.doneStoryPoints w s.
Proof.
  unfold sprintVelocity, Spec.doneStoryPoints, withDoneTickets. simpl.
  rewrite (fold_left_sum storyPointsOr0), Z.add_0_l.
  change (fun t => default 0 (Ticket.storyPoints t)) with storyPointsOr0.
  f_equal. f_equal.
  apply List_filter_as_filter. intros t.
  unfold inSprint, isDone. rewrite andb_true_iff, bool_decide_eq_true.
  destruct (Ticket.sprintId t) as [sid|].
  - rewrite String.eqb_eq. split; intros [? ?]; split; congruence.
  - split; intros [? ?]; congruence.
Qed.

Lemma totalVelocity_sum (w : World) (chosen : list Sprint.t) :
  totalVelocity (withDoneTickets w <$> chosen)
  = Spec.sumZ (Spec.doneStoryPoints w <$> chosen).
Proof.
  unfold totalVelocity. rewrite (fold_left_sum sprintVelocity), Z.add_0_l.
  f_equal. rewrite <- list_fmap_compose. apply list_fmap_ext.
  intros i s _. apply sprintVelocity_doneStoryPoints.
Qed.

Lemma avgVelocity_mean `{N : Number} (w : World) (chosen : list Sprint.t) :
  avgVelocity (withDoneTickets w <$> chosen)
  = Spec.mean (Spec.doneStoryPoints w <$> chosen).
Proof.
  unfold avgVelocity, Spec.mean, ratio.
  rewrite totalVelocity_sum, !length_fmap.
  destruct chosen; reflexivity.
Qed.

Lemma sprintsOf_List_filter (w : World) (tm : Team.t) :
  List.filter (ofTeam tm) (sprints (db w)) = Spec.sprintsOf w tm.
Proof. apply List_filter_as_filter. intros s. apply String.eqb_eq. Qed.

(** ** Rounding to hundredths *)

(** In exact arithmetic [Math.round(x * 100) / 100], the floor of
    [x * 100 + 1/2] over 100, is within half a hundredth of [x]. *)
Lemma hundredths_near (x : Q) :
  (Qabs (inject_Z (Qfloor (x * 100 + (1 # 2))) / 100 - x) <= 1 # 200)%Q.
Proof.
  destruct (Math_round_near (x * 100)) as [Hl Hu]. cbn [Math_round Exact] in Hl, Hu.
  apply Qabs_Qle_condition.
  set (r := inject_Z (Qfloor (x * 100 + (1 # 2)))) in *.
  unfold Qdiv. change (/ 100)%Q with (1 # 100)%Q. split; lra.
Qed.


Lemma handleVelocityQuery_all `{N : Number} (w : World) (q : string) :
  failing w sprint_findMany = false →
  handleVelocityQuery w q "all"
  = Fulfilled (velocityEnvelope q "all" None (recentSprints w (sprints (db w)))).
Proof.
  intros Hmany. unfold handleVelocityQuery, findRecentSprints, call. simpl.
  by rewrite Hmany.
Qed.

Lemma handleVelocityQuery_team `{N : Number} (w : World) (q name : string) (tm : Team.t) :
  name ≠ "all" → Spec.resolveTeam w name = Some tm →
  failing w team_findFirst = false →
  handleVelocityQuery w q name
  = Fulfilled (velocityEnvelope q name (Some tm) (recentSprints w (Spec.sprintsOf w tm))).
Proof.
  intros Hne Htm Hfind. unfold handleVelocityQuery, findTeamWithSprints, call.
  rewrite (teamName_not_all _ Hne), Hfind.
  change (List.find (sameName name) (teams (db w))) with (Spec.resolveTeam w name).
  rewrite Htm. simpl. by rewrite sprintsOf_List_filter.
Qed.

(** The payload of the velocity envelope, in terms of the sprints it is
    built from. *)
Lemma velocityEnvelope_result `{N : Number} (w : World) (q teamName : string)
    (team : option Team.t) (pool : list Sprint.t) :
  let chosen := take 5 (merge_sort endsNoEarlier pool) in
  TextQueryResult.result (velocityEnvelope q teamName team (recentSprints w pool))
  = Some (VelocityResult
      {| Velocity.team := teamLabel teamName team;
         Velocity.averageVelocity :=
           div (ofZ (Math_round (mul (Spec.mean (Spec.doneStoryPoints w <$> chosen))
                                     (ofZ 100))))
               (ofZ 100);
         Velocity.sprintsAnalyzed := Z.of_nat (length chosen);
         Velocity.timePeriod := "last 5 sprints" |}).
Proof.
  intros chosen. unfold velocityEnvelope, recentSprints. fold chosen.
  cbn [TextQueryResult.result]. rewrite avgVelocity_mean, length_fmap. reflexivity.
Qed.



(** ** Completed tickets *)

(** C10 (fails on the code). One team is called [constructor] and owns
    the only DONE ticket, worth 2 story points. The handler reports one
    completed ticket, but the per-team table, which started as a plain
    object, has no entry at all: the counts of its entries add up to 0,
    not to [totalCompleted], and the team's story points appear nowhere. *)
Theorem completed_total_disagrees_with_table :
  Spec.ownerName Scenario.odd <$> Spec.doneAmong (tickets (db Scenario.odd))
    = [Some "constructor"] ∧
  TextQueryResult.result <$>
    outcome (processTextQuery (N := Binary64) Scenario.odd "completed tickets")
    = Some (Some (CompletedResult
        {| Completed.totalCompleted := 1; Completed.byTeam := ∅ |})) ∧
  Spec.totalOver TeamStats.completed (∅ : gmap string TeamStats.t) = 0 ∧
  Spec.sumZ ((fun t => default 0 (Ticket.storyPoints t))
             <$> Spec.doneTicketsNamed Scenario.odd "constructor") = 2.
Proof. repeat split; reflexivity. Qed.

Lemma totalOver_insert_fresh (f : TeamStats.t → Z) (m : gmap string TeamStats.t)
    (k : string) (v : TeamStats.t) :
  m !! k = None → Spec.totalOver f (<[k := v]> m) = f v + Spec.totalOver f m.
Proof.
  intros Hk. unfold Spec.totalOver.
  rewrite map_fold_insert_L; [done| |done]. intros. lia.
Qed.

Lemma totalOver_insert_present (f : TeamStats.t → Z) (m : gmap string TeamStats.t)
    (k : string) (old v : TeamStats.t) :
  m !! k = Some old → Spec.totalOver f (<[k := v]> m) = f v - f old + Spec.totalOver f m.
Proof.
  intros Hk.
  rewrite <- (insert_delete_eq m k v).
  rewrite totalOver_insert_fresh by apply lookup_delete_eq.
  rewrite <- (insert_delete_id m k old Hk) at 2.
  rewrite totalOver_insert_fresh by apply lookup_delete_eq. lia.
Qed.

Lemma fold_reduceCompleted_rejected (rows : list TicketWithTeam) :
  fold_left reduceCompleted rows Rejected = Rejected.
Proof. induction rows as [|row rows IH]; [done|]. exact IH. Qed.

Lemma rowsNamed_snoc (name : string) (pre : list TicketWithTeam) (row : TicketWithTeam) :
  Spec.rowsNamed name (pre ++ [row])%list
  = (Spec.rowsNamed name pre ++
     (if decide (Team.name <$> ticketTeam row = Some name) then [row] else []))%list.
Proof.
  unfold Spec.rowsNamed. rewrite filter_app, filter_cons, filter_nil.
  by destruct (decide _).
Qed.

Lemma entryOf_snoc_other (name : string) (pre : list TicketWithTeam) (row : TicketWithTeam) :
  Team.name <$> ticketTeam row ≠ Some name →
  Spec.entryOf name (pre ++ [row])%list = Spec.entryOf name pre.
Proof.
  intros Hne. unfold Spec.entryOf. rewrite rowsNamed_snoc.
  rewrite decide_False by done. by rewrite app_nil_r.
Qed.

Lemma sumZ_snoc (l : list Z) (x : Z) : Spec.sumZ (l ++ [x])%list = Spec.sumZ l + x.
Proof.
  unfold Spec.sumZ. induction l as [|y l IH]; simpl; [lia|]. rewrite IH. lia.
Qed.

Lemma entryOf_snoc_same (name : string) (pre : list TicketWithTeam) (row : TicketWithTeam) :
  Team.name <$> ticketTeam row = Some name →
  Spec.entryOf name (pre ++ [row])%list
  = Some (bump (default {| TeamStats.completed := 0; TeamStats.storyPoints := 0 |}
                  (Spec.entryOf name pre)) (ticket row)).
Proof.
  intros Heq. unfold Spec.entryOf. rewrite rowsNamed_snoc.
  rewrite decide_True by done.
  set (owned := Spec.rowsNamed name pre).
  assert (Hsnoc : ∀ l : list TicketWithTeam,
    match (l ++ [row])%list with
    | [] => None
    | all =>
        Some {| TeamStats.completed := Z.of_nat (length all);
                TeamStats.storyPoints :=
                  Spec.sumZ ((fun r => default 0 (Ticket.storyPoints (ticket r))) <$> all) |}
    end
    = Some {| TeamStats.completed := Z.of_nat (length l) + 1;
              TeamStats.storyPoints :=
                Spec.sumZ ((fun r => default 0 (Ticket.storyPoints (ticket r))) <$> l)
                + storyPointsOr0 (ticket row) |}).
  { intros l. destruct (l ++ [row])%list as [|x rest] eqn:E.
    - by destruct l.
    - rewrite <- E. cbv zeta.
      rewrite fmap_app, (fmap_cons _ _ []), fmap_nil, sumZ_snoc, length_app.
      unfold storyPointsOr0. simpl. do 2 f_equal. lia. }
  rewrite Hsnoc. destruct owned; reflexivity.
Qed.

Lemma fold_reduceCompleted_table (rows pre : list TicketWithTeam)
    (acc stats : gmap string TeamStats.t) :
  Forall (fun row => ∀ name, Team.name <$> ticketTeam row = Some name →
                             isInherited name = false) rows →
  (∀ name, acc !! name = Spec.entryOf name pre) →
  Spec.totalOver TeamStats.completed acc = Z.of_nat (length pre) →
  fold_left reduceCompleted rows (Fulfilled acc) = Fulfilled stats →
  (∀ name, stats !! name = Spec.entryOf name (pre ++ rows)%list) ∧
  Spec.totalOver TeamStats.completed stats = Z.of_nat (length (pre ++ rows)%list).
Proof.
  revert pre acc. induction rows as [|row rows IH]; intros pre acc Hclean Hacc Htot Hfold.
  - simpl in Hfold. injection Hfold as <-. by rewrite app_nil_r.
  - inversion Hclean as [|? ? Hrow Hrest]; subst.
    change (fold_left reduceCompleted (row :: rows) (Fulfilled acc))
      with (fold_left reduceCompleted rows
              (match ticketTeam row with
               | Some tm => Fulfilled (countCompleted acc (Team.name tm) (ticket row))
               | None => Rejected
               end)) in Hfold.
    destruct (ticketTeam row) as [tm|] eqn:Htm;
      [|by rewrite fold_reduceCompleted_rejected in Hfold].
    specialize (Hrow (Team.name tm) eq_refl).
    replace (pre ++ row :: rows)%list with ((pre ++ [row]) ++ rows)%list
      by (by rewrite <- app_assoc).
    apply (IH (pre ++ [row])%list (countCompleted acc (Team.name tm) (ticket row)));
      [done| | |done].
    + intros name. unfold countCompleted. rewrite Hrow.
      destruct (decide (Team.name tm = name)) as [<-|Hne].
      * rewrite entryOf_snoc_same by (by rewrite Htm). rewrite <- Hacc.
        destruct (acc !! Team.name tm) as [st|] eqn:E; simpl; by rewrite lookup_insert_eq.
      * rewrite entryOf_snoc_other by (rewrite Htm; simpl; congruence). rewrite <- Hacc.
        destruct (acc !! Team.name tm); by rewrite lookup_insert_ne.
    + unfold countCompleted. rewrite Hrow, length_app. simpl.
      destruct (acc !! Team.name tm) as [st|] eqn:E.
      * rewrite (totalOver_insert_present _ _ _ st) by done. simpl. lia.
      * rewrite totalOver_insert_fresh by done. simpl. lia.
Qed.

Lemma rowsNamed_doneTicketsNamed (w : World) (name : string) (l : list Ticket.t) :
  ticket <$> Spec.rowsNamed name (withTeam w <$> List.filter isDone l)
  = filter (fun t => Ticket.status t = DONE ∧ Spec.ownerName w t = Some name) l.
Proof.
  unfold Spec.rowsNamed. induction l as [|t l IH]; [done|].
  rewrite filter_cons. simpl. unfold isDone at 1.
  destruct (decide (Ticket.status t = DONE)) as [Hd|Hd].
  - rewrite (bool_decide_eq_true_2 _ Hd). rewrite fmap_cons, filter_cons.
    change (Team.name <$> ticketTeam (withTeam w t)) with (Spec.ownerName w t).
    destruct (decide (Spec.ownerName w t = Some name)) as [Ho|Ho].
    + rewrite decide_True by done. rewrite fmap_cons. simpl. by rewrite IH.
    + rewrite decide_False by tauto. exact IH.
  - rewrite (bool_decide_eq_false_2 _ Hd). rewrite decide_False by tauto. exact IH.
Qed.

(** The table does agree with the total when no completed ticket belongs
    to a team named like an inherited object member. *)
Lemma completed_table_consistent `{N : Number}
    (w : World) (q arg : string) (env : TextQueryResult.t) :
  (∀ t name, t ∈ tickets (db w) → Ticket.status t = DONE →
             Spec.ownerName w t = Some name → isInherited name = false) →
  handleCompletedTicketsQuery w q arg = Fulfilled env →
  ∃ r,
    TextQueryResult.result env = Some (CompletedResult r) ∧
    Completed.totalCompleted r
    = Spec.totalOver TeamStats.completed (Completed.byTeam r) ∧
    ∀ name stats,
      Completed.byTeam r !! name = Some stats →
      TeamStats.completed stats = Z.of_nat (length (Spec.doneTicketsNamed w name)) ∧
      TeamStats.storyPoints stats
      = Spec.sumZ ((fun t => default 0 (Ticket.storyPoints t))
                   <$> Spec.doneTicketsNamed w name).
Proof.
  intros Hclean. unfold handleCompletedTicketsQuery, findDoneTickets, call.
  destruct (failing w ticket_findMany); [done|]. simpl.
  set (rows := withTeam w <$> List.filter isDone (tickets (db w))).
  destruct (fold_left reduceCompleted rows (Fulfilled ∅)) as [stats|] eqn:Hfold; [|done].
  simpl. intros [= <-]. eexists. split; [reflexivity|]. simpl.
  destruct (fold_reduceCompleted_table rows [] ∅ stats) as [Htable Htotal]; try done.
  { apply Forall_forall. intros row Hrow name Hname.
    apply list_elem_of_fmap in Hrow as (t & -> & Ht).
    rewrite List_filter_filter in Ht. apply list_elem_of_filter in Ht as [Hd Ht].
    apply (Hclean t name Ht); [|exact Hname].
    unfold isDone in Hd. by apply bool_decide_eq_true in Hd. }
  simpl in Htable, Htotal. split; [done|].
  intros name st Hst. rewrite Htable in Hst. unfold Spec.entryOf in Hst.
  unfold Spec.doneTicketsNamed. rewrite <- (rowsNamed_doneTicketsNamed w name). fold rows.
  destruct (Spec.rowsNamed name rows) as [|r owned]; [done|].
  injection Hst as <-. simpl. rewrite length_fmap. split; [done|].
  by rewrite <- list_fmap_compose.
Qed.

(** ** The empty store *)

Example velocity_of_blank_store :
  TextQueryResult.result <$>
    outcome (handleVelocityQuery (N := Binary64) Scenario.blank "velocity" "all")
  = Some (Some (VelocityResult
      {| Velocity.team := Some "All Teams";
         Velocity.averageVelocity := ofZ 0;
         Velocity.sprintsAnalyzed := 0;
         Velocity.timePeriod := "last 5 sprints" |})).
Proof. reflexivity. Qed.

Example bug_rate_of_blank_store :
  TextQueryResult.result <$>
    outcome (handleBugCountQuery (N := Binary64) Scenario.blank "bugs" "all")
  = Some (Some (BugCountResult
      {| BugCount.team := Some "All Teams";
         BugCount.totalTickets := 0;
         BugCount.bugTickets := 0;
         BugCount.bugRate := ofZ 0;
         BugCount.timePeriod := "last quarter" |})).
Proof. reflexivity. Qed.

Example resolution_time_of_blank_store :
  outcome (handleResolutionTimeQuery (N := Binary64) Scenario.blank "fix time" "all")
  = Some {| TextQueryResult.query := "fix time";
            TextQueryResult.result := None;
            TextQueryResult.interpretation :=
              "No resolved tickets found to calculate resolution time." |}.
Proof. reflexivity. Qed.

Example gibberish_is_not_understood :
  processTextQuery (N := Binary64) Scenario.healthy "xyz random gibberish"
  = Fulfilled (notUnderstood "xyz random gibberish").
Proof. reflexivity. Qed.

(** ** The team token of the rule list *)

Section Captures.
Import RegExp.

(** Texts closed under dropping a first character. *)
Variable P : string → Prop.
Hypothesis P_tail : ∀ c s, P (String c s) → P s.

Local Abbreviation keeps := (Terms.keeps P).

Lemma lit_tail (p s rest : string) : lit p s = Some rest → P s → P rest.
Proof.
  revert s. induction p as [|a p IH]; intros s Hl Hs.
  - destruct s; simpl in Hl; by injection Hl as <-.
  - destruct s as [|c s]; simpl in Hl; [done|].
    destruct (Ascii.eqb _ _); [|done]. eauto.
Qed.

Lemma star_keeps (cs : CharSet) (k : Cont) :
  keeps k → keeps (fun s caps => star cs s caps k).
Proof.
  intros Hk s. induction s as [|c s IH]; intros caps r Hs Hc; simpl.
  - by apply Hk.
  - destruct (inSet cs c); [|by apply Hk].
    destruct (star cs s caps k) as [r'|] eqn:E.
    + intros [= <-]. apply (IH caps); eauto.
    + by apply Hk.
Qed.

Lemma run_keeps (r : Re) (k : Cont) :
  Terms.withoutGroup 4 r = true → keeps k → keeps (fun s caps => run r s caps k).
Proof.
  revert k. induction r as [p|r1 IH1 r2 IH2|r1 IH1 r2 IH2|cs|cs|r' IH|n r' IH];
    intros k Hr Hk; simpl in Hr.
  - intros s caps res Hs Hc. simpl.
    destruct (lit p s) as [rest|] eqn:E; [|done].
    apply Hk; [by eapply lit_tail|done].
  - apply andb_true_iff in Hr as [H1 H2].
    intros s caps res Hs Hc. simpl.
    destruct (run r1 s caps k) as [res'|] eqn:E.
    + intros [= <-]. by apply (IH1 k H1 Hk s caps).
    + by apply (IH2 k H2 Hk s caps).
  - apply andb_true_iff in Hr as [H1 H2].
    apply (IH1 _ H1). apply (IH2 _ H2 Hk).
  - by apply star_keeps.
  - intros s caps res Hs Hc. simpl.
    destruct s as [|c s]; [done|]. destruct (inSet cs c); [|done].
    apply (star_keeps cs k Hk); eauto.
  - intros s caps res Hs Hc. simpl.
    destruct (run r' s caps k) as [res'|] eqn:E.
    + intros [= <-]. by apply (IH k Hr Hk s caps).
    + by apply Hk.
  - apply andb_true_iff in Hr as [Hn Hr].
    intros s caps res Hs Hc. simpl.
    apply (IH (fun rest caps' => k rest (<[n := consumed s rest]> caps')) Hr); [|done..].
    intros rest caps' res' Hrest Hc'. apply Hk; [done|].
    rewrite lookup_insert_ne; [done|].
    apply negb_true_iff, Nat.eqb_neq in Hn. done.
Qed.

Lemma exec_keeps (r : Re) (s : string) (m : Captures) :
  (∀ s', P s' → matchAt r s' = Some m → m !! 4%nat = None) →
  P s → exec r s = Some m → m !! 4%nat = None.
Proof.
  intros Hat. induction s as [|c s IH]; intros Hs; simpl.
  - destruct (matchAt r "") eqn:E; [|done]. intros [= <-]. by apply (Hat "").
  - destruct (matchAt r (String c s)) eqn:E.
    + intros [= <-]. by apply (Hat (String c s)).
    + eauto.
Qed.

End Captures.

Section Tails.
Import RegExp.

Lemma singleLine_tail (c : ascii) (s : string) :
  Terms.singleLine (String c s) = true → Terms.singleLine s = true.
Proof. simpl. by intros [_ ?]%andb_true_iff. Qed.

(** Greedy repetition over a text made of the repeated characters only:
    what follows is tried at the end of the text first. *)
Lemma star_to_the_end (s : string) (caps r : Captures) (k : Cont) :
  Terms.singleLine s = true → k "" caps = Some r → star AnyChar s caps k = Some r.
Proof.
  intros Hs Hk. induction s as [|c s IH]; [done|].
  simpl in Hs. apply andb_true_iff in Hs as [Hc Hs]. simpl.
  rewrite Hc. by rewrite (IH Hs).
Qed.

(** On a text without line terminators the team clause matches with
    neither of its groups taking part. *)
Lemma teamClause_single_line (g : nat) (s : string) (caps : Captures) :
  Terms.singleLine s = true →
  run (seq (teamClause g)) s caps (fun _ caps' => Some caps') = Some caps.
Proof. intros Hs. by apply star_to_the_end. Qed.

Lemma teamClause_keeps_single_line (g : nat) :
  Terms.keeps (fun s => Terms.singleLine s = true)
    (fun s caps => run (seq (teamClause g)) s caps (fun _ caps' => Some caps')).
Proof.
  intros s caps r Hs Hc. rewrite teamClause_single_line by done. by intros [= <-].
Qed.

Lemma final_keeps (P : string → Prop) : Terms.keeps P (fun _ caps => Some caps).
Proof. by intros s caps r _ Hc [= <-]. Qed.

Lemma settles_keeps (k : Cont) : Terms.settles k → Terms.keeps (fun _ => True) k.
Proof.
  intros Hk s caps r _ Hc Hr. destruct (Hk s caps Hc) as (r' & Hr' & Hnone). congruence.
Qed.

Lemma star_settles (cs : CharSet) (k : Cont) :
  Terms.settles k → Terms.settles (fun s caps => star cs s caps k).
Proof.
  intros Hk s. induction s as [|c s IH]; intros caps Hc; simpl; [by apply Hk|].
  destruct (inSet cs c); [|by apply Hk].
  destruct (IH caps Hc) as (r & -> & Hr). eauto.
Qed.

Lemma opt_settles (r : Re) (k : Cont) :
  Terms.withoutGroup 4 r = true → Terms.settles k → Terms.settles (fun s caps => run (Opt r) s caps k).
Proof.
  intros Hr Hk s caps Hc. simpl.
  destruct (run r s caps k) as [res|] eqn:E; [|by apply Hk].
  exists res. split; [done|].
  by apply (run_keeps (fun _ => True) (fun _ _ _ => I) r k Hr (settles_keeps k Hk) s caps).
Qed.

Lemma star_stops (s : string) (caps : Captures) (k : Cont) :
  (∀ rest, Terms.atLineEnd rest → ∃ r, k rest caps = Some r ∧ r !! 4%nat = None) →
  ∃ r, star AnyChar s caps k = Some r ∧ r !! 4%nat = None.
Proof.
  intros Hk. induction s as [|c s IH]; simpl; [by apply Hk|].
  destruct (isLineTerminator c) eqn:Hc; simpl.
  - by apply Hk.
  - by destruct IH as (r & -> & Hr); eauto.
Qed.

Lemma lit_at_line_end (p rest : string) :
  Terms.atLineEnd rest →
  (∃ a p', p = String a p' ∧ isLineTerminator a = false ∧ isLower a || isUpper a = true) →
  lit p rest = None.
Proof.
  intros Hrest (a & p' & -> & Ha & Hl). destruct rest as [|c rest]; [done|].
  simpl in Hrest. simpl.
  destruct (Ascii.eqb (upperChar a) (upperChar c)) eqn:E; [|done].
  exfalso. apply Ascii.eqb_eq in E. revert Hrest Hl E.
  destruct c as [[] [] [] [] [] [] [] []]; try discriminate;
    destruct a as [[] [] [] [] [] [] [] []]; try discriminate.
Qed.
End Tails.

Section TeamToken.
Import RegExp.
Context {N : Number}.

Lemma final_settles : Terms.settles (fun _ caps => Some caps).
Proof. intros s caps Hc. eauto. Qed.

Lemma opt_for_of_at_line_end (g : nat) (rest : string) (caps : Captures) (k : Cont) :
  Terms.atLineEnd rest → run (Opt (Group g (alts ["for"; "of"]))) rest caps k = k rest caps.
Proof.
  intros Hrest. cbn [run alts].
  by rewrite !(lit_at_line_end _ rest Hrest) by (eexists _, _; split; [reflexivity|done]).
Qed.

Lemma after_first_group_settles :
  Terms.settles (fun s caps =>
    run (Star WhiteSpace) s caps
      (fun s caps =>
         run (Opt (Seq (Lit "team") (Star WhiteSpace))) s caps
           (fun s caps =>
              run (Opt (Group 5 (Plus AlnumSpace))) s caps (fun _ caps' => Some caps')))).
Proof.
  apply (star_settles WhiteSpace).
  apply (opt_settles (Seq (Lit "team") (Star WhiteSpace))); [done|].
  apply (opt_settles (Group 5 (Plus AlnumSpace))); [done|].
  apply final_settles.
Qed.

(** The team clause whose first group is group 4: that group never takes
    part in a match. *)
Lemma teamClause_4_settles :
  Terms.settles (fun s caps => run (seq (teamClause 4)) s caps (fun _ caps' => Some caps')).
Proof.
  intros s caps Hc. apply star_stops. intros rest Hrest.
  change (∃ r,
    run (Opt (Group 4 (alts ["for"; "of"]))) rest caps
      (fun rest' caps' =>
         run (Star WhiteSpace) rest' caps'
           (fun rest' caps' =>
              run (Opt (Seq (Lit "team") (Star WhiteSpace))) rest' caps'
                (fun rest' caps' =>
                   run (Opt (Group 5 (Plus AlnumSpace))) rest' caps'
                     (fun _ caps' => Some caps')))) = Some r ∧ r !! 4%nat = None).
  rewrite opt_for_of_at_line_end by done.
  by apply after_first_group_settles.
Qed.

Lemma resolutionTimePattern_group_4 (s : string) (m : Captures) :
  exec resolutionTimePattern s = Some m → m !! 4%nat = None.
Proof.
  apply (exec_keeps (fun _ => True) (fun _ _ _ => I)); [|done].
  intros s' _ Hm.
  apply (run_keeps (fun _ => True) (fun _ _ _ => I)
           (Seq (Group 1 (alts ["average"; "mean"; "median"]))
              (Seq (Star AnyChar)
                 (Seq (Group 2 (alts ["resolution"; "fix"; "close"]))
                    (Seq (Star AnyChar) (Group 3 (alts ["time"; "duration"]))))))
           (fun s caps => run (seq (teamClause 4)) s caps (fun _ caps' => Some caps'))
           eq_refl (settles_keeps _ teamClause_4_settles) s' ∅ m I (lookup_empty _)).
  exact Hm.
Qed.

Lemma single_line_group_4 (rule : Rule) (s : string) (m : Captures) :
  rule ∈ queryPatterns → Terms.singleLine s = true →
  exec (pattern rule) s = Some m → m !! 4%nat = None.
Proof.
  intros Hrule Hs.
  assert (Hclause : ∀ p prefix : Re, Terms.withoutGroup 4 prefix = true →
    (∀ s', matchAt p s'
           = run prefix s' ∅
               (fun s caps => run (seq (teamClause 3)) s caps (fun _ caps' => Some caps'))) →
    exec p s = Some m → m !! 4%nat = None).
  { intros p prefix Hprefix Hp.
    apply (exec_keeps (fun s => Terms.singleLine s = true) singleLine_tail); [|done].
    intros s' Hs' Hm. rewrite Hp in Hm.
    exact (run_keeps _ singleLine_tail prefix _ Hprefix (teamClause_keeps_single_line 3)
             s' ∅ m Hs' (lookup_empty _) Hm). }
  assert (Hplain : ∀ r : Re, Terms.withoutGroup 4 r = true →
    exec r s = Some m → m !! 4%nat = None).
  { intros r Hr. apply (exec_keeps (fun _ => True) (fun _ _ _ => I)); [|done].
    intros s' _ Hm.
    exact (run_keeps _ (fun _ _ _ => I) r _ Hr (final_keeps _) s' ∅ m I (lookup_empty _) Hm). }
  unfold queryPatterns in Hrule.
  repeat (apply elem_of_cons in Hrule as [-> | Hrule]); [..|by apply elem_of_nil in Hrule];
    simpl pattern.
  - apply (Hclause _ (Seq (Group 1 (alts ["show"; "display"; "get"; "what is"; "what are"; "view"]))
                      (Seq (Star AnyChar) (Group 2 (alts ["velocity"; "story points"; "sprint"])))));
      done.
  - apply (Hclause _ (Seq (Group 1 (alts ["how many"; "count"; "number of"; "total"]))
                      (Seq (Star AnyChar) (Group 2 (alts ["bugs"; "defects"; "issues"])))));
      done.
  - apply resolutionTimePattern_group_4.
  - apply (Hclause _ (Seq (Group 1 (alts ["completed"; "done"; "finished"]))
                      (Seq (Star AnyChar) (Group 2 (alts ["tickets"; "tasks"; "items"])))));
      done.
  - by apply Hplain.
  - by apply Hplain.
Qed.

Lemma teamNameOf_without_group_4 (m : Captures) : m !! 4%nat = None → teamNameOf m = "all".
Proof. intros Hm. unfold teamNameOf. by rewrite Hm. Qed.
End TeamToken.

Lemma isLineTerminator_lowerChar (c : ascii) :
  isLineTerminator (lowerChar c) = isLineTerminator c.
Proof. by destruct c as [[] [] [] [] [] [] [] []]. Qed.

Lemma singleLine_toLowerCase (s : string) :
  Terms.singleLine (toLowerCase s) = Terms.singleLine s.
Proof.
  induction s as [|c s IH]; [done|]. simpl. by rewrite isLineTerminator_lowerChar, IH.
Qed.

Lemma singleLine_trimStart (s : string) :
  Terms.singleLine s = true → Terms.singleLine (trimStart s) = true.
Proof.
  induction s as [|c s IH]; [done|]. intros Hs. simpl.
  destruct (isSpace c); [|done]. apply IH. by apply singleLine_tail in Hs.
Qed.

Lemma singleLine_trimEnd (s : string) :
  Terms.singleLine s = true → Terms.singleLine (trimEnd s) = true.
Proof.
  induction s as [|c s IH]; [done|]. simpl. intros [Hc Hs]%andb_true_iff.
  specialize (IH Hs). destruct (trimEnd s) as [|d rest].
  - destruct (isSpace c); [done|]. simpl. by rewrite Hc.
  - change (negb (isLineTerminator c) && Terms.singleLine (String d rest) = true).
    by rewrite Hc, IH.
Qed.

Lemma singleLine_normalized (q : string) :
  Terms.singleLine q = true → Terms.singleLine (trim (toLowerCase q)) = true.
Proof.
  intros Hq. unfold trim. apply singleLine_trimEnd, singleLine_trimStart.
  by rewrite singleLine_toLowerCase.
Qed.

Lemma firstMatch_some `{N : Number} (rules : list Rule) (w : World) (q nq : string)
    (called : Promise TextQueryResult.t) :
  firstMatch rules w q nq = Some called →
  ∃ rule m, rule ∈ rules ∧ RegExp.exec (pattern rule) nq = Some m ∧
            called = handler rule w q (teamNameOf m).
Proof.
  induction rules as [|rule rules IH]; [done|]. simpl.
  destruct (RegExp.exec (pattern rule) nq) as [m|] eqn:E.
  - intros [= <-]. exists rule, m. split; [left|done].
  - intros H. destruct (IH H) as (rule' & m & Hin & Hm & ->).
    exists rule', m. split; [by right|done].
Qed.

(** X1. A query without a line break is never answered for a single team:
    whatever rule its normalised text matches first, the handler of that
    rule is called with the team token [all] (and the keyword fallback
    passes [all] as well), so a team named in such a query is not looked
    up. *)
Theorem single_line_query_is_answered_for_all_teams `{N : Number} (w : World) (q : string) :
  Terms.singleLine q = true →
  (∃ rule, rule ∈ queryPatterns ∧
     is_Some (RegExp.exec (pattern rule) (trim (toLowerCase q))) ∧
     firstMatch queryPatterns w q (trim (toLowerCase q)) = Some (handler rule w q "all") ∧
     processTextQuery w q
     = try_catch (handler rule w q "all") (Fulfilled (processingError q))) ∨
  (firstMatch queryPatterns w q (trim (toLowerCase q)) = None ∧
   processTextQuery w q = analyzeQueryByKeywords w q).
Proof.
  intros Hq. unfold processTextQuery, processTextQueryWith.
  destruct (firstMatch queryPatterns w q (trim (toLowerCase q))) as [called|] eqn:Hfirst;
    [left|by right].
  destruct (firstMatch_some _ _ _ _ _ Hfirst) as (rule & m & Hin & Hm & ->).
  exists rule. rewrite (teamNameOf_without_group_4 m).
  - split; [done|]. split; [by rewrite Hm|done].
  - by apply (single_line_group_4 rule (trim (toLowerCase q)) m Hin (singleLine_normalized q Hq)).
Qed.

Lemma single_line_query_is_answered_for_all_teams_witness :
  let q := "Show velocity for team Alpha" in
  (∃ rule : @Rule Binary64, rule ∈ queryPatterns ∧
     is_Some (RegExp.exec (pattern rule) (trim (toLowerCase q))) ∧
     firstMatch (N := Binary64) queryPatterns Scenario.healthy q (trim (toLowerCase q))
     = Some (handler rule Scenario.healthy q "all") ∧
     processTextQuery Scenario.healthy q
     = try_catch (handler rule Scenario.healthy q "all") (Fulfilled (processingError q))) ∨
  (firstMatch (N := Binary64) queryPatterns Scenario.healthy q (trim (toLowerCase q)) = None ∧
   processTextQuery (N := Binary64) Scenario.healthy q
   = analyzeQueryByKeywords Scenario.healthy q).
Proof.
  intros q.
  apply (single_line_query_is_answered_for_all_teams (N := Binary64) Scenario.healthy q).
  reflexivity.
Defined.

(** X2. The third rule never passes a team on: in the resolution-time
    pattern the fourth group is the optional [for] or [of], which stands
    behind a greedy run of arbitrary characters and therefore never takes
    part in a match, so the token read from group 4 is always [all]. *)
Theorem resolution_rule_never_names_a_team (normalizedQuery : string) (m : RegExp.Captures) :
  RegExp.exec resolutionTimePattern normalizedQuery = Some m →
  m !! 4%nat = None ∧ teamNameOf m = "all".
Proof.
  intros Hm. apply resolutionTimePattern_group_4 in Hm.
  split; [done|]. by apply teamNameOf_without_group_4.
Qed.

Lemma resolution_rule_never_names_a_team_witness :
  let q := "average fix time for team alpha" ++ Scenario.newline ++ "beta" in
  ∃ m, RegExp.exec resolutionTimePattern q = Some m ∧
       m !! 5%nat = Some "beta" ∧ m !! 4%nat = None ∧ teamNameOf m = "all".
Proof.
  intros q. exists (default ∅ (RegExp.exec resolutionTimePattern q)).
  split; [reflexivity|]. split; [reflexivity|].
  apply (resolution_rule_never_names_a_team q). reflexivity.
Defined.

(** ** The echoed query *)

Section Echo.
Context {N : Number}.
Variables (w : World) (q q' : string).

Lemma handleVelocityQuery_echo (t : string) :
  handleVelocityQuery w q t = Terms.echoing q (handleVelocityQuery w q' t).
Proof.
  unfold handleVelocityQuery, findTeamWithSprints, findRecentSprints, call.
  destruct (String.eqb t "all"); simpl.
  - by destruct (failing w sprint_findMany).
  - destruct (failing w team_findFirst); [done|]. simpl.
    by destruct (List.find _ _).
Qed.

Lemma handleBugCountQuery_echo (t : string) :
  handleBugCountQuery w q t = Terms.echoing q (handleBugCountQuery w q' t).
Proof.
  unfold handleBugCountQuery, findTeam, countTickets, call.
  destruct (String.eqb t "all"); simpl.
  - by destruct (failing w ticket_count).
  - destruct (failing w team_findFirst); [done|]. simpl.
    destruct (List.find _ _); simpl; [|done].
    by destruct (failing w ticket_count).
Qed.

Lemma handleResolutionTimeQuery_echo (t : string) :
  handleResolutionTimeQuery w q t = Terms.echoing q (handleResolutionTimeQuery w q' t).
Proof.
  unfold handleResolutionTimeQuery, findResolvedTickets, call.
  destruct (failing w ticket_findMany); [done|]. simpl.
  by destruct (length _ =? 0)%nat.
Qed.

Lemma handleCompletedTicketsQuery_echo (t : string) :
  handleCompletedTicketsQuery w q t = Terms.echoing q (handleCompletedTicketsQuery w q' t).
Proof.
  unfold handleCompletedTicketsQuery, findDoneTickets, call.
  destruct (failing w ticket_findMany); [done|]. simpl.
  by destruct (fold_left reduceCompleted _ _).
Qed.

Lemma handleTeamPerformanceQuery_echo (t : string) :
  handleTeamPerformanceQuery w q t = Terms.echoing q (handleTeamPerformanceQuery w q' t).
Proof.
  unfold handleTeamPerformanceQuery, findTeams, call.
  by destruct (failing w team_findMany).
Qed.

Lemma handleQuarterlyTrendsQuery_echo :
  handleQuarterlyTrendsQuery w q = Terms.echoing q (handleQuarterlyTrendsQuery w q').
Proof.
  unfold handleQuarterlyTrendsQuery. rewrite handleVelocityQuery_echo.
  by destruct (handleVelocityQuery w q' "all").
Qed.

Lemma rule_handler_echo (rule : Rule) (t : string) :
  rule ∈ queryPatterns → handler rule w q t = Terms.echoing q (handler rule w q' t).
Proof.
  intros Hrule. unfold queryPatterns in Hrule.
  repeat (apply elem_of_cons in Hrule as [-> | Hrule]); [..|by apply elem_of_nil in Hrule];
    simpl handler.
  - apply handleVelocityQuery_echo.
  - apply handleBugCountQuery_echo.
  - apply handleResolutionTimeQuery_echo.
  - apply handleCompletedTicketsQuery_echo.
  - apply handleTeamPerformanceQuery_echo.
  - apply handleQuarterlyTrendsQuery_echo.
Qed.

Lemma categoryHandler_echo (c : Category) :
  categoryHandler c w q = Terms.echoing q (categoryHandler c w q').
Proof.
  destruct c; simpl.
  - apply handleVelocityQuery_echo.
  - apply handleBugCountQuery_echo.
  - apply handleResolutionTimeQuery_echo.
  - apply handleQuarterlyTrendsQuery_echo.
  - apply handleTeamPerformanceQuery_echo.
Qed.

Lemma firstMatch_echo (rules : list Rule) (nq : string) :
  rules ⊆ queryPatterns →
  firstMatch rules w q nq = Terms.echoing q <$> firstMatch rules w q' nq.
Proof.
  induction rules as [|rule rules IH]; intros Hsub; [done|]. simpl.
  destruct (RegExp.exec (pattern rule) nq) as [m|].
  - simpl. f_equal. apply rule_handler_echo. apply Hsub. by left.
  - apply IH. intros r Hr. apply Hsub. by right.
Qed.

Lemma processTextQuery_echo :
  toLowerCase q = toLowerCase q' →
  processTextQuery w q = Terms.echoing q (processTextQuery w q').
Proof.
  intros Hlow. unfold processTextQuery, processTextQueryWith.
  rewrite firstMatch_echo by done. rewrite Hlow.
  destruct (firstMatch queryPatterns w q' _) as [called|]; simpl.
  - by destruct called.
  - unfold analyzeQueryByKeywords. rewrite Hlow.
    destruct (bestMatch _) as [best|]; [|done]. apply categoryHandler_echo.
Qed.
End Echo.

(** X3. Every envelope the interpreter settles with echoes the query
    exactly as it was submitted, not its normalised form. *)
Theorem envelope_echoes_the_query `{N : Number} (w : World) (q : string)
    (env : TextQueryResult.t) :
  processTextQuery w q = Fulfilled env → TextQueryResult.query env = q.
Proof.
  intros Henv. pose proof (processTextQuery_echo w q q eq_refl) as Hecho.
  rewrite Henv in Hecho. simpl in Hecho. injection Hecho as Hecho. by rewrite Hecho.
Qed.

Lemma envelope_echoes_the_query_witness :
  TextQueryResult.query <$>
    outcome (processTextQuery (N := Binary64) Scenario.healthy "  HOW many Bugs?  ")
  = Some "  HOW many Bugs?  ".
Proof.
  destruct (processTextQuery (N := Binary64) Scenario.healthy "  HOW many Bugs?  ")
    as [env|] eqn:E; [|discriminate E].
  simpl. f_equal.
  exact (envelope_echoes_the_query (N := Binary64) Scenario.healthy _ env E).
Defined.

(** X4. The interpreter does not distinguish letter case: two queries
    that differ only in the case of their letters settle alike, with the
    same result and the same interpretation, each envelope echoing its own
    query. *)
Theorem letter_case_of_the_query_is_immaterial `{N : Number} (w : World) (q1 q2 : string) :
  toLowerCase q1 = toLowerCase q2 →
  Terms.answer <$> outcome (processTextQuery w q1)
  = Terms.answer <$> outcome (processTextQuery w q2).
Proof.
  intros Hlow. rewrite (processTextQuery_echo w q1 q2 Hlow).
  by destruct (processTextQuery w q2).
Qed.

Lemma letter_case_of_the_query_is_immaterial_witness :
  Terms.answer <$>
    outcome (processTextQuery (N := Binary64) Scenario.healthy "HOW MANY BUGS")
  = Terms.answer <$>
    outcome (processTextQuery (N := Binary64) Scenario.healthy "how many bugs").
Proof.
  apply (letter_case_of_the_query_is_immaterial (N := Binary64) Scenario.healthy).
  reflexivity.
Defined.

(** ** When the interpreter rejects *)

Lemma firstMatch_none `{N : Number} (rules : list Rule) (w : World) (q nq : string) :
  firstMatch rules w q nq = None ↔
  Forall (fun rule => RegExp.exec (pattern rule) nq = None) rules.
Proof.
  induction rules as [|rule rules IH]; simpl.
  - split; [constructor|done].
  - destruct (RegExp.exec (pattern rule) nq) as [m|] eqn:E.
    + split; [done|]. intros H. inversion H; congruence.
    + rewrite IH. split; [by constructor|]. intros H. by inversion H.
Qed.

Lemma handleResolutionTimeQuery_rejected `{N : Number} (w : World) (q t : string) :
  handleResolutionTimeQuery w q t = Rejected ↔ failing w ticket_findMany = true.
Proof.
  unfold handleResolutionTimeQuery, findResolvedTickets, call.
  destruct (failing w ticket_findMany); simpl; [done|].
  by destruct (length _ =? 0)%nat.
Qed.

Lemma handleTeamPerformanceQuery_rejected `{N : Number} (w : World) (q t : string) :
  handleTeamPerformanceQuery w q t = Rejected ↔ failing w team_findMany = true.
Proof.
  unfold handleTeamPerformanceQuery, findTeams, call.
  by destruct (failing w team_findMany).
Qed.

Lemma analyzeQueryByKeywords_rejected `{N : Number} (w : World) (q : string) :
  analyzeQueryByKeywords w q = Rejected ↔
  (Spec.classify q = Some resolution ∧ failing w ticket_findMany = true) ∨
  (Spec.classify q = Some performance ∧ failing w team_findMany = true).
Proof.
  unfold analyzeQueryByKeywords, Spec.classify.
  destruct (bestMatch (toLowerCase q)) as [best|]; simpl.
  - destruct (category best); simpl.
    + destruct (handleVelocityQuery_fulfilled w q "all") as [env ->].
      split; [done|]. by intros [[? _]|[? _]].
    + destruct (handleBugCountQuery_fulfilled w q "all") as [env ->].
      split; [done|]. by intros [[? _]|[? _]].
    + rewrite handleResolutionTimeQuery_rejected. split; [by left|].
      by intros [[_ ?]|[? _]].
    + destruct (handleQuarterlyTrendsQuery_fulfilled w q) as [env ->].
      split; [done|]. by intros [[? _]|[? _]].
    + rewrite handleTeamPerformanceQuery_rejected. split; [by right|].
      by intros [[? _]|[_ ?]].
  - split; [done|]. by intros [[? _]|[? _]].
Qed.

(** X5. The interpreter rejects, leaving its caller without an envelope,
    in exactly one situation: no rule matches the normalised query, the
    keyword fallback settles on [resolution] or on [performance], and the
    lookup of that handler (tickets, respectively teams) fails. In every
    other case it settles with an envelope. *)
Theorem interpreter_rejects_exactly_on_unguarded_fallback `{N : Number}
    (w : World) (q : string) :
  processTextQuery w q = Rejected ↔
  Forall (fun rule => RegExp.exec (pattern rule) (trim (toLowerCase q)) = None) queryPatterns ∧
  ((Spec.classify q = Some resolution ∧ failing w ticket_findMany = true) ∨
   (Spec.classify q = Some performance ∧ failing w team_findMany = true)).
Proof.
  rewrite <- (firstMatch_none queryPatterns w q), <- analyzeQueryByKeywords_rejected.
  unfold processTextQuery, processTextQueryWith.
  destruct (firstMatch queryPatterns w q (trim (toLowerCase q))) as [called|].
  - destruct called; simpl; split; try done; by intros [? _].
  - tauto.
Qed.

(** ** The route *)

(** X6. What [POST /text-query] answers. It answers 400 exactly when the
    body carries no text or an empty one, whatever the store. Given a
    non-empty text it answers 200 with the interpreter's envelope, which
    echoes that text, unless the interpreter rejects, and then it answers
    500 with a fixed error text; so the route answers every request, and
    the only requests answered with 500 are those whose query matches no
    rule, falls back on [resolution] or [performance] and meets a failing
    lookup. *)
Theorem text_query_route_answers_every_request `{N : Number} (w : World)
    (body : Route.Field) :
  match Route.postTextQuery w body with
  | Route.ValidationError => ∀ q, body = Route.Text q → q = ""
  | Route.Ok data =>
      ∃ q, body = Route.Text q ∧ q ≠ "" ∧ processTextQuery w q = Fulfilled data ∧
           TextQueryResult.query data = q
  | Route.ServerError error =>
      error = "Failed to process text query" ∧
      ∃ q, body = Route.Text q ∧ q ≠ "" ∧
           Forall (fun rule => RegExp.exec (pattern rule) (trim (toLowerCase q)) = None)
             queryPatterns ∧
           ((Spec.classify q = Some resolution ∧ failing w ticket_findMany = true) ∨
            (Spec.classify q = Some performance ∧ failing w team_findMany = true))
  end.
Proof.
  unfold Route.postTextQuery, Route.textQuerySchema.
  destruct body as [| |q]; [done..|].
  destruct q as [|c q]; simpl; [by intros ? [= <-]|].
  assert (Hq : String c q ≠ "") by done.
  revert Hq. generalize (String c q). clear c q. intros q Hq.
  destruct (processTextQuery w q) as [data|] eqn:E.
  - exists q. split_and!; try done.
    pose proof (processTextQuery_echo w q q eq_refl) as Hecho.
    rewrite E in Hecho. simpl in Hecho. injection Hecho as Hecho. by rewrite Hecho.
  - split; [done|]. exists q. split; [done|]. split; [done|].
    rewrite <- (firstMatch_none queryPatterns w q), <- analyzeQueryByKeywords_rejected.
    unfold processTextQuery, processTextQueryWith in E.
    destruct (firstMatch queryPatterns w q (trim (toLowerCase q))) as [called|]; [|done].
    by destruct called.
Qed.

(** ** What the handlers answer *)

(** X7. The velocity handler and the bug-count handler always settle
    with an envelope, and its result is null in exactly two situations: a
    lookup the handler needs fails, or the team token is not [all] and
    names no team. *)
Theorem velocity_and_bug_count_result_is_null_exactly_on_failure `{N : Number}
    (w : World) (q t : string) :
  (∃ env, handleVelocityQuery w q t = Fulfilled env ∧
     (TextQueryResult.result env = None ↔
      (t = "all" ∧ failing w sprint_findMany = true) ∨
      (t ≠ "all" ∧ (failing w team_findFirst = true ∨ Spec.resolveTeam w t = None)))) ∧
  (∃ env, handleBugCountQuery w q t = Fulfilled env ∧
     (TextQueryResult.result env = None ↔
      (t = "all" ∧ failing w ticket_count = true) ∨
      (t ≠ "all" ∧ (failing w team_findFirst = true ∨ Spec.resolveTeam w t = None ∨
                    failing w ticket_count = true)))).
Proof.
  split.
  - unfold handleVelocityQuery, findTeamWithSprints, findRecentSprints, call.
    change (List.find (sameName t) (teams (db w))) with (Spec.resolveTeam w t).
    destruct (String.eqb_spec t "all") as [->|Hall]; simpl.
    + destruct (failing w sprint_findMany); simpl; eexists; (split; [reflexivity|]); simpl.
      * split; [|done]. intros _. by left.
      * split; [done|]. by intros [[_ ?]|[? _]].
    + destruct (failing w team_findFirst); simpl.
      * eexists. split; [reflexivity|]. simpl. split; [|done]. intros _. right. auto.
      * destruct (Spec.resolveTeam w t) as [tm|]; simpl;
          eexists; (split; [reflexivity|]); simpl.
        -- split; [done|]. by intros [[? _]|[_ [?|?]]].
        -- split; [|done]. intros _. right. auto.
  - unfold handleBugCountQuery, findTeam, countTickets, call.
    change (List.find (sameName t) (teams (db w))) with (Spec.resolveTeam w t).
    destruct (String.eqb_spec t "all") as [->|Hall]; simpl.
    + destruct (failing w ticket_count); simpl; eexists; (split; [reflexivity|]); simpl.
      * split; [|done]. intros _. by left.
      * split; [done|]. by intros [[_ ?]|[? _]].
    + destruct (failing w team_findFirst); simpl.
      * eexists. split; [reflexivity|]. simpl. split; [|done]. intros _. right. auto.
      * destruct (Spec.resolveTeam w t) as [tm|]; simpl.
        -- destruct (failing w ticket_count); simpl; eexists; (split; [reflexivity|]); simpl.
           ++ split; [|done]. intros _. right. auto.
           ++ split; [done|]. by intros [[? _]|[_ [?|[?|?]]]].
        -- eexists. split; [reflexivity|]. simpl. split; [|done]. intros _. right. auto.
Qed.

Lemma sameName_lower (t1 t2 : string) (tm : Team.t) :
  toLowerCase t1 = toLowerCase t2 → sameName t1 tm = sameName t2 tm.
Proof. intros H. unfold sameName. by rewrite H. Qed.

Lemma find_sameName_lower (t1 t2 : string) (l : list Team.t) :
  toLowerCase t1 = toLowerCase t2 → List.find (sameName t1) l = List.find (sameName t2) l.
Proof.
  intros H. induction l as [|tm l IH]; [done|]. simpl.
  by rewrite (sameName_lower t1 t2 tm H), IH.
Qed.

(** X8. The team token is resolved without regard to letter case: for
    two tokens other than [all] that differ only in letter case, the
    velocity handler and the bug-count handler report the same result,
    and when the token names a team the whole envelope is the same, the
    team being shown under its stored name. *)
Theorem team_token_is_resolved_without_letter_case `{N : Number}
    (w : World) (q t1 t2 : string) (h : Handler) :
  h = handleVelocityQuery ∨ h = handleBugCountQuery →
  toLowerCase t1 = toLowerCase t2 → t1 ≠ "all" → t2 ≠ "all" →
  TextQueryResult.result <$> outcome (h w q t1)
  = TextQueryResult.result <$> outcome (h w q t2) ∧
  (is_Some (Spec.resolveTeam w t1) → h w q t1 = h w q t2).
Proof.
  intros Hh Hlow H1 H2.
  apply String.eqb_neq in H1, H2.
  pose proof (find_sameName_lower t1 t2 (teams (db w)) Hlow) as Hfind.
  unfold Spec.resolveTeam.
  change (fun tm => String.eqb (toLowerCase (Team.name tm)) (toLowerCase t1))
    with (sameName t1).
  destruct Hh as [-> | ->].
  - unfold handleVelocityQuery, findTeamWithSprints, call. rewrite H1, H2, Hfind.
    destruct (failing w team_findFirst); simpl; [by split|].
    destruct (List.find (sameName t2) _) as [tm|]; simpl.
    + unfold velocityEnvelope, teamLabel, scope. rewrite H1, H2. by split.
    + split; [done|]. by intros [? ?].
  - unfold handleBugCountQuery, findTeam, call. rewrite H1, H2, Hfind.
    destruct (failing w team_findFirst); simpl; [by split|].
    destruct (List.find (sameName t2) _) as [tm|]; simpl.
    + unfold bugCountEnvelope, teamLabel, scope. rewrite H1, H2. by split.
    + split; [done|]. by intros [? ?].
Qed.

Lemma team_token_is_resolved_without_letter_case_witness :
  handleVelocityQuery (N := Binary64) Scenario.healthy "velocity" "ALPHA"
  = handleVelocityQuery (N := Binary64) Scenario.healthy "velocity" "alpha".
Proof.
  apply (team_token_is_resolved_without_letter_case (N := Binary64)
           Scenario.healthy "velocity" "ALPHA" "alpha" handleVelocityQuery);
    [by left|reflexivity|discriminate|discriminate|].
  exists Scenario.alpha. reflexivity.
Defined.

(** ** Resolution time *)

Lemma resolved_rows_days `{N : Number} (l : list Ticket.t) :
  resolutionDays <$> omap resolvedRow l
  = Terms.wholeDays <$> filter (fun t => Ticket.status t = DONE ∧ Ticket.resolvedAt t ≠ None) l.
Proof.
  induction l as [|t l IH]; [done|].
  rewrite filter_cons.
  change (omap resolvedRow (t :: l))
    with (match resolvedRow t with
          | Some y => y :: omap resolvedRow l
          | None => omap resolvedRow l
          end).
  unfold resolvedRow at 1, isDone.
  destruct (decide (Ticket.status t = DONE)) as [Hd|Hd].
  - rewrite (bool_decide_eq_true_2 _ Hd).
    destruct (Ticket.resolvedAt t) as [r|] eqn:Hr.
    + rewrite decide_True by (split; [done|congruence]).
      cbn [fmap option_fmap option_map]. rewrite !fmap_cons, IH. f_equal.
      unfold resolutionDays, Terms.wholeDays. simpl. by rewrite Hr.
    + rewrite decide_False by (intros [_ ?]; congruence). done.
  - rewrite (bool_decide_eq_false_2 _ Hd).
    rewrite decide_False by (intros [? _]; congruence). done.
Qed.

Lemma avgOf_mean `{N : Number} (times : list Z) :
  times ≠ [] → avgOf times = Spec.mean times.
Proof.
  intros Hne. unfold avgOf, Spec.mean, ratio.
  rewrite (fold_left_sum (fun x => x)), Z.add_0_l, list_fmap_id.
  by destruct times.
Qed.

(** What the resolution-time handler answers once its lookup has
    succeeded. *)
Lemma handleResolutionTimeQuery_fulfilled `{N : Number} (w : World) (q t : string) :
  failing w ticket_findMany = false →
  let resolved := Terms.resolvedDone w in
  let days := Terms.wholeDays <$> resolved in
  handleResolutionTimeQuery w q t
  = Fulfilled
      match resolved with
      | [] =>
          {| TextQueryResult.query := q;
             TextQueryResult.result := None;
             TextQueryResult.interpretation :=
               "No resolved tickets found to calculate resolution time." |}
      | _ =>
          {| TextQueryResult.query := q;
             TextQueryResult.result := Some (ResolutionTimeResult
               {| ResolutionTime.averageResolutionTime :=
                    div (ofZ (Math_round (mul (Spec.mean days) (ofZ 100)))) (ofZ 100);
                  ResolutionTime.ticketsAnalyzed := Z.of_nat (length resolved);
                  ResolutionTime.unit := "days" |});
             TextQueryResult.interpretation :=
               "Average resolution time is " ++ pretty (Math_round (Spec.mean days)) ++
               " days based on " ++ pretty (Z.of_nat (length resolved)) ++
               " resolved tickets." |}
      end.
Proof.
  intros Hok resolved days. unfold handleResolutionTimeQuery, findResolvedTickets, call.
  rewrite Hok. simpl.
  pose proof (length_resolved_rows (tickets (db w))) as Hlen.
  fold (Terms.resolvedDone w) in Hlen. fold resolved in Hlen.
  pose proof (resolved_rows_days (tickets (db w))) as Hdays.
  fold (Terms.resolvedDone w) in Hdays. fold resolved in Hdays. fold days in Hdays.
  rewrite Hlen, Hdays.
  destruct resolved as [|k rest] eqn:Hres; [done|].
  cbn [length Nat.eqb]. unfold round2. rewrite avgOf_mean; [done|].
  unfold days. done.
Qed.

(** X9. The resolution-time handler, once its lookup has succeeded:
    when no DONE ticket carries a resolution timestamp the envelope has a
    null result and says that no resolved tickets were found, and nothing
    is divided; otherwise the reported average is [Math.round] of a
    hundred times the mean, divided by 100, the mean being taken over the
    resolution times of those tickets, each a whole number of days. In
    exact arithmetic that is the mean rounded to a whole number of
    hundredths, a half going up. On doubles, for resolution times whose
    sum is not negative, the number of hundredths is within one half,
    and a relative rounding error, of a hundred times the exact mean; it
    can come out one lower than in exact arithmetic: 41 days over 40
    tickets are reported as 1.02, the mean being 1.025. *)
Theorem resolution_time_is_the_mean_of_whole_days :
  (∀ (N : Number) (w : World) (q t : string) (env : TextQueryResult.t),
     handleResolutionTimeQuery w q t = Fulfilled env →
     match TextQueryResult.result env with
     | None =>
         Terms.resolvedDone w = [] ∧
         TextQueryResult.interpretation env
         = "No resolved tickets found to calculate resolution time."
     | Some (ResolutionTimeResult r) =>
         Terms.resolvedDone w ≠ [] ∧
         ResolutionTime.averageResolutionTime r
         = div (ofZ (Math_round (mul (Spec.mean (Terms.wholeDays <$> Terms.resolvedDone w))
                                   (ofZ 100))))
               (ofZ 100) ∧
         ResolutionTime.unit r = "days"
     | Some _ => False
     end) ∧
  (∀ x : Q,
     div (Number := Exact)
       (ofZ (Math_round (Number := Exact) (mul (Number := Exact) x (ofZ 100)))) (ofZ 100)
     = (inject_Z (Qfloor (x * 100 + (1 # 2))) / 100)%Q ∧
     (Qabs ((inject_Z (Qfloor (x * 100 + (1 # 2))) / 100) - x) <= 1 # 200)%Q) ∧
  (∀ ds : list Z,
     0 <= Spec.sumZ ds < 2 ^ 53 → Z.of_nat (length ds) < 2 ^ 53 →
     (Qabs (inject_Z (Math_round (Number := Binary64) (mul (Spec.mean ds) (ofZ 100)))
            - Spec.mean (N := Exact) ds * 100)
      <= (1 # 2) + Spec.mean (N := Exact) ds * 100 * (1 # 800000000000000))%Q) ∧
  (Terms.wholeDays (N := Binary64) <$> Terms.resolvedDone Scenario.slow
   = 41 :: replicate 39 0 ∧
   (∃ r : @ResolutionTime.t Binary64,
      TextQueryResult.result <$> outcome (handleResolutionTimeQuery Scenario.slow "fix time" "all")
      = Some (Some (ResolutionTimeResult r)) ∧
      ResolutionTime.averageResolutionTime r = PrimFloat.div (doubleOfZ 102) (doubleOfZ 100)) ∧
   (∃ r : @ResolutionTime.t Exact,
      TextQueryResult.result <$> outcome (handleResolutionTimeQuery Scenario.slow "fix time" "all")
      = Some (Some (ResolutionTimeResult r)) ∧
      (ResolutionTime.averageResolutionTime r == 103 # 100)%Q)).
Proof.
  split; [|split; [|split]].
  - intros N w q t env.
    unfold handleResolutionTimeQuery, findResolvedTickets, call.
    destruct (failing w ticket_findMany) eqn:Hok; simpl; [done|].
    pose proof (handleResolutionTimeQuery_fulfilled w q t Hok) as Hh. cbv zeta in Hh.
    unfold handleResolutionTimeQuery, findResolvedTickets, call in Hh.
    rewrite Hok in Hh. simpl in Hh. rewrite Hh.
    intros [= <-]. by destruct (Terms.resolvedDone w).
  - intros x. split; [reflexivity|]. exact (hundredths_near x).
  - exact hundredths_of_mean_near.
  - split; [reflexivity|]. split.
    + eexists. split; [reflexivity|]. reflexivity.
    + eexists. split; [reflexivity|]. reflexivity.
Qed.

Lemma resolution_time_is_the_mean_of_whole_days_witness :
  ∃ (env : @TextQueryResult.t Binary64) (r : @ResolutionTime.t Binary64),
    handleResolutionTimeQuery Scenario.healthy "fix time" "all" = Fulfilled env ∧
    TextQueryResult.result env = Some (ResolutionTimeResult r) ∧
    Terms.wholeDays (N := Binary64) <$> Terms.resolvedDone Scenario.healthy = [2; 1; 1] ∧
    ResolutionTime.averageResolutionTime r
    = PrimFloat.div (doubleOfZ (roundDouble (PrimFloat.mul (Spec.mean (N := Binary64) [2; 1; 1])
                                              (doubleOfZ 100))))
        (doubleOfZ 100).
Proof.
  eexists. eexists. split; [reflexivity|]. split; [reflexivity|]. split; [reflexivity|].
  exact (proj1 (proj2 (proj1 resolution_time_is_the_mean_of_whole_days Binary64
                         Scenario.healthy "fix time" "all" _ eq_refl))).
Defined.

(** ** The team filter, continued *)

Lemma fold_reduceCompleted_fulfilled (rows : list TicketWithTeam)
    (acc : gmap string TeamStats.t) :
  Forall (fun row => is_Some (ticketTeam row)) rows →
  ∃ stats, fold_left reduceCompleted rows (Fulfilled acc) = Fulfilled stats.
Proof.
  revert acc. induction rows as [|row rows IH]; intros acc Hall.
  - by exists acc.
  - inversion Hall as [|? ? [tm Htm] Hrest]; subst.
    change (fold_left reduceCompleted (row :: rows) (Fulfilled acc))
      with (fold_left reduceCompleted rows
              (match ticketTeam row with
               | Some tm => Fulfilled (countCompleted acc (Team.name tm) (ticket row))
               | None => Rejected
               end)).
    rewrite Htm. by apply IH.
Qed.

Lemma sprintsOf_owned (w : World) (tm : Team.t) (chosen : list Sprint.t) :
  Spec.mostRecent 5 (Spec.sprintsOf w tm) chosen →
  Forall (fun s => Sprint.teamId s = Team.id tm ∧ s ∈ sprints (db w)) chosen.
Proof.
  intros [_ (rest & Hperm & _)]. apply Forall_forall. intros s Hs.
  assert (Hin : s ∈ Spec.sprintsOf w tm) by (rewrite Hperm; set_solver).
  unfold Spec.sprintsOf in Hin. by apply list_elem_of_filter in Hin.
Qed.

(** C7. The resolution-time handler and the completed-tickets handler
    give the same outcome for any two team arguments, and what they
    report ranges over the whole store: once the ticket lookup succeeds,
    the first answers with a null result exactly when no DONE ticket
    carries a resolution timestamp and otherwise counts and averages all
    such tickets, and the second, when every DONE ticket has a team,
    counts all DONE tickets. The velocity and the bug-count handler,
    given a token that resolves to a team, report that team's name and
    work on that team's sprints, respectively tickets, only: the velocity
    handler on its (at most five) most recently ended sprints, the
    bug-count handler on its tickets of the last 90 days; and they answer
    as they would in a store holding only that team's sprints,
    respectively tickets. *)
Theorem team_filter_is_ignored_or_honoured `{N : Number} :
  (∀ w q t1 t2,
     handleResolutionTimeQuery w q t1 = handleResolutionTimeQuery w q t2) ∧
  (∀ w q t1 t2,
     handleCompletedTicketsQuery w q t1 = handleCompletedTicketsQuery w q t2) ∧
  (∀ w q t env r,
     handleResolutionTimeQuery w q t = Fulfilled env →
     TextQueryResult.result env = Some (ResolutionTimeResult r) →
     ResolutionTime.ticketsAnalyzed r
     = Z.of_nat (length (filter (fun k => Ticket.status k = DONE ∧ Ticket.resolvedAt k ≠ None)
                           (tickets (db w))))) ∧
  (∀ w q t env,
     handleCompletedTicketsQuery w q t = Fulfilled env →
     ∃ r, TextQueryResult.result env = Some (CompletedResult r) ∧
          Completed.totalCompleted r
          = Z.of_nat (length (Spec.doneAmong (tickets (db w))))) ∧
  (∀ w q name tm,
     name ≠ "all" → Spec.resolveTeam w name = Some tm →
     handleVelocityQuery w q name = handleVelocityQuery (Spec.onlySprintsOf tm w) q name ∧
     handleBugCountQuery w q name = handleBugCountQuery (Spec.onlyTicketsOf tm w) q name) ∧
  (∀ w q t,
     failing w ticket_findMany = false →
     let resolved :=
       filter (fun k => Ticket.status k = DONE ∧ Ticket.resolvedAt k ≠ None) (tickets (db w)) in
     ∃ env,
       handleResolutionTimeQuery w q t = Fulfilled env ∧
       (resolved = [] → TextQueryResult.result env = None) ∧
       (resolved ≠ [] →
        ∃ r, TextQueryResult.result env = Some (ResolutionTimeResult r) ∧
             ResolutionTime.ticketsAnalyzed r = Z.of_nat (length resolved) ∧
             ResolutionTime.averageResolutionTime r
             = div (ofZ (Math_round (mul (Spec.mean (Terms.wholeDays <$> resolved))
                                       (ofZ 100))))
                   (ofZ 100))) ∧
  (∀ w q t,
     failing w ticket_findMany = false →
     (∀ k, k ∈ tickets (db w) → Ticket.status k = DONE → is_Some (Spec.ownerName w k)) →
     ∃ env r,
       handleCompletedTicketsQuery w q t = Fulfilled env ∧
       TextQueryResult.result env = Some (CompletedResult r) ∧
       Completed.totalCompleted r = Z.of_nat (length (Spec.doneAmong (tickets (db w))))) ∧
  (∀ w q name tm,
     name ≠ "all" → Spec.resolveTeam w name = Some tm →
     failing w team_findFirst = false →
     ∃ chosen env r,
       handleVelocityQuery w q name = Fulfilled env ∧
       TextQueryResult.result env = Some (VelocityResult r) ∧
       Velocity.team r = Some (Team.name tm) ∧
       Spec.mostRecent 5 (Spec.sprintsOf w tm) chosen ∧
       Forall (fun s => Sprint.teamId s = Team.id tm ∧ s ∈ sprints (db w)) chosen ∧
       Velocity.sprintsAnalyzed r = Z.of_nat (length chosen) ∧
       Velocity.averageVelocity r
       = div (ofZ (Math_round (mul (Spec.mean (Spec.doneStoryPoints w <$> chosen))
                                 (ofZ 100))))
             (ofZ 100)) ∧
  (∀ w q name tm,
     name ≠ "all" → Spec.resolveTeam w name = Some tm →
     failing w team_findFirst = false → failing w ticket_count = false →
     ∃ env r,
       handleBugCountQuery w q name = Fulfilled env ∧
       TextQueryResult.result env = Some (BugCountResult r) ∧
       BugCount.team r = Some (Team.name tm) ∧
       BugCount.totalTickets r
       = Z.of_nat (length (Spec.createdWithin w 90 (Spec.ticketsOf w tm))) ∧
       BugCount.bugTickets r
       = Z.of_nat (length (Spec.bugsAmong (Spec.createdWithin w 90 (Spec.ticketsOf w tm))))).
Proof.
  split; [reflexivity|]. split; [reflexivity|]. split_and!.
  - intros w q t env r. unfold handleResolutionTimeQuery, findResolvedTickets, call.
    destruct (failing w ticket_findMany); simpl; [done|].
    rewrite <- length_resolved_rows.
    destruct (length (omap resolvedRow (tickets (db w))) =? 0)%nat.
    + intros [= <-]. done.
    + intros [= <-]. simpl. by intros [= <-].
  - intros w q t env. unfold handleCompletedTicketsQuery, findDoneTickets, call.
    destruct (failing w ticket_findMany); simpl; [done|].
    destruct (fold_left reduceCompleted _ _) as [stats|]; simpl; [|done].
    intros [= <-]. eexists. split; [reflexivity|]. simpl.
    by rewrite length_fmap, length_done_rows.
  - intros w q name tm Hall Htm. split.
    + by apply handleVelocityQuery_only_team_sprints.
    + by apply handleBugCountQuery_only_team_tickets.
  - intros w q t Hok resolved.
    unfold handleResolutionTimeQuery, findResolvedTickets, call. rewrite Hok. simpl.
    pose proof (length_resolved_rows (tickets (db w))) as Hlen. fold resolved in Hlen.
    pose proof (resolved_rows_days (tickets (db w))) as Hdays. fold resolved in Hdays.
    rewrite Hlen, Hdays.
    destruct resolved as [|k rest] eqn:Hres.
    + eexists. split; [reflexivity|]. split; [done|]. intros Hne. done.
    + cbn [length Nat.eqb]. eexists. split; [reflexivity|]. split; [done|].
      intros _. eexists. split; [reflexivity|].
      cbn [ResolutionTime.ticketsAnalyzed ResolutionTime.averageResolutionTime].
      split; [done|]. by rewrite avgOf_mean.
  - intros w q t Hok Hteams.
    unfold handleCompletedTicketsQuery, findDoneTickets, call. rewrite Hok. simpl.
    destruct (fold_reduceCompleted_fulfilled
                (withTeam w <$> List.filter isDone (tickets (db w))) ∅) as [stats Hstats].
    { apply Forall_forall. intros row Hrow.
      apply list_elem_of_fmap in Hrow as (k & -> & Hk).
      rewrite List_filter_filter in Hk. apply list_elem_of_filter in Hk as [Hd Hk].
      unfold isDone in Hd. apply bool_decide_eq_true in Hd.
      destruct (Hteams k Hk Hd) as [name Hname]. unfold Spec.ownerName in Hname.
      destruct (ticketTeam (withTeam w k)); [done|discriminate]. }
    rewrite Hstats. simpl. eexists. eexists. split; [reflexivity|]. split; [reflexivity|].
    simpl. by rewrite length_fmap, length_done_rows.
  - intros w q name tm Hne Htm Hfind.
    exists (take 5 (merge_sort endsNoEarlier (Spec.sprintsOf w tm))).
    unfold handleVelocityQuery, findTeamWithSprints, call.
    rewrite (teamName_not_all _ Hne), Hfind.
    change (List.find (sameName name) (teams (db w))) with (Spec.resolveTeam w name).
    rewrite Htm. simpl. rewrite sprintsOf_List_filter.
    eexists. eexists. split; [reflexivity|].
    unfold velocityEnvelope, recentSprints. cbn [TextQueryResult.result].
    split; [reflexivity|].
    cbn [Velocity.team Velocity.sprintsAnalyzed Velocity.averageVelocity].
    rewrite avgVelocity_mean, length_fmap.
    pose proof (mostRecent_take_sorted 5 (Spec.sprintsOf w tm)) as Hrecent.
    split_and!; try done.
    + unfold teamLabel. by rewrite (teamName_not_all _ Hne).
    + by apply sprintsOf_owned.
  - intros w q name tm Hne Htm Hfind Hcount.
    unfold handleBugCountQuery, findTeam, call.
    rewrite (teamName_not_all _ Hne), Hfind.
    change (List.find (sameName name) (teams (db w))) with (Spec.resolveTeam w name).
    rewrite Htm. simpl.
    destruct (counts_of_pool w (Some tm)) as [Htot Hbug]. simpl in Htot, Hbug.
    unfold countTickets, call. rewrite Hcount. simpl. rewrite Htot, Hbug.
    eexists. eexists. split; [reflexivity|].
    split; [reflexivity|]. cbn [BugCount.team BugCount.totalTickets BugCount.bugTickets].
    split_and!; try done.
    unfold teamLabel. by rewrite (teamName_not_all _ Hne).
Qed.

Lemma team_filter_is_ignored_or_honoured_witness :
  (∃ (env : @TextQueryResult.t Binary64) (r : @Velocity.t Binary64),
     handleVelocityQuery Scenario.healthy "velocity" "ALPHA" = Fulfilled env ∧
     TextQueryResult.result env = Some (VelocityResult r) ∧
     Velocity.team r = Some "Alpha" ∧ Velocity.sprintsAnalyzed r = 1) ∧
  (∃ (env : @TextQueryResult.t Binary64) (r : @BugCount.t Binary64),
     handleBugCountQuery Scenario.healthy "bugs" "beta" = Fulfilled env ∧
     TextQueryResult.result env = Some (BugCountResult r) ∧
     BugCount.team r = Some "Beta" ∧ BugCount.totalTickets r = 2) ∧
  (∃ (env : @TextQueryResult.t Binary64) (r : Completed.t),
     handleCompletedTicketsQuery Scenario.healthy "done" "beta" = Fulfilled env ∧
     TextQueryResult.result env = Some (CompletedResult r) ∧
     Completed.totalCompleted r = 3) ∧
  (∃ (env : @TextQueryResult.t Binary64) (r : @ResolutionTime.t Binary64),
     handleResolutionTimeQuery Scenario.healthy "fix time" "beta" = Fulfilled env ∧
     TextQueryResult.result env = Some (ResolutionTimeResult r) ∧
     ResolutionTime.ticketsAnalyzed r = 3).
Proof.
  destruct (team_filter_is_ignored_or_honoured (N := Binary64))
    as (_ & _ & _ & _ & _ & Hres & Hdone & Hvel & Hbug).
  split_and!.
  - destruct (Hvel Scenario.healthy "velocity" "ALPHA" Scenario.alpha)
      as (chosen & env & r & Henv & Hr & Hteam & [Hlen _] & _ & Hn & _);
      [done|reflexivity|reflexivity|].
    exists env, r. split_and!; try done. rewrite Hn, Hlen. reflexivity.
  - destruct (Hbug Scenario.healthy "bugs" "beta" Scenario.beta)
      as (env & r & Henv & Hr & Hteam & Htot & _);
      [done|reflexivity|reflexivity|reflexivity|].
    exists env, r. split_and!; try done.
  - destruct (Hdone Scenario.healthy "done" "beta") as (env & r & Henv & Hr & Htot);
      [reflexivity| |].
    + intros k Hk _. vm_compute in Hk.
      repeat (apply elem_of_cons in Hk as [->|Hk]; [by eexists|]).
      by apply elem_of_nil in Hk.
    + exists env, r. split_and!; try done.
  - destruct (Hres Scenario.healthy "fix time" "beta" eq_refl) as (env & Henv & _ & Hsome).
    destruct Hsome as (r & Hr & Hn & _); [done|].
    exists env, r. split_and!; try done.
Defined.

(** ** The completed-tickets table *)

(** X10. The completed-tickets handler, when no DONE ticket belongs to a
    team named like an inherited object member: the total is the number
    of DONE tickets and equals the sum of the per-team counts, and the
    table has an entry for exactly the team names that own a DONE ticket,
    holding the number of those tickets and the sum of their story points
    (a missing value counting as 0). *)
Theorem completed_table_lists_the_teams_with_done_tickets `{N : Number}
    (w : World) (q arg : string) (env : TextQueryResult.t) :
  (∀ t name, t ∈ tickets (db w) → Ticket.status t = DONE →
             Spec.ownerName w t = Some name → isInherited name = false) →
  handleCompletedTicketsQuery w q arg = Fulfilled env →
  ∃ r,
    TextQueryResult.result env = Some (CompletedResult r) ∧
    Completed.totalCompleted r = Z.of_nat (length (Spec.doneAmong (tickets (db w)))) ∧
    Completed.totalCompleted r
    = Spec.totalOver TeamStats.completed (Completed.byTeam r) ∧
    ∀ name,
      Completed.byTeam r !! name
      = match Spec.doneTicketsNamed w name with
        | [] => None
        | owned =>
            Some {| TeamStats.completed := Z.of_nat (length owned);
                    TeamStats.storyPoints :=
                      Spec.sumZ ((fun t => default 0 (Ticket.storyPoints t)) <$> owned) |}
        end.
Proof.
  intros Hclean. unfold handleCompletedTicketsQuery, findDoneTickets, call.
  destruct (failing w ticket_findMany); [done|]. simpl.
  set (rows := withTeam w <$> List.filter isDone (tickets (db w))).
  destruct (fold_left reduceCompleted rows (Fulfilled ∅)) as [stats|] eqn:Hfold; [|done].
  simpl. intros [= <-]. eexists. split; [reflexivity|]. simpl.
  destruct (fold_reduceCompleted_table rows [] ∅ stats) as [Htable Htotal]; try done.
  { apply Forall_forall. intros row Hrow name Hname.
    apply list_elem_of_fmap in Hrow as (t & -> & Ht).
    rewrite List_filter_filter in Ht. apply list_elem_of_filter in Ht as [Hd Ht].
    apply (Hclean t name Ht); [|exact Hname].
    unfold isDone in Hd. by apply bool_decide_eq_true in Hd. }
  simpl in Htable, Htotal. split; [|split; [done|]].
  { unfold rows. by rewrite length_fmap, length_done_rows. }
  intros name. rewrite Htable. unfold Spec.entryOf.
  unfold Spec.doneTicketsNamed. rewrite <- (rowsNamed_doneTicketsNamed w name). fold rows.
  destruct (Spec.rowsNamed name rows) as [|row owned]; [done|].
  cbv zeta. rewrite !fmap_cons. cbv iota beta. rewrite !length_cons, length_fmap.
  rewrite <- list_fmap_compose. reflexivity.
Qed.

Lemma completed_table_lists_the_teams_with_done_tickets_witness :
  ∃ r : Completed.t,
    TextQueryResult.result <$>
      outcome (handleCompletedTicketsQuery (N := Binary64) Scenario.healthy "done" "all")
    = Some (Some (CompletedResult r)) ∧
    Completed.byTeam r !! "Beta"
    = Some {| TeamStats.completed := 2; TeamStats.storyPoints := 8 |} ∧
    Completed.byTeam r !! "Gamma" = None.
Proof.
  destruct (handleCompletedTicketsQuery (N := Binary64) Scenario.healthy "done" "all")
    as [env|] eqn:E; [|discriminate E].
  destruct (completed_table_lists_the_teams_with_done_tickets (N := Binary64)
              Scenario.healthy "done" "all" env) as (r & Hr & _ & _ & Htable).
  - intros t name Ht _ Hname. revert Hname. vm_compute in Ht.
    repeat (apply elem_of_cons in Ht as [-> | Ht]); [..|by apply elem_of_nil in Ht];
      by intros [= <-].
  - exact E.
  - exists r. simpl. rewrite Hr. split; [done|]. by rewrite !Htable.
Defined.

(** ** The client *)

Lemma tally_first (sc : Category → nat) :
  match (fold_left
           (fun (best : option Category * nat) c =>
              if (best.2 <? sc c)%nat then (Some c, sc c) else best)
           [velocity; bugs; resolution; trends; performance] (None, 0%nat)).1 with
  | None => ∀ c, sc c = 0%nat
  | Some best =>
      (0 < sc best)%nat ∧
      (∀ c, (sc c ≤ sc best)%nat) ∧
      (∀ c, (Spec.rank c < Spec.rank best)%nat → (sc c < sc best)%nat)
  end.
Proof.
  simpl.
  repeat match goal with
         | |- context [(0 <? sc ?c)%nat] => destruct (Nat.ltb_spec 0 (sc c)); simpl
         | |- context [(sc ?a <? sc ?c)%nat] => destruct (Nat.ltb_spec (sc a) (sc c)); simpl
         end;
    try (intros []; lia);
    (split; [lia|]; split; intros []; simpl; lia).
Qed.

(** X11. The client's own classifier, used whenever it does not pass on
    the backend's answer, scores every category by the number of its
    keywords occurring in the lower-cased query and settles on a category
    with the highest score; every category declared before the chosen one
    scores strictly less, so among tied categories the one declared first
    is chosen (the backend's fallback chooses the one declared last).
    Without any keyword the response carries an empty array and the
    guidance text; the response always echoes the query. *)
Theorem local_classifier_prefers_first_declared `{N : Number} (q : string) :
  match ApiClient.bestMatch (toLowerCase q) with
  | None =>
      (∀ c, ApiClient.scoreOf c q = 0%nat) ∧
      ApiClient.TextQueryResponse.result (ApiClient.processQueryLocally q) = ApiClient.NoRows ∧
      ApiClient.TextQueryResponse.interpretation (ApiClient.processQueryLocally q)
      = ApiClient.guidance
  | Some best =>
      (0 < ApiClient.scoreOf best q)%nat ∧
      (∀ c, (ApiClient.scoreOf c q ≤ ApiClient.scoreOf best q)%nat) ∧
      (∀ c, (Spec.rank c < Spec.rank best)%nat →
            (ApiClient.scoreOf c q < ApiClient.scoreOf best q)%nat) ∧
      ∃ generator,
        ApiClient.TextQueryResponse.result (ApiClient.processQueryLocally q)
        = ApiClient.Mock generator "3months"
  end ∧
  ApiClient.TextQueryResponse.query (ApiClient.processQueryLocally q) = q.
Proof.
  split.
  - pose proof (tally_first (fun c => ApiClient.scoreOf c q)) as H.
    unfold ApiClient.processQueryLocally.
    change (ApiClient.bestMatch (toLowerCase q))
      with (fold_left
              (fun (best : option Category * nat) c =>
                 if (best.2 <? ApiClient.scoreOf c q)%nat
                 then (Some c, ApiClient.scoreOf c q) else best)
              [velocity; bugs; resolution; trends; performance] (None, 0%nat)).1.
    destruct (fold_left _ _ _).1 as [best|].
    + destruct H as (Hpos & Hmax & Hfirst). split_and!; try done.
      destruct best; eexists; reflexivity.
    + done.
  - unfold ApiClient.processQueryLocally.
    by destruct (ApiClient.bestMatch (toLowerCase q)) as [[]|].
Qed.

(** The two classifiers part ways on a tie. *)
Example tie_goes_to_velocity_in_the_client_and_to_bugs_in_the_backend :
  ApiClient.bestMatch (toLowerCase "sprint bug") = Some velocity ∧
  Spec.classify "sprint bug" = Some bugs.
Proof. split; reflexivity. Qed.

Section PayloadKinds.
Context {N : Number}.
Variables (w : World) (q : string).

Lemma handleVelocityQuery_no_table (t : string) (data : TextQueryResult.t)
    (rows : list Performance.t) :
  handleVelocityQuery w q t = Fulfilled data →
  TextQueryResult.result data ≠ Some (PerformanceResult rows).
Proof.
  unfold handleVelocityQuery, findTeamWithSprints, findRecentSprints, call.
  destruct (String.eqb t "all"); simpl.
  - destruct (failing w sprint_findMany); intros [= <-]; done.
  - destruct (failing w team_findFirst); simpl; [intros [= <-]; done|].
    destruct (List.find _ _); intros [= <-]; done.
Qed.

Lemma handleBugCountQuery_no_table (t : string) (data : TextQueryResult.t)
    (rows : list Performance.t) :
  handleBugCountQuery w q t = Fulfilled data →
  TextQueryResult.result data ≠ Some (PerformanceResult rows).
Proof.
  unfold handleBugCountQuery, findTeam, countTickets, call.
  destruct (String.eqb t "all"); simpl.
  - destruct (failing w ticket_count); intros [= <-]; done.
  - destruct (failing w team_findFirst); simpl; [intros [= <-]; done|].
    destruct (List.find _ _); simpl; [|intros [= <-]; done].
    destruct (failing w ticket_count); intros [= <-]; done.
Qed.

Lemma handleResolutionTimeQuery_no_table (t : string) (data : TextQueryResult.t)
    (rows : list Performance.t) :
  handleResolutionTimeQuery w q t = Fulfilled data →
  TextQueryResult.result data ≠ Some (PerformanceResult rows).
Proof.
  unfold handleResolutionTimeQuery, findResolvedTickets, call.
  destruct (failing w ticket_findMany); [done|]. simpl.
  destruct (length _ =? 0)%nat; intros [= <-]; done.
Qed.

Lemma handleCompletedTicketsQuery_no_table (t : string) (data : TextQueryResult.t)
    (rows : list Performance.t) :
  handleCompletedTicketsQuery w q t = Fulfilled data →
  TextQueryResult.result data ≠ Some (PerformanceResult rows).
Proof.
  unfold handleCompletedTicketsQuery, findDoneTickets, call.
  destruct (failing w ticket_findMany); [done|]. simpl.
  destruct (fold_left reduceCompleted _ _); [|done]. intros [= <-]; done.
Qed.

Lemma handleQuarterlyTrendsQuery_no_table (data : TextQueryResult.t)
    (rows : list Performance.t) :
  handleQuarterlyTrendsQuery w q = Fulfilled data →
  TextQueryResult.result data ≠ Some (PerformanceResult rows).
Proof.
  unfold handleQuarterlyTrendsQuery.
  destruct (handleVelocityQuery w q "all") as [v|] eqn:Hv; simpl.
  - intros [= <-]. simpl. exact (handleVelocityQuery_no_table "all" v rows Hv).
  - intros [= <-]. done.
Qed.

(** An envelope carrying a team-performance table comes from the
    team-performance handler. *)
Lemma table_comes_from_team_performance (data : TextQueryResult.t)
    (rows : list Performance.t) :
  processTextQuery w q = Fulfilled data →
  TextQueryResult.result data = Some (PerformanceResult rows) →
  handleTeamPerformanceQuery w q "all" = Fulfilled data.
Proof.
  intros Hdata Hrows. unfold processTextQuery, processTextQueryWith in Hdata.
  destruct (firstMatch queryPatterns w q (trim (toLowerCase q))) as [called|] eqn:Hfirst.
  - destruct (firstMatch_some _ _ _ _ _ Hfirst) as (rule & m & Hin & _ & ->).
    destruct (handler rule w q (teamNameOf m)) as [data'|] eqn:Hcall; simpl in Hdata;
      [|by injection Hdata as <-].
    injection Hdata as ->.
    unfold queryPatterns in Hin.
    repeat (apply elem_of_cons in Hin as [-> | Hin]); [..|by apply elem_of_nil in Hin];
      simpl in Hcall.
    + by apply (handleVelocityQuery_no_table _ _ rows) in Hcall.
    + by apply (handleBugCountQuery_no_table _ _ rows) in Hcall.
    + by apply (handleResolutionTimeQuery_no_table _ _ rows) in Hcall.
    + by apply (handleCompletedTicketsQuery_no_table _ _ rows) in Hcall.
    + exact Hcall.
    + by apply (handleQuarterlyTrendsQuery_no_table _ rows) in Hcall.
  - unfold analyzeQueryByKeywords in Hdata.
    destruct (bestMatch (toLowerCase q)) as [best|]; [|by injection Hdata as <-].
    destruct (category best); simpl in Hdata.
    + by apply (handleVelocityQuery_no_table _ _ rows) in Hdata.
    + by apply (handleBugCountQuery_no_table _ _ rows) in Hdata.
    + by apply (handleResolutionTimeQuery_no_table _ _ rows) in Hdata.
    + by apply (handleQuarterlyTrendsQuery_no_table _ rows) in Hdata.
    + exact Hdata.
Qed.
End PayloadKinds.

(** X12. The client passes on an answer of the backend only when its
    result is an array with at least one element, and among the payloads
    of the interpreter only the team-performance table is an array. So
    the client shows the backend's answer only for a team-performance
    table with at least one team, received while the backend is
    reachable; every velocity, bug-count, resolution-time and
    completed-tickets answer, like every null result and every failure,
    is replaced by the client's locally made-up response. *)
Theorem client_passes_on_only_team_performance `{N : Number}
    (online : bool) (w : World) (q : string) :
  ApiClient.processTextQuery online w q = ApiClient.processQueryLocally q ∨
  ∃ data rows,
    online = true ∧ q ≠ "" ∧ rows ≠ [] ∧
    processTextQuery w q = Fulfilled data ∧
    handleTeamPerformanceQuery w q "all" = Fulfilled data ∧
    TextQueryResult.result data = Some (PerformanceResult rows) ∧
    ApiClient.processTextQuery online w q
    = ApiClient.passedOn data (PerformanceResult rows).
Proof.
  unfold ApiClient.processTextQuery, ApiClient.post, Route.postTextQuery,
    Route.textQuerySchema.
  destruct online; [|by left].
  destruct q as [|c q]; [by left|]. simpl.
  assert (Hq : String c q ≠ "") by done.
  revert Hq. generalize (String c q). clear c q. intros q Hq.
  destruct (processTextQuery w q) as [data|] eqn:Hdata; [|by left].
  destruct (TextQueryResult.result data) as [payload|] eqn:Hresult; [|by left].
  destruct payload as [| | | |rows]; try (by left).
  simpl. destruct rows as [|row rows]; [by left|]. simpl.
  right. exists data, (row :: rows). split_and!; try done.
  by apply (table_comes_from_team_performance w q data (row :: rows)).
Qed.

Example client_discards_the_velocity_answer :
  TextQueryResult.result <$>
    outcome (processTextQuery (N := Binary64) Scenario.healthy "show velocity")
  = Some (Some (VelocityResult
      {| Velocity.team := Some "All Teams";
         Velocity.averageVelocity := round2 (ratio 11 2);
         Velocity.sprintsAnalyzed := 2;
         Velocity.timePeriod := "last 5 sprints" |})) ∧
  ApiClient.TextQueryResponse.result
    (ApiClient.processTextQuery (N := Binary64) true Scenario.healthy "show velocity")
  = ApiClient.Mock ApiClient.generateMockVelocityData "3months".
Proof. split; reflexivity. Qed.

Example client_passes_on_the_team_performance_table :
  match ApiClient.TextQueryResponse.result
          (ApiClient.processTextQuery (N := Binary64) true Scenario.healthy
             "team performance stats") with
  | ApiClient.Received (PerformanceResult rows) =>
      Performance.teamName <$> rows = ["Alpha"; "Beta"]
  | _ => False
  end.
Proof. reflexivity. Qed.

(** ** The metrics service *)

Section MetricsScope.
Import MetricsService.
Context {N : Number}.
Variables (c : Client) (teamName : string).

Lemma getTeamId_scope :
  team_findUnique_failing c = false ∨ teamName = "all" →
  getTeamId c teamName
  = Fulfilled (if String.eqb teamName "all" then None
               else Team.id <$> Terms.namedExactly (world c) teamName).
Proof.
  intros Hok. unfold getTeamId, findTeamId.
  destruct (String.eqb_spec teamName "all") as [->|Hne]; [done|].
  by destruct Hok as [-> | ?].
Qed.

Lemma whenSet_scope :
  whenSet (if String.eqb teamName "all" then None
           else Team.id <$> Terms.namedExactly (world c) teamName)
  = Terms.metricsScope (world c) teamName.
Proof. unfold Terms.metricsScope. by destruct (String.eqb teamName "all"). Qed.

Lemma getTeamId_rejected :
  getTeamId c teamName = Rejected ↔
  teamName ≠ "all" ∧ team_findUnique_failing c = true.
Proof.
  unfold getTeamId, findTeamId.
  destruct (String.eqb_spec teamName "all") as [->|Hne].
  - split; [done|]. by intros [? _].
  - destruct (team_findUnique_failing c); split; try done. by intros [_ ?].
Qed.
End MetricsScope.

(** X13. The metrics service never reports an unknown team. When no
    team has exactly the requested name (letter case included), the team
    filter is dropped without notice: the velocity, bug-rate and
    resolution-time metrics are those computed for [all], labelled with
    the requested name. *)
Theorem metrics_for_an_unknown_team_are_those_of_all_teams `{N : Number}
    (c : MetricsService.Client) (teamName : string) (sprintId : option string) (days : Z) :
  MetricsService.team_findUnique_failing c = false →
  Terms.namedExactly (MetricsService.world c) teamName = None →
  outcome (MetricsService.getVelocityMetrics c teamName sprintId)
  = Terms.velocityNamed teamName
      <$> outcome (MetricsService.getVelocityMetrics c "all" sprintId) ∧
  outcome (MetricsService.getBugRateMetrics c teamName days)
  = Terms.bugRateNamed teamName
      <$> outcome (MetricsService.getBugRateMetrics c "all" days) ∧
  outcome (MetricsService.getResolutionTimeMetrics c teamName days)
  = Terms.resolutionNamed teamName
      <$> outcome (MetricsService.getResolutionTimeMetrics c "all" days).
Proof.
  intros Hok Hnone.
  assert (Hid : MetricsService.getTeamId c teamName = Fulfilled None).
  { rewrite getTeamId_scope by (by left). rewrite Hnone. by destruct (String.eqb _ _). }
  unfold MetricsService.getVelocityMetrics, MetricsService.getBugRateMetrics,
    MetricsService.getResolutionTimeMetrics, MetricsService.rethrowing.
  rewrite Hid. change (MetricsService.getTeamId c "all") with (@Fulfilled (option string) None).
  unfold MetricsService.findRecentSprints, countTickets, call. simpl.
  split_and!.
  - destruct (failing (MetricsService.world c) ticket_findMany); [done|]. simpl.
    by destruct (failing (MetricsService.world c) sprint_findMany).
  - by destruct (failing (MetricsService.world c) ticket_count).
  - destruct (failing (MetricsService.world c) ticket_findMany); [done|]. simpl.
    by destruct (length _ =? 0)%nat.
Qed.

Lemma metrics_for_an_unknown_team_are_those_of_all_teams_witness :
  let c := {| MetricsService.world := Scenario.healthy;
              MetricsService.team_findUnique_failing := false |} in
  outcome (MetricsService.getBugRateMetrics (N := Binary64) c "alpha" 30)
  = Terms.bugRateNamed "alpha"
      <$> outcome (MetricsService.getBugRateMetrics (N := Binary64) c "all" 30).
Proof.
  intros c.
  apply (metrics_for_an_unknown_team_are_those_of_all_teams (N := Binary64) c "alpha" None 30);
    reflexivity.
Defined.

(** ** Resolution-time metrics *)

Lemma sumZ_Permutation (l l' : list Z) : l ≡ₚ l' → Spec.sumZ l = Spec.sumZ l'.
Proof.
  intros Hp. unfold Spec.sumZ. apply foldr_permutation; [apply _..| |done].
  intros. lia.
Qed.

Lemma sorted_lookup_le (s : list Z) (i j : nat) (x y : Z) :
  StronglySorted Z.le s → (i ≤ j)%nat → s !! i = Some x → s !! j = Some y → x <= y.
Proof.
  intros Hs. revert i j. induction Hs as [|a s Hs IH Ha]; intros i j Hij Hi Hj; [done|].
  destruct i as [|i], j as [|j]; simpl in *; try lia.
  - injection Hi as <-. injection Hj as <-. lia.
  - injection Hi as <-. rewrite Forall_forall in Ha. apply Ha.
    by apply list_elem_of_lookup_2 in Hj.
  - apply (IH i j); [lia|done..].
Qed.

Lemma count_upto (f : Z → bool) (s : list Z) (i : nat) (x : Z) :
  StronglySorted Z.le s → s !! i = Some x → (∀ y, y <= x → f y = true) →
  (i + 1 ≤ length (List.filter f s))%nat.
Proof.
  intros Hs. revert i. induction Hs as [|a s Hs IH Ha]; intros i Hi Hf; [done|].
  assert (Hfa : f a = true).
  { apply Hf. apply (sorted_lookup_le (a :: s) 0 i a x); [by constructor|lia|done..]. }
  simpl. rewrite Hfa. simpl. destruct i as [|i]; [lia|].
  specialize (IH i Hi Hf). lia.
Qed.

Lemma List_filter_all {A} (f : A → bool) (l : list A) :
  (∀ x, x ∈ l → f x = true) → List.filter f l = l.
Proof.
  induction l as [|a l IH]; intros Hall; [done|]. simpl.
  rewrite (Hall a) by left. f_equal. apply IH. intros x Hx. apply Hall. by right.
Qed.

Lemma length_List_filter_cons {A} (f : A → bool) (a : A) (l : list A) :
  (length (List.filter f l) ≤ length (List.filter f (a :: l)))%nat.
Proof. simpl. destruct (f a); simpl; lia. Qed.

Lemma count_from (f : Z → bool) (s : list Z) (i : nat) (x : Z) :
  StronglySorted Z.le s → s !! i = Some x → (∀ y, x <= y → f y = true) →
  (length s - i ≤ length (List.filter f s))%nat.
Proof.
  intros Hs. revert i. induction Hs as [|a s Hs IH Ha]; intros i Hi Hf; [done|].
  destruct i as [|i].
  - injection Hi as ->. rewrite List_filter_all; [lia|].
    intros y Hy. apply Hf. apply elem_of_cons in Hy as [->|Hy]; [lia|].
    rewrite Forall_forall in Ha. by apply Ha.
  - specialize (IH i Hi Hf). pose proof (length_List_filter_cons f a s).
    simpl length at 1. lia.
Qed.

Lemma length_List_filter_Permutation {A} (f : A → bool) (l l' : list A) :
  l ≡ₚ l' → length (List.filter f l) = length (List.filter f l').
Proof. intros Hp. rewrite !List_filter_filter. by rewrite Hp. Qed.

Section SortedTimes.
Import MetricsService.
Variable ds : list Z.
Hypothesis nonempty : ds ≠ [].

Let s := merge_sort Z.le ds.

Lemma sorted_times_perm : s ≡ₚ ds.
Proof. apply merge_sort_Permutation. Qed.

Lemma sorted_times_sorted : StronglySorted Z.le s.
Proof. apply StronglySorted_merge_sort; apply _. Qed.

Lemma sorted_times_length : length s = length ds ∧ (0 < length ds)%nat.
Proof.
  split; [by rewrite sorted_times_perm|]. destruct ds; [done|simpl; lia].
Qed.

Lemma item_lookup (i : nat) : (i < length s)%nat → s !! i = Some (item s i).
Proof.
  intros Hi. unfold item. destruct (lookup_lt_is_Some_2 s i Hi) as [x ->]. done.
Qed.

Lemma item_elem (i : nat) : (i < length s)%nat → item s i ∈ ds.
Proof.
  intros Hi. rewrite <- sorted_times_perm. by eapply list_elem_of_lookup_2, item_lookup.
Qed.

Lemma item_le (i j : nat) : (i ≤ j)%nat → (j < length s)%nat → item s i <= item s j.
Proof.
  intros Hij Hj.
  apply (sorted_lookup_le s i j); [apply sorted_times_sorted|done|apply item_lookup..]; lia.
Qed.

Lemma times_between (d : Z) :
  d ∈ ds → item s 0 <= d <= item s (length s - 1).
Proof.
  intros Hd. rewrite <- sorted_times_perm in Hd.
  apply list_elem_of_lookup_1 in Hd as [j Hj].
  pose proof (lookup_lt_Some _ _ _ Hj) as Hlt.
  split.
  - apply (sorted_lookup_le s 0 j); [apply sorted_times_sorted|lia| |done].
    apply item_lookup. lia.
  - apply (sorted_lookup_le s j (length s - 1)); [apply sorted_times_sorted|lia|done|].
    apply item_lookup. lia.
Qed.
End SortedTimes.

Lemma ofTeamId_inScope (teamId : option string) (t : Ticket.t) :
  MetricsService.ofTeamId teamId (Ticket.teamId t) = true
  ↔ Terms.inScope (MetricsService.whenSet teamId) t.
Proof.
  unfold MetricsService.ofTeamId, Terms.inScope.
  destruct (MetricsService.whenSet teamId); [apply String.eqb_eq|done].
Qed.

Lemma resolved_since_days (teamId : option string) (start : Z) (l : list Ticket.t) :
  (fun r => MetricsService.differenceInDays (Resolved.resolvedAt r) (Resolved.createdAt r))
    <$> omap (MetricsService.resolvedSince teamId start) l
  = Terms.fullDays
      <$> filter (fun t => Terms.inScope (MetricsService.whenSet teamId) t ∧
                           Ticket.status t = DONE ∧ Ticket.resolvedAt t ≠ None ∧
                           start <= Ticket.createdAt t) l.
Proof.
  induction l as [|t l IH]; [done|].
  rewrite filter_cons.
  change (omap (MetricsService.resolvedSince teamId start) (t :: l))
    with (match MetricsService.resolvedSince teamId start t with
          | Some y => y :: omap (MetricsService.resolvedSince teamId start) l
          | None => omap (MetricsService.resolvedSince teamId start) l
          end).
  unfold MetricsService.resolvedSince at 1.
  destruct (MetricsService.ofTeamId teamId (Ticket.teamId t) && isDone t
            && (start <=? Ticket.createdAt t)%Z) eqn:Hcond.
  - apply andb_true_iff in Hcond as [[Hteam Hdone]%andb_true_iff Hstart].
    apply ofTeamId_inScope in Hteam. apply bool_decide_eq_true in Hdone.
    apply Z.leb_le in Hstart.
    destruct (Ticket.resolvedAt t) as [r|] eqn:Hr.
    + rewrite decide_True by (split_and!; [done..|congruence|done]).
      cbn [fmap option_fmap option_map]. rewrite !fmap_cons, IH. f_equal.
      unfold Terms.fullDays. simpl. by rewrite Hr.
    + rewrite decide_False by (intros (_ & _ & ? & _); congruence). done.
  - rewrite decide_False; [done|].
    intros (Hteam & Hdone & _ & Hstart).
    apply ofTeamId_inScope in Hteam. apply Z.leb_le in Hstart.
    unfold isDone in Hcond. rewrite Hteam, Hstart, (bool_decide_eq_true_2 _ Hdone) in Hcond.
    done.
Qed.

Lemma mean_Permutation `{N : Number} (l l' : list Z) :
  l ≡ₚ l' → Spec.mean l = Spec.mean l'.
Proof.
  intros Hp. unfold Spec.mean.
  destruct l as [|x l], l' as [|x' l']; [done| | |].
  - by apply Permutation_nil_cons in Hp.
  - symmetry in Hp. by apply Permutation_nil_cons in Hp.
  - by rewrite (sumZ_Permutation _ _ Hp), (Permutation_length Hp).
Qed.

(** What the resolution metrics are computed from, once the lookups
    have succeeded. *)
Lemma getResolutionTimeMetrics_fulfilled `{N : Number} (c : MetricsService.Client)
    (teamName : string) (days : Z) (m : ResolutionTimeMetrics.t) :
  MetricsService.getResolutionTimeMetrics c teamName days = Fulfilled m →
  let ds := Terms.fullDays <$> Terms.analysed (MetricsService.world c) teamName days in
  let times := merge_sort Z.le ds in
  m = match ds with
      | [] =>
          {| ResolutionTimeMetrics.team := teamName;
             ResolutionTimeMetrics.period := pretty days ++ " days";
             ResolutionTimeMetrics.averageResolutionTime := ofZ 0;
             ResolutionTimeMetrics.medianResolutionTime := ofZ 0;
             ResolutionTimeMetrics.minResolutionTime := 0;
             ResolutionTimeMetrics.maxResolutionTime := 0 |}
      | _ =>
          {| ResolutionTimeMetrics.team := teamName;
             ResolutionTimeMetrics.period := pretty days ++ " days";
             ResolutionTimeMetrics.averageResolutionTime := round2 (avgOf times);
             ResolutionTimeMetrics.medianResolutionTime := MetricsService.medianOf times;
             ResolutionTimeMetrics.minResolutionTime := MetricsService.item times 0;
             ResolutionTimeMetrics.maxResolutionTime :=
               MetricsService.item times (length times - 1) |}
      end.
Proof.
  unfold MetricsService.getResolutionTimeMetrics, MetricsService.rethrowing.
  destruct (MetricsService.getTeamId c teamName) as [teamId|] eqn:Hid; [|done].
  assert (Hscope : MetricsService.whenSet teamId
                   = Terms.metricsScope (MetricsService.world c) teamName).
  { rewrite <- whenSet_scope.
    destruct (String.eqb_spec teamName "all") as [->|Hne].
    - unfold MetricsService.getTeamId in Hid. simpl in Hid. by injection Hid as <-.
    - unfold MetricsService.getTeamId, MetricsService.findTeamId in Hid.
      rewrite (proj2 (String.eqb_neq _ _) Hne) in Hid.
      destruct (MetricsService.team_findUnique_failing c); [done|]. by injection Hid as <-. }
  unfold call. simpl.
  destruct (failing (MetricsService.world c) ticket_findMany); [done|]. simpl.
  pose proof (resolved_since_days teamId
                (subDays (now (MetricsService.world c)) days)
                (tickets (db (MetricsService.world c)))) as Hdays.
  rewrite Hscope in Hdays. unfold subDays in Hdays.
  fold (Terms.analysed (MetricsService.world c) teamName days) in Hdays.
  unfold subDays.
  destruct (omap _ _) as [|row rows] eqn:Hrows; simpl in Hdays |- *.
  - intros [= <-]. by rewrite <- Hdays.
  - intros [= <-]. rewrite <- Hdays. reflexivity.
Qed.

(** X14. The resolution-time metrics, once the lookups have succeeded,
    describe the tickets in scope that are DONE, carry a resolution
    timestamp and were created within the requested number of days, by
    their resolution times in full days. Without such a ticket all four
    figures are 0. Otherwise the minimum and the maximum are resolution
    times of such tickets and every resolution time lies between them,
    and the average is [Math.round] of a hundred times their mean,
    divided by 100. In exact arithmetic that is the mean rounded to a
    whole number of hundredths, a half going up. On doubles, for
    resolution times whose sum is not negative, the number of hundredths
    is within one half, and a relative rounding error, of a hundred times
    the exact mean; it can come out one lower than in exact arithmetic:
    41 days over 40 tickets are reported as 1.02, the mean being 1.025. *)
Theorem resolution_metrics_span_the_resolution_times :
  (∀ (N : Number) (c : MetricsService.Client) (teamName : string) (days : Z)
     (m : ResolutionTimeMetrics.t),
     MetricsService.getResolutionTimeMetrics c teamName days = Fulfilled m →
     let ds := Terms.fullDays <$> Terms.analysed (MetricsService.world c) teamName days in
     ResolutionTimeMetrics.team m = teamName ∧
     match ds with
     | [] =>
         ResolutionTimeMetrics.minResolutionTime m = 0 ∧
         ResolutionTimeMetrics.maxResolutionTime m = 0 ∧
         ResolutionTimeMetrics.averageResolutionTime m = ofZ 0 ∧
         ResolutionTimeMetrics.medianResolutionTime m = ofZ 0
     | _ =>
         ResolutionTimeMetrics.minResolutionTime m ∈ ds ∧
         ResolutionTimeMetrics.maxResolutionTime m ∈ ds ∧
         (∀ d, d ∈ ds →
               ResolutionTimeMetrics.minResolutionTime m <= d
               <= ResolutionTimeMetrics.maxResolutionTime m) ∧
         ResolutionTimeMetrics.averageResolutionTime m
         = div (ofZ (Math_round (mul (Spec.mean ds) (ofZ 100)))) (ofZ 100)
     end) ∧
  (∀ x : Q,
     div (Number := Exact)
       (ofZ (Math_round (Number := Exact) (mul (Number := Exact) x (ofZ 100)))) (ofZ 100)
     = (inject_Z (Qfloor (x * 100 + (1 # 2))) / 100)%Q ∧
     (Qabs ((inject_Z (Qfloor (x * 100 + (1 # 2))) / 100) - x) <= 1 # 200)%Q) ∧
  (∀ ds : list Z,
     0 <= Spec.sumZ ds < 2 ^ 53 → Z.of_nat (length ds) < 2 ^ 53 →
     (Qabs (inject_Z (Math_round (Number := Binary64) (mul (Spec.mean ds) (ofZ 100)))
            - Spec.mean (N := Exact) ds * 100)
      <= (1 # 2) + Spec.mean (N := Exact) ds * 100 * (1 # 800000000000000))%Q) ∧
  (let c := {| MetricsService.world := Scenario.slow;
               MetricsService.team_findUnique_failing := false |} in
   Terms.fullDays <$> Terms.analysed Scenario.slow "all" 200 = 41 :: replicate 39 0 ∧
   (@ResolutionTimeMetrics.averageResolutionTime Binary64
      <$> outcome (MetricsService.getResolutionTimeMetrics c "all" 200)
    = Some (PrimFloat.div (doubleOfZ 102) (doubleOfZ 100))) ∧
   (@ResolutionTimeMetrics.averageResolutionTime Exact
      <$> outcome (MetricsService.getResolutionTimeMetrics c "all" 200)
    = Some (inject_Z 103 / inject_Z 100)%Q)).
Proof.
  split; [|split; [|split]].
  - intros N c teamName days m Hm ds.
    apply getResolutionTimeMetrics_fulfilled in Hm. fold ds in Hm.
    destruct ds as [|d0 ds'] eqn:Hds; subst m; [done|].
    assert (Hne : d0 :: ds' ≠ []) by done.
    destruct (sorted_times_length (d0 :: ds') Hne) as [Hlen Hpos].
    cbn [ResolutionTimeMetrics.team ResolutionTimeMetrics.minResolutionTime
         ResolutionTimeMetrics.maxResolutionTime ResolutionTimeMetrics.averageResolutionTime].
    split; [done|]. split_and!.
    + apply item_elem. lia.
    + apply item_elem. lia.
    + intros d Hd. by apply times_between.
    + unfold round2. do 4 f_equal. rewrite avgOf_mean.
      * apply mean_Permutation, sorted_times_perm.
      * intros Hnil. rewrite Hnil in Hlen. simpl in Hlen. lia.
  - intros x. split; [reflexivity|]. exact (hundredths_near x).
  - exact hundredths_of_mean_near.
  - intros c. split; [reflexivity|]. split; reflexivity.
Qed.

Lemma resolution_metrics_span_the_resolution_times_witness :
  let c := {| MetricsService.world := Scenario.healthy;
              MetricsService.team_findUnique_failing := false |} in
  ∃ m : @ResolutionTimeMetrics.t Binary64,
    MetricsService.getResolutionTimeMetrics c "all" 30 = Fulfilled m ∧
    ResolutionTimeMetrics.minResolutionTime m = 1 ∧
    ResolutionTimeMetrics.maxResolutionTime m = 2 ∧
    ∀ d, d ∈ Terms.fullDays <$> Terms.analysed Scenario.healthy "all" 30 → 1 <= d <= 2.
Proof.
  intros c. eexists. split; [reflexivity|]. split; [reflexivity|]. split; [reflexivity|].
  exact (proj1 (proj2 (proj2 (proj2
    (proj1 resolution_metrics_span_the_resolution_times Binary64 c "all" 30 _ eq_refl))))).
Defined.

Lemma Math_round_of_integer (k : Z) : Math_round (Number := Exact) (inject_Z k) = k.
Proof.
  destruct (Math_round_near (inject_Z k)) as [Hl Hu].
  set (r := Math_round (Number := Exact) (inject_Z k)) in *.
  assert (H1 : (inject_Z (k + -1) < inject_Z r)%Q).
  { rewrite inject_Z_plus. change (inject_Z (-1)) with (-1)%Q. lra. }
  assert (H2 : (inject_Z r < inject_Z (k + 1))%Q).
  { rewrite inject_Z_plus. change (inject_Z 1) with 1%Q. lra. }
  rewrite <- Zlt_Qlt in H1, H2. lia.
Qed.

(** Rounding to two decimals does not cross a whole number. *)
Lemma round2_between_integers (lo hi : Z) (x : Q) :
  (inject_Z lo <= x <= inject_Z hi)%Q →
  (inject_Z lo <= round2 (N := Exact) x <= inject_Z hi)%Q.
Proof.
  intros [Hlo Hhi].
  assert (H1 : lo * 100 <= Math_round (Number := Exact) (x * 100)%Q).
  { rewrite <- (Math_round_of_integer (lo * 100)). apply Math_round_mono.
    rewrite inject_Z_mult. change (inject_Z 100) with 100%Q. lra. }
  assert (H2 : Math_round (Number := Exact) (x * 100)%Q <= hi * 100).
  { rewrite <- (Math_round_of_integer (hi * 100)). apply Math_round_mono.
    rewrite inject_Z_mult. change (inject_Z 100) with 100%Q. lra. }
  unfold round2. cbn [div mul ofZ Exact]. change (inject_Z 100) with 100%Q.
  rewrite Zle_Qle, inject_Z_mult in H1, H2. change (inject_Z 100) with 100%Q in H1, H2.
  set (r := inject_Z (Math_round (Number := Exact) (x * 100)%Q)) in *.
  unfold Qdiv. change (/ 100)%Q with (1 # 100)%Q. split; lra.
Qed.

Lemma sumZ_between (l : list Z) (lo hi : Z) :
  (∀ d, d ∈ l → lo <= d <= hi) →
  Z.of_nat (length l) * lo <= Spec.sumZ l <= Z.of_nat (length l) * hi.
Proof.
  unfold Spec.sumZ. induction l as [|d l IH]; intros Hall; [simpl; lia|].
  destruct (Hall d) as [? ?]; [by left|].
  destruct IH as [? ?]; [intros d' Hd'; apply Hall; by right|].
  cbn [foldr length]. lia.
Qed.

Lemma mean_between (l : list Z) (lo hi : Z) :
  l ≠ [] → (∀ d, d ∈ l → lo <= d <= hi) →
  (inject_Z lo <= Spec.mean (N := Exact) l <= inject_Z hi)%Q.
Proof.
  intros Hne Hall. destruct (sumZ_between l lo hi Hall) as [Hlo Hhi].
  unfold Spec.mean. destruct l as [|d l]; [done|].
  set (n := Z.of_nat (length (d :: l))) in *.
  set (total := Spec.sumZ (d :: l)) in *.
  assert (Hn : (0 < inject_Z n)%Q).
  { change 0%Q with (inject_Z 0). rewrite <- Zlt_Qlt. unfold n. simpl. lia. }
  cbn [div ofZ Exact]. split.
  - apply Qle_shift_div_l; [done|]. rewrite <- inject_Z_mult, <- Zle_Qle. lia.
  - apply Qle_shift_div_r; [done|]. rewrite <- inject_Z_mult, <- Zle_Qle. lia.
Qed.

Section Median.
Import MetricsService.
Variable ds : list Z.
Hypothesis nonempty : ds ≠ [].

Let s := merge_sort Z.le ds.
Let n := length s.

(** In exact arithmetic the median lies between the two middle elements
    of the sorted times (which coincide when their number is odd). *)
Lemma median_between_middles :
  (inject_Z (item s ((n - 1) / 2)) <= medianOf (N := Exact) s <= inject_Z (item s (n / 2)))%Q.
Proof.
  destruct (sorted_times_length ds nonempty) as [Hlen Hpos].
  fold s in Hlen. fold n in Hlen.
  unfold medianOf. fold n.
  destruct (Nat.eqb_spec (n mod 2) 0) as [Heven|Hodd]; simpl negb; cbv iota.
  - assert (Hmid : ((n - 1) / 2 = n / 2 - 1)%nat).
    { pose proof (Nat.div_mod n 2). pose proof (Nat.div_mod (n - 1) 2).
      pose proof (Nat.mod_upper_bound (n - 1) 2). lia. }
    rewrite Hmid.
    assert (Hle : item s (n / 2 - 1) <= item s (n / 2)).
    { apply (item_le ds); [lia|]. fold s. fold n.
      pose proof (Nat.div_mod n 2). lia. }
    cbn [div ofZ Exact]. rewrite inject_Z_plus.
    rewrite Zle_Qle in Hle. change (inject_Z 2) with 2%Q.
    set (a := inject_Z (item s (n / 2 - 1))) in *.
    set (b := inject_Z (item s (n / 2))) in *.
    unfold Qdiv. change (/ 2)%Q with (1 # 2)%Q. split; lra.
  - assert (Hmid : ((n - 1) / 2 = n / 2)%nat).
    { pose proof (Nat.div_mod n 2). pose proof (Nat.div_mod (n - 1) 2).
      pose proof (Nat.mod_upper_bound n 2). pose proof (Nat.mod_upper_bound (n - 1) 2). lia. }
    rewrite Hmid. cbn [ofZ Exact]. split; apply Qle_refl.
Qed.

(** At least half of the times are at most the median, and at least half
    are at least the median. *)
Lemma median_halves :
  (length ds
   ≤ 2 * length (List.filter (fun d => Qle_bool (inject_Z d) (medianOf (N := Exact) s)) ds))%nat ∧
  (length ds
   ≤ 2 * length (List.filter (fun d => Qle_bool (medianOf (N := Exact) s) (inject_Z d)) ds))%nat.
Proof.
  destruct (sorted_times_length ds nonempty) as [Hlen Hpos].
  fold s in Hlen. fold n in Hlen.
  destruct median_between_middles as [Hlo Hhi].
  pose proof (Nat.div_mod n 2) as Hn. pose proof (Nat.mod_upper_bound n 2) as Hn2.
  pose proof (Nat.div_mod (n - 1) 2) as Hn'. pose proof (Nat.mod_upper_bound (n - 1) 2) as Hn2'.
  rewrite <- !(length_List_filter_Permutation _ _ _ (sorted_times_perm ds)). fold s.
  split.
  - pose proof (count_upto (fun d => Qle_bool (inject_Z d) (medianOf (N := Exact) s))
                  s ((n - 1) / 2) (item s ((n - 1) / 2)) (sorted_times_sorted ds)) as Hc.
    fold s in Hc. rewrite <- Hlen.
    assert ((n - 1) / 2 + 1
            ≤ length (List.filter (fun d => Qle_bool (inject_Z d) (medianOf (N := Exact) s)) s))%nat;
      [|lia].
    apply Hc.
    + apply (item_lookup ds). fold s. fold n. lia.
    + intros y Hy. apply Qle_bool_iff. rewrite Zle_Qle in Hy. lra.
  - pose proof (count_from (fun d => Qle_bool (medianOf (N := Exact) s) (inject_Z d))
                  s (n / 2) (item s (n / 2)) (sorted_times_sorted ds)) as Hc.
    fold s in Hc. fold n in Hc. rewrite <- Hlen.
    assert (n - n / 2
            ≤ length (List.filter (fun d => Qle_bool (medianOf (N := Exact) s) (inject_Z d)) s))%nat;
      [|lia].
    apply Hc.
    + apply (item_lookup ds). fold s. fold n. lia.
    + intros y Hy. apply Qle_bool_iff. rewrite Zle_Qle in Hy. lra.
Qed.

(** The rounded mean stays between the least and the greatest time. *)
Lemma round2_mean_between :
  (inject_Z (item s 0) <= round2 (N := Exact) (Spec.mean ds) <= inject_Z (item s (n - 1)))%Q.
Proof.
  apply round2_between_integers, mean_between; [done|].
  intros d Hd. by apply times_between.
Qed.
End Median.

(** X15. In exact arithmetic, when at least one ticket is analysed: the
    median of the resolution-time metrics lies between the minimum and
    the maximum, at least half of the resolution times are at most the
    median and at least half are at least the median, and the average
    lies between the minimum and the maximum as well. *)
Theorem resolution_median_splits_the_resolution_times
    (c : MetricsService.Client) (teamName : string) (days : Z)
    (m : @ResolutionTimeMetrics.t Exact) :
  MetricsService.getResolutionTimeMetrics c teamName days = Fulfilled m →
  let ds := Terms.fullDays <$> Terms.analysed (MetricsService.world c) teamName days in
  ds ≠ [] →
  let median := ResolutionTimeMetrics.medianResolutionTime m in
  (inject_Z (ResolutionTimeMetrics.minResolutionTime m) <= median
   <= inject_Z (ResolutionTimeMetrics.maxResolutionTime m))%Q ∧
  (length ds ≤ 2 * length (List.filter (fun d => Qle_bool (inject_Z d) median) ds))%nat ∧
  (length ds ≤ 2 * length (List.filter (fun d => Qle_bool median (inject_Z d)) ds))%nat ∧
  (inject_Z (ResolutionTimeMetrics.minResolutionTime m)
   <= ResolutionTimeMetrics.averageResolutionTime m
   <= inject_Z (ResolutionTimeMetrics.maxResolutionTime m))%Q.
Proof.
  intros Hm ds Hne. apply getResolutionTimeMetrics_fulfilled in Hm. fold ds in Hm.
  destruct (sorted_times_length ds Hne) as [Hlen Hpos].
  assert (Hm' : m =
    {| ResolutionTimeMetrics.team := teamName;
       ResolutionTimeMetrics.period := pretty days ++ " days";
       ResolutionTimeMetrics.averageResolutionTime := round2 (avgOf (merge_sort Z.le ds));
       ResolutionTimeMetrics.medianResolutionTime :=
         MetricsService.medianOf (merge_sort Z.le ds);
       ResolutionTimeMetrics.minResolutionTime := MetricsService.item (merge_sort Z.le ds) 0;
       ResolutionTimeMetrics.maxResolutionTime :=
         MetricsService.item (merge_sort Z.le ds) (length (merge_sort Z.le ds) - 1) |}).
  { by destruct ds. }
  clear Hm. subst m.
  cbn [ResolutionTimeMetrics.medianResolutionTime ResolutionTimeMetrics.minResolutionTime
       ResolutionTimeMetrics.maxResolutionTime ResolutionTimeMetrics.averageResolutionTime].
  destruct (median_between_middles ds Hne) as [Hlo Hhi].
  destruct (median_halves ds Hne) as [Hbelow Habove].
  set (s := merge_sort Z.le ds) in *. set (n := length s) in *.
  pose proof (Nat.div_mod n 2) as Hn. pose proof (Nat.mod_upper_bound n 2) as Hn2.
  split_and!; try done.
  - assert (H0 : MetricsService.item s 0 <= MetricsService.item s ((n - 1) / 2)).
    { apply (item_le ds); [lia|]. fold s. fold n.
      pose proof (Nat.div_mod (n - 1) 2). pose proof (Nat.mod_upper_bound (n - 1) 2). lia. }
    rewrite Zle_Qle in H0. lra.
  - assert (H0 : MetricsService.item s (n / 2) <= MetricsService.item s (n - 1)).
    { apply (item_le ds); fold s; fold n; lia. }
    rewrite Zle_Qle in H0. lra.
  - destruct (round2_mean_between ds Hne) as [H _]. fold s in H.
    rewrite avgOf_mean, (mean_Permutation _ _ (sorted_times_perm ds)); [done|].
    intros Hnil. unfold n in Hlen. fold s in Hlen. rewrite Hnil in Hlen. simpl in Hlen. lia.
  - destruct (round2_mean_between ds Hne) as [_ H]. fold s in H. fold n in H.
    rewrite avgOf_mean, (mean_Permutation _ _ (sorted_times_perm ds)); [done|].
    intros Hnil. unfold n in Hlen. fold s in Hlen. rewrite Hnil in Hlen. simpl in Hlen. lia.
Qed.

Lemma resolution_median_splits_the_resolution_times_witness :
  let c := {| MetricsService.world := Scenario.healthy;
              MetricsService.team_findUnique_failing := false |} in
  ∃ m : @ResolutionTimeMetrics.t Exact,
    MetricsService.getResolutionTimeMetrics c "all" 30 = Fulfilled m ∧
    ResolutionTimeMetrics.medianResolutionTime m = inject_Z 1 ∧
    (inject_Z (ResolutionTimeMetrics.minResolutionTime m)
     <= ResolutionTimeMetrics.medianResolutionTime m
     <= inject_Z (ResolutionTimeMetrics.maxResolutionTime m))%Q.
Proof.
  intros c. eexists. split; [reflexivity|]. split; [reflexivity|].
  refine (proj1 (resolution_median_splits_the_resolution_times c "all" 30 _ eq_refl _)).
  discriminate.
Defined.

(** ** Velocity and bug rate of the metrics service *)

Lemma sumZ_scored (f : Ticket.t → bool) (l : list Ticket.t) :
  Spec.sumZ (storyPointsOr0 <$> List.filter (fun t => f t && MetricsService.hasStoryPoints t) l)
  = Spec.sumZ (storyPointsOr0 <$> List.filter f l).
Proof.
  induction l as [|t l IH]; [done|]. cbn [List.filter].
  destruct (f t); cbn [andb]; [|exact IH].
  destruct (MetricsService.hasStoryPoints t) eqn:Hh.
  - rewrite !fmap_cons. unfold Spec.sumZ in *. cbn [foldr]. by rewrite IH.
  - rewrite fmap_cons. unfold Spec.sumZ in *. cbn [foldr]. rewrite IH.
    unfold MetricsService.hasStoryPoints in Hh. unfold storyPointsOr0 at 2.
    destruct (Ticket.storyPoints t); [done|]. simpl. lia.
Qed.

Lemma sumStoryPoints_scored (w : World) (s : Sprint.t) :
  MetricsService.sumStoryPoints (sprintTickets (MetricsService.withScoredTickets w s))
  = sprintVelocity (withDoneTickets w s).
Proof.
  unfold MetricsService.sumStoryPoints, sprintVelocity. simpl.
  rewrite !(fold_left_sum storyPointsOr0), !Z.add_0_l.
  apply (sumZ_scored (fun t => inSprint s t && isDone t)).
Qed.

Lemma average_of_scored `{N : Number} (w : World) (chosen : list Sprint.t) :
  (let sprintVelocities :=
     (fun sprint => MetricsService.sumStoryPoints (sprintTickets sprint))
       <$> (MetricsService.withScoredTickets w <$> chosen) in
   if (0 <? length sprintVelocities)%nat
   then ratio (fold_left (fun sum v => sum + v) sprintVelocities 0)
              (Z.of_nat (length sprintVelocities))
   else ofZ 0)
  = avgVelocity (withDoneTickets w <$> chosen).
Proof.
  cbv zeta. unfold avgVelocity, totalVelocity. rewrite !length_fmap.
  destruct (0 <? length chosen)%nat; [|done]. f_equal.
  rewrite (fold_left_sum (fun x => x)), (fold_left_sum sprintVelocity), !Z.add_0_l.
  rewrite list_fmap_id, <- !list_fmap_compose. f_equal.
  apply list_fmap_ext. intros i s _. apply sumStoryPoints_scored.
Qed.

Lemma endApart_inj (pool : list Sprint.t) (a b : Sprint.t) :
  Terms.endApart pool → a ∈ pool → b ∈ pool →
  Sprint.endDate a = Sprint.endDate b → a = b.
Proof.
  unfold Terms.endApart. induction pool as [|s pool IH]; intros Hnd Ha Hb Heq.
  - by apply elem_of_nil in Ha.
  - rewrite fmap_cons in Hnd. apply NoDup_cons in Hnd as [Hs Hnd].
    apply elem_of_cons in Ha as [->|Ha]; apply elem_of_cons in Hb as [->|Hb].
    + done.
    + exfalso. apply Hs. rewrite Heq. by apply list_elem_of_fmap_2.
    + exfalso. apply Hs. rewrite <- Heq. by apply list_elem_of_fmap_2.
    + by apply IH.
Qed.

(** When no two sprints of the pool end at the same instant, the rows
    that [orderBy: { endDate: 'desc' }, take: n] returns are determined. *)
Lemma latest_unique (n : nat) (pool answer : list Sprint.t) :
  Terms.endApart pool → Terms.latest n pool answer →
  answer = take n (merge_sort endsNoEarlier pool).
Proof.
  intros Hapart (arranged & Hperm & Hsorted & ->). f_equal.
  apply (StronglySorted_unique_strong endsNoEarlier).
  - intros a b Ha Hb Hab Hba. apply (endApart_inj pool); [done| | |].
    + by rewrite <- Hperm.
    + rewrite merge_sort_Permutation in Hb. done.
    + unfold endsNoEarlier in *. lia.
  - done.
  - apply StronglySorted_merge_sort; apply _.
  - by rewrite merge_sort_Permutation.
Qed.

Lemma latest_take_sorted (n : nat) (pool : list Sprint.t) :
  Terms.latest n pool (take n (merge_sort endsNoEarlier pool)).
Proof.
  exists (merge_sort endsNoEarlier pool). split; [apply merge_sort_Permutation|].
  split; [apply StronglySorted_merge_sort; apply _|done].
Qed.

(** X16. The two services agree on the average velocity when no two of
    the sprints in scope end at the same instant, so that the five most
    recently ended ones are determined. For [all], and for a team name
    that both services resolve to the same team, whatever rows the
    store returns as the five latest sprints, the [averageVelocity] of
    the velocity metrics and the one in the result of the interpreter's
    velocity handler are both [Math.round] of a hundred times the mean,
    divided by 100, of the story points of the DONE tickets over those
    sprints (a ticket without story points counting as 0 in the one and
    being left out in the other), and so they are equal. *)
Theorem average_velocity_agrees_between_services `{N : Number}
    (c : MetricsService.Client) (q teamName : string) (sprintId : option string)
    (pool : list Sprint.t)
    (env : TextQueryResult.t) (r : Velocity.t) (m : VelocityMetrics.t) :
  teamName = "all" ∨
  (∃ tm, Spec.resolveTeam (MetricsService.world c) teamName = Some tm ∧
         Terms.namedExactly (MetricsService.world c) teamName = Some tm ∧
         Team.id tm ≠ "") →
  Spec.requestedSprints (MetricsService.world c) teamName = Some pool →
  Terms.endApart pool →
  handleVelocityQuery (MetricsService.world c) q teamName = Fulfilled env →
  TextQueryResult.result env = Some (VelocityResult r) →
  MetricsService.getVelocityMetrics c teamName sprintId = Fulfilled m →
  (∀ answer, Terms.latest 5 pool answer →
     let average :=
       div (ofZ (Math_round
                   (mul (Spec.mean (Spec.doneStoryPoints (MetricsService.world c) <$> answer))
                        (ofZ 100))))
           (ofZ 100) in
     Velocity.averageVelocity r = average ∧ VelocityMetrics.averageVelocity m = average) ∧
  (∃ answer, Terms.latest 5 pool answer) ∧
  Velocity.averageVelocity r = VelocityMetrics.averageVelocity m.
Proof.
  intros Hteam Hpool Hapart Henv Hr Hm.
  set (w := MetricsService.world c) in *.
  set (chosen := take 5 (merge_sort endsNoEarlier pool)).
  assert (Hboth :
    Velocity.averageVelocity r
    = div (ofZ (Math_round (mul (Spec.mean (Spec.doneStoryPoints w <$> chosen)) (ofZ 100))))
          (ofZ 100) ∧
    VelocityMetrics.averageVelocity m
    = div (ofZ (Math_round (mul (Spec.mean (Spec.doneStoryPoints w <$> chosen)) (ofZ 100))))
          (ofZ 100)).
  { unfold MetricsService.getVelocityMetrics, MetricsService.rethrowing in Hm.
    destruct (MetricsService.getTeamId c teamName) as [teamId|] eqn:Hid; [|done].
    simpl in Hm. unfold MetricsService.findRecentSprints, call in Hm. fold w in Hm.
    destruct (failing w ticket_findMany); [done|]. simpl in Hm.
    destruct (failing w sprint_findMany) eqn:Hsprints; [done|].
    simpl in Hm. injection Hm as <-. cbn [VelocityMetrics.averageVelocity].
    rewrite !(average_of_scored w). unfold round2. rewrite avgVelocity_mean.
    unfold MetricsService.getTeamId, MetricsService.findTeamId in Hid. fold w in Hid.
    unfold Spec.requestedSprints in Hpool.
    destruct (decide (teamName = "all")) as [->|Hne].
    - injection Hpool as <-. injection Hid as <-.
      rewrite (handleVelocityQuery_all w q Hsprints) in Henv. injection Henv as <-.
      rewrite velocityEnvelope_result in Hr. injection Hr as <-.
      cbn [Velocity.averageVelocity]. fold chosen. split; [done|].
      unfold chosen.
      by rewrite (List_filter_all (fun s => MetricsService.ofTeamId None (Sprint.teamId s))).
    - destruct Hteam as [-> | (tm & Hres & Hexact & Hidne)]; [done|].
      rewrite (proj2 (String.eqb_neq _ _) Hne) in Hid.
      destruct (MetricsService.team_findUnique_failing c); [done|].
      unfold Terms.namedExactly in Hexact. fold w in Hexact. rewrite Hexact in Hid.
      injection Hid as <-. fold w in Hres. rewrite Hres in Hpool. injection Hpool as <-.
      destruct (failing w team_findFirst) eqn:Hfind.
      + unfold handleVelocityQuery, findTeamWithSprints, call in Henv.
        rewrite (teamName_not_all _ Hne), Hfind in Henv. simpl in Henv.
        injection Henv as <-. done.
      + rewrite (handleVelocityQuery_team w q teamName tm Hne Hres Hfind) in Henv.
        injection Henv as <-. rewrite velocityEnvelope_result in Hr. injection Hr as <-.
        cbn [Velocity.averageVelocity]. fold chosen. split; [done|].
        unfold chosen. rewrite <- sprintsOf_List_filter. do 8 f_equal.
        apply List.filter_ext. intros s.
        unfold ofTeam, MetricsService.ofTeamId, MetricsService.whenSet. simpl.
        by destruct (Team.id tm). }
  split; [|split].
  - intros answer Hanswer. cbv zeta.
    rewrite (latest_unique 5 pool answer Hapart Hanswer). exact Hboth.
  - exists chosen. apply latest_take_sorted.
  - destruct Hboth as [-> ->]. done.
Qed.

Lemma average_velocity_agrees_between_services_witness :
  let c := {| MetricsService.world := Scenario.healthy;
              MetricsService.team_findUnique_failing := false |} in
  ∃ (r : @Velocity.t Binary64) (m : @VelocityMetrics.t Binary64),
    TextQueryResult.result <$> outcome (handleVelocityQuery Scenario.healthy "velocity" "all")
    = Some (Some (VelocityResult r)) ∧
    MetricsService.getVelocityMetrics c "all" None = Fulfilled m ∧
    Sprint.endDate <$> sprints (db Scenario.healthy) = [10 * Scenario.day; 20 * Scenario.day] ∧
    Velocity.averageVelocity r = VelocityMetrics.averageVelocity m.
Proof.
  intros c. eexists. eexists. split; [reflexivity|]. split; [reflexivity|].
  split; [reflexivity|].
  apply (average_velocity_agrees_between_services (N := Binary64) c "velocity" "all" None
           (sprints (db Scenario.healthy))
           (default (processingError "")
              (outcome (handleVelocityQuery Scenario.healthy "velocity" "all")))).
  - by left.
  - reflexivity.
  - unfold Terms.endApart. apply (bool_decide_unpack _). vm_compute. reflexivity.
  - reflexivity.
  - reflexivity.
  - reflexivity.
Defined.

Lemma counted_tickets (teamId : option string) (start : Z) (l : list Ticket.t) :
  List.filter (countWhere (MetricsService.whenSet teamId) None start) l
  = filter (fun t => Terms.inScope (MetricsService.whenSet teamId) t ∧
                     start <= Ticket.createdAt t) l ∧
  List.filter (countWhere (MetricsService.whenSet teamId) (Some BUG) start) l
  = Spec.bugsAmong
      (filter (fun t => Terms.inScope (MetricsService.whenSet teamId) t ∧
                        start <= Ticket.createdAt t) l).
Proof.
  unfold Spec.bugsAmong. rewrite list_filter_filter.
  split; apply List_filter_as_filter; intros t;
    rewrite countWhere_spec; unfold Terms.inScope; tauto.
Qed.

Lemma getTeamId_fulfilled (c : MetricsService.Client) (teamName : string)
    (teamId : option string) :
  MetricsService.getTeamId c teamName = Fulfilled teamId →
  MetricsService.whenSet teamId = Terms.metricsScope (MetricsService.world c) teamName.
Proof.
  intros Hid. rewrite <- whenSet_scope.
  unfold MetricsService.getTeamId, MetricsService.findTeamId in Hid.
  destruct (String.eqb teamName "all"); [by injection Hid as <-|].
  destruct (MetricsService.team_findUnique_failing c); [done|]. by injection Hid as <-.
Qed.

(** What the bug-rate metrics are computed from, once the lookups have
    succeeded. *)
Lemma getBugRateMetrics_fulfilled `{N : Number} (c : MetricsService.Client)
    (teamName : string) (days : Z) (m : BugRateMetrics.t) :
  MetricsService.getBugRateMetrics c teamName days = Fulfilled m →
  let pool := Terms.counted (MetricsService.world c) teamName days in
  m = {| BugRateMetrics.team := teamName;
         BugRateMetrics.period := pretty days ++ " days";
         BugRateMetrics.totalTickets := Z.of_nat (length pool);
         BugRateMetrics.bugTickets := Z.of_nat (length (Spec.bugsAmong pool));
         BugRateMetrics.bugRate :=
           MetricsService.bugRateOf (Z.of_nat (length pool))
             (Z.of_nat (length (Spec.bugsAmong pool))) |}.
Proof.
  unfold MetricsService.getBugRateMetrics, MetricsService.rethrowing.
  destruct (MetricsService.getTeamId c teamName) as [teamId|] eqn:Hid; [|done].
  apply getTeamId_fulfilled in Hid.
  unfold countTickets, call. simpl.
  destruct (failing (MetricsService.world c) ticket_count); [done|]. simpl.
  destruct (counted_tickets teamId (subDays (now (MetricsService.world c)) days)
              (tickets (db (MetricsService.world c)))) as [-> ->].
  rewrite Hid. by intros [= <-].
Qed.

Lemma length_bugsAmong (pool : list Ticket.t) :
  (length (Spec.bugsAmong pool) ≤ length pool)%nat.
Proof. apply length_filter. Qed.

(** X17. The bug-rate metrics, once the lookups have succeeded: the
    total is the number of tickets in scope created within the requested
    number of days, the bug count is the number of those of type BUG and
    never exceeds the total, and the rate is 0 when there is no such
    ticket and otherwise [Math.round] of ten thousand times the ratio,
    divided by 100. *)
Theorem bug_rate_metrics_count_the_window `{N : Number}
    (c : MetricsService.Client) (teamName : string) (days : Z) (m : BugRateMetrics.t) :
  MetricsService.getBugRateMetrics c teamName days = Fulfilled m →
  let pool := Terms.counted (MetricsService.world c) teamName days in
  BugRateMetrics.team m = teamName ∧
  BugRateMetrics.period m = pretty days ++ " days" ∧
  BugRateMetrics.totalTickets m = Z.of_nat (length pool) ∧
  BugRateMetrics.bugTickets m = Z.of_nat (length (Spec.bugsAmong pool)) ∧
  BugRateMetrics.bugTickets m <= BugRateMetrics.totalTickets m ∧
  BugRateMetrics.bugRate m
  = match pool with
    | [] => ofZ 0
    | _ =>
        div (ofZ (Math_round (mul (div (ofZ (BugRateMetrics.bugTickets m))
                                       (ofZ (BugRateMetrics.totalTickets m)))
                                  (ofZ 10000))))
            (ofZ 100)
    end.
Proof.
  intros Hm pool. apply getBugRateMetrics_fulfilled in Hm. fold pool in Hm. subst m.
  cbn [BugRateMetrics.team BugRateMetrics.period BugRateMetrics.totalTickets
       BugRateMetrics.bugTickets BugRateMetrics.bugRate].
  split_and!; try done.
  - pose proof (length_bugsAmong pool). lia.
  - unfold MetricsService.bugRateOf, ratio. destruct pool as [|t pool']; [done|].
    by destruct (Z.eqb_spec (Z.of_nat (length (t :: pool'))) 0) as [H0|_];
      [simpl in H0; lia|].
Qed.

Lemma bug_rate_metrics_count_the_window_witness :
  let c := {| MetricsService.world := Scenario.busy;
              MetricsService.team_findUnique_failing := false |} in
  ∃ m : @BugRateMetrics.t Binary64,
    MetricsService.getBugRateMetrics c "Alpha" 30 = Fulfilled m ∧
    BugRateMetrics.totalTickets m = 160 ∧
    BugRateMetrics.bugTickets m = 23 ∧
    BugRateMetrics.bugRate m = PrimFloat.div (doubleOfZ 1438) (doubleOfZ 100) ∧
    BugRateMetrics.bugTickets m <= BugRateMetrics.totalTickets m.
Proof.
  intros c. eexists. split; [reflexivity|]. split; [reflexivity|]. split; [reflexivity|].
  split; [reflexivity|].
  exact (proj1 (proj2 (proj2 (proj2 (proj2
    (bug_rate_metrics_count_the_window (N := Binary64) c "Alpha" 30 _ eq_refl)))))).
Defined.

(** X18. In exact arithmetic the bug rate of the metrics service lies
    between 0 and 100 and, when at least one ticket is counted, within
    half a hundredth of the exact percentage of bugs. *)
Theorem bug_rate_metric_is_a_percentage
    (c : MetricsService.Client) (teamName : string) (days : Z)
    (m : @BugRateMetrics.t Exact) :
  MetricsService.getBugRateMetrics c teamName days = Fulfilled m →
  (0 <= BugRateMetrics.bugRate m <= 100)%Q ∧
  (0 < BugRateMetrics.totalTickets m →
   (Qabs (BugRateMetrics.bugRate m
          - inject_Z (BugRateMetrics.bugTickets m) / inject_Z (BugRateMetrics.totalTickets m)
            * 100) <= 1 # 200)%Q).
Proof.
  intros Hm. apply getBugRateMetrics_fulfilled in Hm. subst m.
  set (pool := Terms.counted (MetricsService.world c) teamName days).
  cbn [BugRateMetrics.totalTickets BugRateMetrics.bugTickets BugRateMetrics.bugRate].
  pose proof (length_bugsAmong pool) as Hle.
  set (t := length pool) in *. set (b := length (Spec.bugsAmong pool)) in *.
  unfold MetricsService.bugRateOf.
  destruct (Z.eqb_spec (Z.of_nat t) 0) as [H0|Hpos].
  - split; [cbn [ofZ Exact]; split; [apply Qle_refl|done]|]. lia.
  - assert (Ht : (0 < t)%nat) by lia.
    destruct (ratio_range b t Hle Ht) as [Hl Hu].
    unfold ratio in *. cbn [div mul ofZ Exact] in *.
    change (inject_Z 100) with 100%Q in *. change (inject_Z 10000) with 10000%Q.
    set (x := (inject_Z (Z.of_nat b) / inject_Z (Z.of_nat t))%Q) in *.
    destruct (Math_round_near (x * 10000)) as [Hnl Hnu].
    assert (H1 : 0 <= Math_round (Number := Exact) (x * 10000)%Q).
    { pose proof (Math_round_mono (inject_Z 0) (x * 10000)%Q) as H.
      rewrite Math_round_of_integer in H. apply H.
      change (inject_Z 0) with 0%Q. lra. }
    assert (H2 : Math_round (Number := Exact) (x * 10000)%Q <= 10000).
    { pose proof (Math_round_mono (x * 10000)%Q (inject_Z 10000)) as H.
      rewrite Math_round_of_integer in H. apply H.
      change (inject_Z 10000) with 10000%Q. lra. }
    rewrite Zle_Qle in H1, H2.
    change (inject_Z 0) with 0%Q in H1. change (inject_Z 10000) with 10000%Q in H2.
    set (r := inject_Z (Math_round (Number := Exact) (x * 10000)%Q)) in *.
    unfold Qdiv at 1 2 3. change (/ 100)%Q with (1 # 100)%Q.
    split; [split; lra|]. intros _. apply Qabs_Qle_condition. split; lra.
Qed.

Lemma bug_rate_metric_is_a_percentage_witness :
  let c := {| MetricsService.world := Scenario.healthy;
              MetricsService.team_findUnique_failing := false |} in
  ∃ m : @BugRateMetrics.t Exact,
    MetricsService.getBugRateMetrics c "all" 30 = Fulfilled m ∧
    BugRateMetrics.bugRate m = (inject_Z 3333 / 100)%Q ∧
    (0 <= BugRateMetrics.bugRate m <= 100)%Q.
Proof.
  intros c. eexists. split; [reflexivity|]. split; [reflexivity|].
  exact (proj1 (bug_rate_metric_is_a_percentage c "all" 30 _ eq_refl)).
Defined.

(** X19. The metrics service reports a failed lookup by rejecting, and
    rejects in no other case: each of the three metrics is rejected
    exactly when the team lookup fails (it is not made for [all]) or one
    of the ticket or sprint lookups the metric needs fails. *)
Theorem metrics_are_rejected_exactly_on_a_failed_lookup `{N : Number}
    (c : MetricsService.Client) (teamName : string) (sprintId : option string) (days : Z) :
  let teamLookupFails :=
    teamName ≠ "all" ∧ MetricsService.team_findUnique_failing c = true in
  (MetricsService.getVelocityMetrics c teamName sprintId = Rejected ↔
   teamLookupFails ∨ failing (MetricsService.world c) ticket_findMany = true ∨
   failing (MetricsService.world c) sprint_findMany = true) ∧
  (MetricsService.getBugRateMetrics c teamName days = Rejected ↔
   teamLookupFails ∨ failing (MetricsService.world c) ticket_count = true) ∧
  (MetricsService.getResolutionTimeMetrics c teamName days = Rejected ↔
   teamLookupFails ∨ failing (MetricsService.world c) ticket_findMany = true).
Proof.
  intros teamLookupFails.
  pose proof (getTeamId_rejected c teamName) as Hid. fold teamLookupFails in Hid.
  unfold MetricsService.getVelocityMetrics, MetricsService.getBugRateMetrics,
    MetricsService.getResolutionTimeMetrics, MetricsService.rethrowing,
    MetricsService.findRecentSprints, countTickets, call.
  destruct (MetricsService.getTeamId c teamName) as [teamId|]; simpl.
  - assert (Hno : ¬ teamLookupFails) by (intros H; by apply Hid in H).
    split_and!.
    + destruct (failing (MetricsService.world c) ticket_findMany); simpl; [tauto|].
      destruct (failing (MetricsService.world c) sprint_findMany); simpl; [tauto|].
      split; [done|]. intros [?|[?|?]]; [tauto|done..].
    + destruct (failing (MetricsService.world c) ticket_count); simpl; [tauto|].
      split; [done|]. intros [?|?]; [tauto|done].
    + destruct (failing (MetricsService.world c) ticket_findMany); simpl; [tauto|].
      destruct (length _ =? 0)%nat; (split; [done|]); intros [?|?]; tauto || done.
  - assert (Hyes : teamLookupFails) by (by apply Hid).
    split_and!; tauto.
Qed.

(** ** The period selector of the dashboard *)

(** X20. The dashboard keeps the selected period as a date-range name
    and hands the panel the number of days that name stands for. A number
    of days survives this round trip exactly when it is 90, 180 or 365
    (every other number comes back as 90), and a name survives the
    opposite round trip exactly when it is [3months], [6months] or
    [12months] (every other name comes back as [3months]). *)
Theorem period_round_trip (days : Z) (range : string) :
  (Dashboard.dateRangeToDays (Dashboard.daysToDateRange days) = days ↔
   days = 90 ∨ days = 180 ∨ days = 365) ∧
  (days ≠ 90 → days ≠ 180 → days ≠ 365 →
   Dashboard.dateRangeToDays (Dashboard.daysToDateRange days) = 90) ∧
  (Dashboard.daysToDateRange (Dashboard.dateRangeToDays range) = range ↔
   range = "3months" ∨ range = "6months" ∨ range = "12months") ∧
  (range ≠ "3months" → range ≠ "6months" → range ≠ "12months" →
   Dashboard.daysToDateRange (Dashboard.dateRangeToDays range) = "3months").
Proof.
  unfold Dashboard.dateRangeToDays, Dashboard.daysToDateRange.
  split_and!.
  - destruct (Z.eqb_spec days 90); [simpl; lia|].
    destruct (Z.eqb_spec days 180); [simpl; lia|].
    destruct (Z.eqb_spec days 365); simpl; lia.
  - intros H1 H2 H3.
    by rewrite (proj2 (Z.eqb_neq _ _) H1), (proj2 (Z.eqb_neq _ _) H2),
      (proj2 (Z.eqb_neq _ _) H3).
  - destruct (String.eqb_spec range "3months") as [->|H1]; [simpl; tauto|].
    destruct (String.eqb_spec range "6months") as [->|H2]; [simpl; tauto|].
    destruct (String.eqb_spec range "12months") as [->|H3]; [simpl; tauto|].
    simpl. split; [congruence|tauto].
  - intros H1 H2 H3.
    by rewrite (proj2 (String.eqb_neq _ _) H1), (proj2 (String.eqb_neq _ _) H2),
      (proj2 (String.eqb_neq _ _) H3).
Qed.

(** Of the periods the filter panel offers, 7 and 30 days come back as 90. *)
Example offered_periods_round_trip :
  (fun days => Dashboard.dateRangeToDays (Dashboard.daysToDateRange days)) <$> [7; 30; 90; 180]
  = [90; 90; 90; 180].
Proof. reflexivity. Qed.
